(** * WOPI bridge: a shallow embedding of [wopibridge.py] and [codimd.py]

    The development follows the two Python modules:
    - [Py]      the Python built-ins the code relies on (slicing, [split],
                [os.path.splitext], [int()], UTF-8 decoding, [functools.reduce]);
    - [Digest]  SHA-1, HMAC-SHA1 and URL-safe base64 ([hashlib], [hmac], [base64]);
    - [Bridge]  the registry, the HTTP handlers and the save coordinator
                ([wopibridge.py]) together with the CodiMD adapter ([codimd.py]).

    Python [str] values are modelled by [string] holding their UTF-8 bytes,
    Python [bytes] by [list Byte.byte], dictionaries by [gmap]. *)

From Stdlib Require Import ZArith QArith Ascii String List Strings.Byte Lia.
From stdpp Require Import base option list strings gmap fin_maps.

Open Scope string_scope.
Open Scope list_scope.
Open Scope Z_scope.

(* ===================================================================== *)
(** ** Python built-ins *)
(* ===================================================================== *)

Module Py.

Abbreviation bytes := (list Byte.byte).

Definition byte_to_Z (b : Byte.byte) : Z := Z.of_N (Byte.to_N b).

Definition Z_to_byte (z : Z) : Byte.byte :=
  match Byte.of_N (Z.to_N (z mod 256)) with
  | Some b => b
  | None => Byte.x00
  end.

(** [s.encode()]: a [string] already holds the UTF-8 bytes of the text. *)
Definition encode (s : string) : bytes := list_byte_of_string s.

Definition chars (s : string) : list ascii := list_ascii_of_string s.
Definition unchars (l : list ascii) : string := string_of_list_ascii l.

(** A byte [10xxxxxx] continues the UTF-8 encoding of the character whose
    lead byte precedes it. *)
Definition continuation (c : ascii) : bool :=
  let n := nat_of_ascii c in ((128 <=? n) && (n <? 192))%nat.

(** [s[-n:]] for [n > 0] on a text held as its UTF-8 bytes: the last [n]
    characters, all of them when there are fewer. [rl] is the text read from
    its end, so that the continuation bytes of a character come before its
    lead byte, which is the one that counts. *)
Fixpoint last_chars_rev (n : nat) (rl : list ascii) {struct rl} : list ascii :=
  match rl with
  | [] => []
  | c :: rl' =>
      match n with
      | O => []
      | S n' => c :: last_chars_rev (if continuation c then n else n') rl'
      end
  end.

Definition last_chars (n : nat) (l : list ascii) : list ascii :=
  rev (last_chars_rev n (rev l)).

(** [acctok[-20:]] *)
Definition shorttok (acctok : string) : string :=
  unchars (last_chars 20 (chars acctok)).

(** [l[:-1]] *)
Definition drop_last {A} (l : list A) : list A :=
  take (length l - 1)%nat l.

(** [s.split(sep)] for a one-character separator: never empty. *)
Fixpoint split_chars (sep : ascii) (l : list ascii) : list (list ascii) :=
  match l with
  | [] => [[]]
  | c :: l' =>
      if Ascii.eqb c sep then [] :: split_chars sep l'
      else match split_chars sep l' with
           | [] => [[c]]
           | w :: ws => (c :: w) :: ws
           end
  end.

Definition split (sep : ascii) (s : string) : list string :=
  unchars <$> split_chars sep (chars s).

(** [s.split(sep)[-1]] *)
Definition split_last (sep : ascii) (s : string) : string :=
  List.last (split sep s) "".

(** [s.rfind(c)]: index of the last occurrence, or [-1]. *)
Fixpoint rfind_from (c : ascii) (l : list ascii) (i : Z) (found : Z) : Z :=
  match l with
  | [] => found
  | x :: l' => rfind_from c l' (i + 1) (if Ascii.eqb x c then i else found)
  end.

Definition rfind (c : ascii) (l : list ascii) : Z := rfind_from c l 0 (-1).

(** The loop of [genericpath._splitext] that skips leading dots: is there a
    character other than ['.'] at an index in [filenameIndex, dotIndex)? *)
Fixpoint has_non_dot (l : list ascii) (i : Z) (lo hi : Z) : bool :=
  match l with
  | [] => false
  | x :: l' =>
      if (lo <=? i) && (i <? hi) && negb (Ascii.eqb x ".") then true
      else has_non_dot l' (i + 1) lo hi
  end.

(** [os.path.splitext(p)] (posixpath): [(root, ext)]. *)
Definition splitext (p : string) : string * string :=
  let l := chars p in
  let sepIndex := rfind "/" l in
  let dotIndex := rfind "." l in
  if (sepIndex <? dotIndex) && has_non_dot l 0 (sepIndex + 1) dotIndex
  then (unchars (take (Z.to_nat dotIndex) l), unchars (drop (Z.to_nat dotIndex) l))
  else (p, "").

(** [s.startswith(p)] on character lists. *)
Fixpoint starts_with (p l : list ascii) : bool :=
  match p, l with
  | [], _ => true
  | _ :: _, [] => false
  | a :: p', b :: l' => Ascii.eqb a b && starts_with p' l'
  end.

(** [s.replace(old, new)] for a non-empty [old]: leftmost, non-overlapping. *)
Fixpoint replace_chars (fuel : nat) (old new l : list ascii) : list ascii :=
  match fuel with
  | O => l
  | S fuel' =>
      match l with
      | [] => []
      | c :: l' =>
          if starts_with old l
          then new ++ replace_chars fuel' old new (drop (length old) l)
          else c :: replace_chars fuel' old new l'
      end
  end.

Definition replace (old new s : string) : string :=
  unchars (replace_chars (S (String.length s)) (chars old) (chars new) (chars s)).

(** Strict UTF-8 well-formedness, as checked by [bytes.decode()]:
    shortest form only, no surrogates, nothing above U+10FFFF. *)
Definition in_range (lo hi z : Z) : bool := (lo <=? z) && (z <=? hi).
Definition cont (z : Z) : bool := in_range 128 191 z.

Fixpoint utf8_valid_Z (l : list Z) : bool :=
  match l with
  | [] => true
  | b0 :: t0 =>
      if b0 <? 128 then utf8_valid_Z t0
      else match t0 with
      | [] => false
      | b1 :: t1 =>
          if in_range 194 223 b0 then cont b1 && utf8_valid_Z t1
          else match t1 with
          | [] => false
          | b2 :: t2 =>
              if in_range 224 239 b0 then
                (if b0 =? 224 then in_range 160 191 b1
                 else if b0 =? 237 then in_range 128 159 b1
                 else cont b1)
                && cont b2 && utf8_valid_Z t2
              else match t2 with
              | [] => false
              | b3 :: t3 =>
                  if in_range 240 244 b0 then
                    (if b0 =? 240 then in_range 144 191 b1
                     else if b0 =? 244 then in_range 128 143 b1
                     else cont b1)
                    && cont b2 && cont b3 && utf8_valid_Z t3
                  else false
              end
          end
      end
  end.

Definition utf8_valid (b : bytes) : bool := utf8_valid_Z (byte_to_Z <$> b).

(** [b.decode()]: [None] stands for [UnicodeDecodeError]. *)
Definition decode (b : bytes) : option string :=
  if utf8_valid b then Some (string_of_list_byte b) else None.

(** [int(s)] on ASCII text: optional surrounding blanks, optional sign, decimal
    digits that single underscores may separate. [None] is [ValueError]. *)
Definition is_space (c : ascii) : bool :=
  let n := nat_of_ascii c in
  ((9 <=? n) && (n <=? 13))%nat || (n =? 32)%nat.

Definition digit_val (c : ascii) : option Z :=
  let n := Z.of_nat (nat_of_ascii c) in
  if in_range 48 57 n then Some (n - 48) else None.

Fixpoint lstrip (l : list ascii) : list ascii :=
  match l with
  | c :: l' => if is_space c then lstrip l' else l
  | [] => []
  end.

Definition strip (l : list ascii) : list ascii := rev (lstrip (rev (lstrip l))).

(** digits of the literal; [prev_digit] tells whether an underscore may come next *)
Fixpoint parse_digits (l : list ascii) (acc : Z) (prev_digit : bool) : option Z :=
  match l with
  | [] => if prev_digit then Some acc else None
  | c :: l' =>
      match digit_val c with
      | Some d => parse_digits l' (10 * acc + d) true
      | None =>
          if Ascii.eqb c "_" && prev_digit
          then match l' with
               | [] => None
               | _ => parse_digits l' acc false
               end
          else None
      end
  end.

Definition int_of_string (s : string) : option Z :=
  match strip (chars s) with
  | [] => None
  | c :: l' =>
      if Ascii.eqb c "-" then Z.opp <$> parse_digits l' 0 false
      else if Ascii.eqb c "+" then parse_digits l' 0 false
      else parse_digits (c :: l') 0 false
  end.

(** [functools.reduce(f, l)] without initial value: [None] is the
    [TypeError] raised on an empty sequence. *)
Definition reduce {A} (f : A → A → A) (l : list A) : option A :=
  match l with
  | [] => None
  | x :: l' => Some (fold_left f l' x)
  end.

(** [f.readline()] on the text that is left to read: up to the first newline,
    which it includes. *)
Fixpoint readline (l : list ascii) : list ascii :=
  match l with
  | [] => []
  | c :: l' => if Ascii.eqb c "010" then [c] else c :: readline l'
  end.

(** [s.strip(c)] for a single character [c] *)
Fixpoint lstrip_char (c : ascii) (l : list ascii) : list ascii :=
  match l with
  | x :: l' => if Ascii.eqb x c then lstrip_char c l' else l
  | [] => []
  end.

Definition strip_char (c : ascii) (l : list ascii) : list ascii :=
  rev (lstrip_char c (rev (lstrip_char c l))).

(** [f.readline().strip('\n')] on a file that was just opened; [text] is
    the content of the file as the text layer presents it. *)
Definition first_line (text : string) : string :=
  unchars (strip_char "010" (readline (chars text))).

End Py.

(* ===================================================================== *)
(** ** Digests: SHA-1, HMAC-SHA1, URL-safe base64 *)
(* ===================================================================== *)

Module Digest.
Import Py.

Definition w32 (x : Z) : Z := x mod 2 ^ 32.
Definition add32 (x y : Z) : Z := w32 (x + y).
Definition rotl (n x : Z) : Z :=
  w32 (Z.lor (Z.shiftl x n) (Z.shiftr x (32 - n))).
Definition not32 (x : Z) : Z := Z.lxor x (2 ^ 32 - 1).

(** big-endian serialisation of a [n]-byte word *)
Fixpoint be_bytes (n : nat) (x : Z) : list Z :=
  match n with
  | O => []
  | S n' => be_bytes n' (Z.shiftr x 8) ++ [x mod 256]
  end.

Definition be_word (l : list Z) : Z :=
  fold_left (λ acc b, Z.lor (Z.shiftl acc 8) b) l 0.

Definition sha1_pad (msg : list Z) : list Z :=
  let len := Z.of_nat (length msg) in
  msg ++ [128] ++ repeat 0 (Z.to_nat ((55 - len) mod 64)) ++ be_bytes 8 (8 * len).

Fixpoint chunks {A} (fuel : nat) (n : nat) (l : list A) : list (list A) :=
  match fuel with
  | O => []
  | S fuel' =>
      match l with
      | [] => []
      | _ => take n l :: chunks fuel' n (drop n l)
      end
  end.

(** message schedule, newest word first *)
Fixpoint schedule (k : nat) (ws : list Z) : list Z :=
  match k with
  | O => ws
  | S k' =>
      let w := rotl 1 (Z.lxor (Z.lxor (nth 2 ws 0) (nth 7 ws 0))
                              (Z.lxor (nth 13 ws 0) (nth 15 ws 0))) in
      schedule k' (w :: ws)
  end.

Definition sha1_f (t : nat) (b c d : Z) : Z :=
  if (t <? 20)%nat then Z.lor (Z.land b c) (Z.land (not32 b) d)
  else if (t <? 40)%nat then Z.lxor (Z.lxor b c) d
  else if (t <? 60)%nat then Z.lor (Z.lor (Z.land b c) (Z.land b d)) (Z.land c d)
  else Z.lxor (Z.lxor b c) d.

Definition sha1_k (t : nat) : Z :=
  if (t <? 20)%nat then 0x5A827999
  else if (t <? 40)%nat then 0x6ED9EBA1
  else if (t <? 60)%nat then 0x8F1BBCDC
  else 0xCA62C1D6.

Record sha1_state := H5 { ha : Z; hb : Z; hc : Z; hd : Z; he : Z }.

Definition sha1_round (st : sha1_state * nat) (w : Z) : sha1_state * nat :=
  let '(H5 a b c d e, t) := st in
  let tmp := add32 (add32 (add32 (add32 (rotl 5 a) (sha1_f t b c d)) e) (sha1_k t)) w in
  (H5 tmp a (rotl 30 b) c d, S t).

Definition sha1_block (h : sha1_state) (block : list Z) : sha1_state :=
  let ws := rev (schedule 64 (rev (be_word <$> chunks 16 4 block))) in
  let '(H5 a b c d e, _) := fold_left sha1_round ws (h, O) in
  H5 (add32 (ha h) a) (add32 (hb h) b) (add32 (hc h) c) (add32 (hd h) d) (add32 (he h) e).

Definition sha1_init : sha1_state :=
  H5 0x67452301 0xEFCDAB89 0x98BADCFE 0x10325476 0xC3D2E1F0.

Definition sha1_Z (msg : list Z) : list Z :=
  let p := sha1_pad msg in
  let h := fold_left sha1_block (chunks (length p) 64 p) sha1_init in
  be_bytes 4 (ha h) ++ be_bytes 4 (hb h) ++ be_bytes 4 (hc h)
    ++ be_bytes 4 (hd h) ++ be_bytes 4 (he h).

(** [hashlib.sha1(msg).digest()] *)
Definition sha1 (msg : bytes) : bytes := Z_to_byte <$> sha1_Z (byte_to_Z <$> msg).

Definition hex_digit (n : Z) : ascii :=
  ascii_of_nat (Z.to_nat (if n <? 10 then 48 + n else 87 + n)).

(** [.hexdigest()] *)
Definition hex (b : bytes) : string :=
  unchars (flat_map (λ x, let z := byte_to_Z x in [hex_digit (z / 16); hex_digit (z mod 16)]) b).

Definition sha1_hexdigest (msg : bytes) : string := hex (sha1 msg).

(** [hmac.new(key, msg, hashlib.sha1).digest()] *)
Definition hmac_sha1_Z (key msg : list Z) : list Z :=
  let k0 := if (64 <? length key)%nat then sha1_Z key else key in
  let k := k0 ++ repeat 0 (64 - length k0)%nat in
  sha1_Z ((Z.lxor 0x5c <$> k) ++ sha1_Z ((Z.lxor 0x36 <$> k) ++ msg)).

Definition hmac_sha1 (key msg : bytes) : bytes :=
  Z_to_byte <$> hmac_sha1_Z (byte_to_Z <$> key) (byte_to_Z <$> msg).

(** the URL-safe base64 alphabet *)
Definition b64url_char (n : Z) : ascii :=
  ascii_of_nat (Z.to_nat
    (if n <? 26 then 65 + n
     else if n <? 52 then 71 + n
     else if n <? 62 then n - 4
     else if n =? 62 then 45 else 95)).

Fixpoint b64url_Z (l : list Z) : list ascii :=
  match l with
  | [] => []
  | [a] =>
      [b64url_char (a / 4); b64url_char ((a mod 4) * 16); "="%char; "="%char]
  | [a; b] =>
      [b64url_char (a / 4); b64url_char ((a mod 4) * 16 + b / 16);
       b64url_char ((b mod 16) * 4); "="%char]
  | a :: b :: c :: l' =>
      b64url_char (a / 4) :: b64url_char ((a mod 4) * 16 + b / 16)
        :: b64url_char ((b mod 16) * 4 + c / 64) :: b64url_char (c mod 64)
        :: b64url_Z l'
  end.

(** [base64.urlsafe_b64encode(b).decode()] *)
Definition urlsafe_b64encode (b : bytes) : list ascii := b64url_Z (byte_to_Z <$> b).

End Digest.

(* ===================================================================== *)
(** ** The bridge: data model, effects, external collaborators *)
(* ===================================================================== *)

Module Bridge.
Import Py Digest.

(** *** Exceptions *)

(** the argument an exception was raised with *)
Inductive exn_arg :=
| ArgStr (s : string)
| ArgInt (z : Z).

Inductive exn :=
| InvalidLock (reason : string)      (* wopiclient.InvalidLock; [reason] is [str(e)] *)
| AppFailure                          (* the adapter's AppFailure *)
| ValueError (arg : exn_arg)
| TypeError
| KeyError (key : string)
| AttributeError
| UnicodeDecodeError
| ConnectionError                     (* requests.exceptions.ConnectionError *)
| OtherError (what : string).

Inductive res (A : Type) :=
| Ok (a : A)
| Raise (e : exn).
Arguments Ok {A} a.
Arguments Raise {A} e.

(** *** Data model *)

(** The WOPI lock, a JSON object on the wire. *)
Record lock := WopiLock {
  lk_docid : string;
  lk_filename : string;
  lk_digest : string;
  lk_app : string;
  lk_toclose : gmap string bool
}.

(** An entry of [WB.openfiles]. [docid] is [None] when [/save] repopulates a
    record from a request that carries no [id] argument. *)
Record openfile := OpenFile {
  acctok : string;
  tosave : bool;
  lastsave : Z;
  toclose : gmap string bool;
  docid : option string
}.

Definition set_acctok (a : string) (r : openfile) : openfile :=
  OpenFile a (tosave r) (lastsave r) (toclose r) (docid r).
Definition set_tosave (b : bool) (r : openfile) : openfile :=
  OpenFile (acctok r) b (lastsave r) (toclose r) (docid r).
Definition set_lastsave (t : Z) (r : openfile) : openfile :=
  OpenFile (acctok r) (tosave r) t (toclose r) (docid r).
Definition set_toclose (m : gmap string bool) (r : openfile) : openfile :=
  OpenFile (acctok r) (tosave r) (lastsave r) m (docid r).

(** A [(message, http code)] pair as the handlers return it. *)
Record response := Resp { body : string; status : Z }.

(** What [WB.saveresponses] can hold: the map is untyped, and [savedirty]
    also assigns it the lock that [wopi.relock] returns. *)
Inductive stored :=
| StoredResp (r : response)
| StoredLock (l : lock).

(** The WOPI file metadata returned by GetFileInfo. *)
Record filemd := FileMd {
  BaseFileName : string;
  FileName : string;
  UserCanWrite : bool;
  UserFriendlyName : string
}.

(** A [requests.Response]: the parts the code reads. [content_length] is the
    [Content-Length] header, [next_path] the path of [res.next.url] as
    [urlsplit] gives it, [json_filemd] the outcome of [res.json()]. *)
Record http_response := HttpResponse {
  status_code : Z;
  content : bytes;
  content_length : option string;
  next_path : option string;
  json_filemd : option filemd
}.

(** An entry of a ZIP archive ([zipfile.ZipInfo] and its data). *)
Record zipentry := ZipEntry {
  ze_filename : string;
  ze_file_size : Z;
  ze_data : bytes
}.

(** http.client status codes *)
Definition OK : Z := 200.
Definition ACCEPTED : Z := 202.
Definition FOUND : Z := 302.
Definition BAD_REQUEST : Z := 400.
Definition UNAUTHORIZED : Z := 401.
Definition FORBIDDEN : Z := 403.
Definition NOT_FOUND : Z := 404.
Definition INTERNAL_SERVER_ERROR : Z := 500.

(** *** Calls to the outside, as the trace records them *)

Inductive wopi_op :=
| GetFileInfo
| GetFile
| Lock (l : lock)
| Unlock (l : lock)
| PutFile (l : lock) (contents : option bytes).

Inductive lock_override :=
| NoOverride
| WithDigest (d : string)
| WithToclose (m : gmap string bool).

Inductive app_op :=
| AppHead (url : string)
| AppGet (url : string)
| AppPostNew (doc : bytes)
| AppPutNote (url : string) (content : string)
| AppUploadImage (fname : string) (data : bytes).

Inductive event :=
| EvTime
| EvRandint (lo hi : Z)
| EvNotify
| EvWopi (wopisrc acctok : string) (op : wopi_op)
| EvGetLock (wopisrc acctok : string)
| EvRelock (wopisrc acctok : string) (docid : option string) (isclose : bool)
| EvRefreshLock (wopisrc acctok : string) (l : lock) (ov : lock_override)
| EvSaveAs (wopisrc acctok : string) (l : lock) (newname : string)
    (contents : option bytes)
| EvApp (op : app_op)
| EvSaveToStorage (app wopisrc : string) (isclose : bool).

(** The collaborators outside [wopibridge.py] and [codimd.py]: storage and
    app behind [wopiclient] and [requests], the clock, the random source and
    the pure helpers of the libraries. An answer is indexed by the number of
    calls made so far, so a world scripts any behaviour of the outside. *)
Record world := World {
  time_time : nat → Q;
  random_raw : nat → nat;
  wopi_request : nat → res http_response;
  wopi_getlock : nat → res lock;
  wopi_relock : nat → res lock;
  wopi_refreshlock : nat → res lock;
  wopi_saveas : nat → res response;
  wopi_handleputfile : string → string → http_response → option response;
  wopi_jsonify : string → string;
  requests : nat → res http_response;
  zip_infolist : bytes → res (list zipentry);
  zip_bytes : list (string * bytes) → bytes;
  upload_re_findall : string → list string;
  quote_plus : string → string
}.

(** *** Program state and the effect monad *)

Record state := State {
  openfiles : gmap string openfile;
  saveresponses : gmap string stored;
  trace : list event          (* newest call first *)
}.

Definition M (A : Type) : Type := state → res A * state.

Definition ret {A} (a : A) : M A := λ st, (Ok a, st).
Definition raise {A} (e : exn) : M A := λ st, (Raise e, st).
Definition bind {A B} (m : M A) (k : A → M B) : M B :=
  λ st, match m st with
        | (Ok a, st') => k a st'
        | (Raise e, st') => (Raise e, st')
        end.

#[export] Instance M_ret : MRet M := @ret.
#[export] Instance M_bind : MBind M := λ A B k m, bind m k.

(** [try: m except E: h] where [h e = None] for the exceptions not caught *)
Definition try_except {A} (m : M A) (h : exn → option (M A)) : M A :=
  λ st, match m st with
        | (Ok a, st') => (Ok a, st')
        | (Raise e, st') =>
            match h e with
            | Some k => k st'
            | None => (Raise e, st')
            end
        end.

Definition lift {A} (r : res A) : M A := λ st, (r, st).

Definition get_openfiles : M (gmap string openfile) := λ st, (Ok (openfiles st), st).
Definition get_saveresponses : M (gmap string stored) := λ st, (Ok (saveresponses st), st).
Definition put_openfiles (m : gmap string openfile) : M unit :=
  λ st, (Ok tt, State m (saveresponses st) (trace st)).
Definition put_saveresponses (m : gmap string stored) : M unit :=
  λ st, (Ok tt, State (openfiles st) m (trace st)).

(** one call to the outside: answered by the world, recorded in the trace *)
Definition call {A} (ev : event) (answer : nat → res A) : M A :=
  λ st, (answer (length (trace st)),
         State (openfiles st) (saveresponses st) (ev :: trace st)).

(** [int(x)] on a float: truncation towards zero *)
Definition int_of_Q (q : Q) : Z := Z.quot (Qnum q) (Z.pos (Qden q)).
Definition Qltb (x y : Q) : bool := negb (Qle_bool y x).

(** *** Configuration ([WB.init], lines 96-103) *)

(** [os.environ] *)
Abbreviation environ := (gmap string string).

(** [int(os.environ.get(name))]: [TypeError] on [None], [ValueError] on text
    that is not an integer literal *)
Definition int_of_env (env : environ) (name : string) : res Z :=
  match env !! name with
  | None => Raise TypeError
  | Some s =>
      match int_of_string s with
      | Some z => Ok z
      | None => Raise (ValueError (ArgStr s))
      end
  end.

(** The two class attributes that [WB.init] assigns; [None] is an attribute
    that was never assigned. *)
Record intervals := Intervals {
  cfg_saveinterval : option Z;
  cfg_unlockinterval : option Z
}.

(** Lines 96-103 of [WB.init]. An exception that escapes (the [ValueError] of
    [int()]) reaches the outer handler, which exits the process. *)
Definition init_intervals (env : environ) : res intervals :=
  let after_save (iv : intervals) : res intervals :=
    match int_of_env env "APP_UNLOCK_INTERVAL" with
    | Ok n => Ok (Intervals (Some n) (cfg_unlockinterval iv))
    | Raise TypeError => Ok (Intervals (cfg_saveinterval iv) (Some 90))
    | Raise e => Raise e
    end in
  match int_of_env env "APP_SAVE_INTERVAL" with
  | Ok n => after_save (Intervals (Some n) None)
  | Raise TypeError => after_save (Intervals (Some 200) None)
  | Raise e => Raise e
  end.

(** *** Doc-id generator *)

(** [_gendocid]; [hashsecret] is [WB.hashsecret] *)
Definition _gendocid (hashsecret : string) (wopisrc : string) : string :=
  let dig := hmac_sha1 (encode hashsecret) (encode (split_last "/" wopisrc)) in
  unchars (drop_last (urlsafe_b64encode dig)).

(** *** Boolean reductions *)

Definition dict_values {A} (m : gmap string A) : list A := (map_to_list m).*2.

(** [_intersection] *)
Definition _intersection (boolsd : gmap string bool) : res bool :=
  match reduce andb (dict_values boolsd) with
  | Some b => Ok b
  | None => Raise TypeError
  end.

(** [_union] *)
Definition _union (boolsd : gmap string bool) : res bool :=
  match reduce orb (dict_values boolsd) with
  | Some b => Ok b
  | None => Raise TypeError
  end.

(** *** Monadic helpers *)

Definition res_bind {A B} (r : res A) (k : A → res B) : res B :=
  match r with
  | Ok a => k a
  | Raise e => Raise e
  end.

#[export] Instance res_ret : MRet res := @Ok.
#[export] Instance res_mbind : MBind res := λ A B k r, res_bind r k.

Definition nl : string := String (ascii_of_nat 10) "".

(** [chr(n)] for a code below 128 *)
Definition chr (n : Z) : string := String (ascii_of_nat (Z.to_nat n)) "".

(** [s[n:]] and [s[:n]] *)
Definition str_drop (n : nat) (s : string) : string := unchars (drop n (chars s)).
Definition str_take (n : nat) (s : string) : string := unchars (take n (chars s)).

(** [s.index(p)]: position of the first occurrence; [None] is [ValueError] *)
Fixpoint find_sub (p l : list ascii) : option nat :=
  if starts_with p l then Some O
  else match l with
       | [] => None
       | _ :: l' => S <$> find_sub p l'
       end.

Definition str_index (p s : string) : res nat :=
  match find_sub (chars p) (chars s) with
  | Some n => Ok n
  | None => Raise (ValueError (ArgStr "substring not found"))
  end.

(** truth value of a [bytes]-or-[None] *)
Definition truthy (b : option bytes) : bool :=
  match b with
  | Some (_ :: _) => true
  | _ => false
  end.

(** *** The adapter interface and the configuration *)

(** What a module of [WB.plugins] offers to the bridge. *)
Record plugin := Plugin {
  loadfromstorage : filemd → string → string → option string → M lock;
  savetostorage : string → string → bool → lock → M response;
  getredirecturl : bool → string → string → lock → string → M string
}.

(** The class attributes of [WB] that the handlers and the save thread read.
    [plugins] is [WB.plugins]: a module name gives [None] when the
    initialisation of that plugin failed. *)
Record config := Config {
  saveinterval : Z;
  unlockinterval : option Z;
  hashsecret : string;
  plugins : string → option plugin
}.

(** The module globals of [codimd.py] set by its [init]. *)
Record codimd_config := CodimdConfig {
  appurl : string;
  appexturl : string;
  apikey : string
}.

(** [init] of [codimd.py]: [apikey_file] is the text of the file
    [apipath + 'codimd_apikey'], [None] when it cannot be opened. *)
Definition codimd_init (env : environ) (apikey_file : option string) : res codimd_config :=
  let ext := default "" (env !! "CODIMD_EXT_URL") in
  if String.eqb ext "" then
    Raise (ValueError (ArgStr "Missing CODIMD_EXT_URL env var"))
  else
    let url := default "" (env !! "CODIMD_URL") in
    let url := if String.eqb url "" then ext else url in
    match apikey_file with
    | None => Raise (OtherError "OSError")
    | Some text => Ok (CodimdConfig url ext (first_line text))
    end.

Definition BRIDGE_EXT_PLUGINS : gmap string string :=
  {[ "md" := "codimd"; "zmd" := "codimd"; "mds" := "codimd"; "epd" := "etherpad" ]}.

(** Modelled from the spec: [wopiclient.generatelock], which is not among the
    sources. The lock has the fields of the WOPI lock structure, with
    the digest set (or the sentinel when the content is dirty) and a
    close-map initialised to [{shorttok(acctok): false}]. *)
Definition generatelock (docid : string) (md : filemd) (digest app acctok : string)
    (isdirty : bool) : lock :=
  WopiLock docid (BaseFileName md) (if isdirty then "dirty" else digest) app
           {[ shorttok acctok := false ]}.

Section WithWorld.

Variable W : world.

Definition now : M Q := call EvTime (λ n, Ok (time_time W n)).

(** [random.randint(lo, hi)]: both ends included *)
Definition randint (lo hi : Z) : M Z :=
  call (EvRandint lo hi)
       (λ n, Ok (lo + Z.of_nat (random_raw W n) mod (hi - lo + 1))).

Definition jsonify (msg : string) : string := wopi_jsonify W msg.

(* ------------------------------------------------------------------- *)
(** *** codimd.py *)
(* ------------------------------------------------------------------- *)

Section Codimd.

Variable cc : codimd_config.

(** [int(res.headers['Content-Length'])] *)
Definition content_length_int (r : http_response) : res Z :=
  match content_length r with
  | None => Raise (KeyError "Content-Length")
  | Some s =>
      match int_of_string s with
      | Some z => Ok z
      | None => Raise (ValueError (ArgStr s))
      end
  end.

(** [urlparse.urlsplit(res.next.url).path.split('/')[-1]] *)
Definition next_last_segment (r : http_response) : res string :=
  match next_path r with
  | None => Raise AttributeError
  | Some p => Ok (split_last "/" p)
  end.

Definition bytes_decode (b : bytes) : res string :=
  match decode b with
  | Some s => Ok s
  | None => Raise UnicodeDecodeError
  end.

(** [mddoc.replace(zipinfo.filename, fname)] as line 96 writes it: [mddoc] is
    the [bytes] read from the archive, or still [None], while both arguments
    are [str]. [bytes.replace] accepts bytes-like arguments only, and [None]
    has no [replace]. *)
Definition mddoc_replace (mddoc : option bytes) (old new : string) : res (option bytes) :=
  match mddoc with
  | None => Raise AttributeError
  | Some _ => Raise TypeError
  end.

(** the new name of a colliding attachment, for the outcome [r] of [randint] *)
Definition collision_name (fname : string) (r : Z) : string :=
  let '(name, ext) := splitext fname in
  name +:+ "_" +:+ chr r +:+ ext.

(** the body of the loop of [_unzipattachments] *)
Definition unzip_entry (mddoc : option bytes) (zipinfo : zipentry) : M (option bytes) :=
  let fname := ze_filename zipinfo in
  if String.eqb (splitext fname).2 ".md" then
    mret (Some (ze_data zipinfo))
  else
    res ← call (EvApp (AppHead (appurl cc +:+ "/uploads/" +:+ fname))) (requests W);
    same ← (if status_code res =? OK
            then n ← lift (content_length_int res); mret (n =? ze_file_size zipinfo)
            else mret false);
    if (same : bool) then mret mddoc
    else
      '(fname, mddoc) ←
        (if status_code res =? OK then
           r ← randint 65 (65 + 26);
           let fname' := collision_name fname r in
           mddoc' ← lift (mddoc_replace mddoc (ze_filename zipinfo) fname');
           mret (fname', mddoc')
         else mret (fname, mddoc));
      call (EvApp (AppUploadImage fname (ze_data zipinfo))) (requests W);;
      mret mddoc.

Fixpoint unzip_entries (mddoc : option bytes) (l : list zipentry) : M (option bytes) :=
  match l with
  | [] => mret mddoc
  | zipinfo :: l' => mddoc' ← unzip_entry mddoc zipinfo; unzip_entries mddoc' l'
  end.

(** [_unzipattachments] *)
Definition _unzipattachments (inputbuf : bytes) : M (option bytes) :=
  infolist ← lift (zip_infolist W inputbuf);
  unzip_entries None infolist.

(** [_isslides] *)
Definition _isslides (doc : bytes) : res bool :=
  s9 ← bytes_decode (take 9 doc);
  if String.eqb s9 ("---" +:+ nl +:+ "title") then Ok true
  else
    s8 ← bytes_decode (take 8 doc);
    if String.eqb s8 ("---" +:+ nl +:+ "type") then Ok true
    else
      s16 ← bytes_decode (take 16 doc);
      Ok (String.eqb s16 ("---" +:+ nl +:+ "slideOptions")).

Definition on_connection_error {A} (m : M A) : M A :=
  try_except m (λ e, match e with
                     | ConnectionError => Some (raise AppFailure)
                     | _ => None
                     end).

(** [_fetchfromcodimd]; the log line of the error branch decodes the body *)
Definition _fetchfromcodimd (wopilock : lock) (acctok : string) : M bytes :=
  on_connection_error
    (res ← call (EvApp (AppGet (appurl cc +:+ lk_docid wopilock +:+ "/download"))) (requests W);
     if negb (status_code res =? OK) then
       lift (bytes_decode (content res));; raise AppFailure
     else mret (content res)).

(** [not docid] *)
Definition no_docid (docid : option string) : bool :=
  match docid with
  | None => true
  | Some d => String.eqb d ""
  end.

(** [loadfromstorage] *)
Definition codimd_loadfromstorage (md : filemd) (wopisrc acctok : string)
    (docid : option string) : M lock :=
  res ← call (EvWopi wopisrc acctok GetFile) (wopi_request W);
  if negb (status_code res =? OK) then
    raise (ValueError (ArgInt (status_code res)))
  else
    let mdfile := content res in
    let wasbundle := String.eqb (splitext (BaseFileName md)).2 ".zmd" in
    mddoc ← (if wasbundle then _unzipattachments mdfile else mret (Some mdfile));
    (* h.update(mddoc) *)
    mddoc ← (match mddoc with
             | Some b => mret b
             | None => raise TypeError
             end);
    let digest := sha1_hexdigest mddoc in
    docid ← on_connection_error
      (if no_docid docid then
         (* read-only case: a new note with a docid chosen by the app *)
         res ← call (EvApp (AppPostNew mddoc)) (requests W);
         if negb (status_code res =? FOUND) then raise AppFailure
         else lift (next_last_segment res)
       else
         let d := default "" docid in
         res ← call (EvApp (AppHead (appurl cc +:+ "/" +:+ d))) (requests W);
         if negb ((status_code res =? OK) || (status_code res =? FOUND)) then
           raise AppFailure
         else
           docid ← (if status_code res =? FOUND
                    then lift (next_last_segment res) else mret d);
           text ← lift (bytes_decode mddoc);
           res ← call (EvApp (AppPutNote (appurl cc +:+ "/api/notes/" +:+ docid) text))
                      (requests W);
           if status_code res =? FORBIDDEN then mret docid
           else if negb (status_code res =? OK) then raise AppFailure
           else mret docid);
    slides ← lift (_isslides mddoc);
    mret (generatelock docid md digest (if (slides : bool) then "mds" else "md") acctok false).

(** [_getattachments]: the archive under construction is the list of its
    entries, oldest first *)
Fixpoint fetch_attachments (l : list string) (entries : list (string * bytes))
    (resp : option response) : M (list (string * bytes) * option response) :=
  match l with
  | [] => mret (entries, resp)
  | attachment :: l' =>
      res ← call (EvApp (AppGet (appurl cc +:+ attachment))) (requests W);
      if negb (status_code res =? OK) then
        fetch_attachments l' entries
          (Some (Resp (jsonify "Failed to include a referenced picture in the saved file")
                      NOT_FOUND))
      else
        fetch_attachments l' (entries ++ [(split_last "/" attachment, content res)]) resp
  end.

Definition _getattachments (mddoc docfilename : string) (forcezip : bool)
    : M (option bytes * option response) :=
  '(entries, resp) ← fetch_attachments (upload_re_findall W mddoc) [] None;
  if negb forcezip && (length entries =? 0)%nat then mret (None, resp)
  else mret (Some (zip_bytes W (entries ++ [(docfilename, encode mddoc)])), resp).

(** [savetostorage] *)
Definition codimd_savetostorage (wopisrc acctok : string) (isclose : bool)
    (wopilock : lock) : M response :=
  fetched ← try_except (mddoc ← _fetchfromcodimd wopilock acctok; mret (Some mddoc))
                       (λ e, match e with
                             | AppFailure => Some (mret None)
                             | _ => None
                             end);
  match fetched with
  | None =>
      mret (Resp (jsonify "Could not save file, failed to fetch document from CodiMD")
                 INTERNAL_SERVER_ERROR)
  | Some mddoc =>
      let h := if isclose && negb (String.eqb (lk_digest wopilock) "dirty")
               then Some (sha1_hexdigest mddoc) else None in
      if match h with
         | Some d => String.eqb d (lk_digest wopilock)
         | None => false
         end
      then mret (Resp "{}" ACCEPTED)
      else
        let wasbundle := String.eqb (splitext (lk_filename wopilock)).2 ".zmd" in
        text ← lift (bytes_decode mddoc);
        '(bundlefile, attresponse) ←
          _getattachments text (replace ".zmd" ".md" (lk_filename wopilock))
                          (wasbundle && negb isclose);
        if xorb wasbundle (negb (truthy bundlefile)) || negb isclose then
          res ← call (EvWopi wopisrc acctok
                        (PutFile wopilock (if wasbundle then bundlefile else Some mddoc)))
                     (wopi_request W);
          match wopi_handleputfile W "PutFile" wopisrc res with
          | Some reply => mret reply
          | None =>
              let h := if isclose && String.eqb (lk_digest wopilock) "dirty"
                       then Some (sha1_hexdigest mddoc) else h in
              call (EvRefreshLock wopisrc acctok wopilock
                      (WithDigest (default "dirty" h)))
                   (wopi_refreshlock W);;
              mret (default (Resp (jsonify "File saved successfully") OK) attresponse)
          end
        else
          call (EvSaveAs wopisrc acctok wopilock
                  ((splitext (lk_filename wopilock)).1
                     +:+ (if truthy bundlefile then ".zmd" else ".md"))
                  (if truthy bundlefile then bundlefile else Some mddoc))
               (wopi_saveas W)
  end.

(** [getredirecturl] *)
Definition codimd_getredirecturl (isreadwrite : bool) (wopisrc acctok : string)
    (wopilock : lock) (displayname : string) : M string :=
  if isreadwrite then
    mret (appexturl cc +:+ lk_docid wopilock +:+ "?metadata="
            +:+ quote_plus W (wopisrc +:+ "?t=" +:+ acctok)
            +:+ "&apiKey=" +:+ apikey cc +:+ "&displayName=" +:+ displayname)
  else
    let url := lk_docid wopilock
                 +:+ (if negb (String.eqb (lk_app wopilock) "mds") then "/publish" else "") in
    res ← call (EvApp (AppHead (appurl cc +:+ url))) (requests W);
    if status_code res =? FOUND then
      seg ← lift (next_last_segment res);
      mret (appexturl cc +:+ "/s/" +:+ seg)
    else mret (appexturl cc +:+ url +:+ "?apiKey=" +:+ apikey cc).

Definition codimd : plugin :=
  Plugin codimd_loadfromstorage codimd_savetostorage codimd_getredirecturl.

End Codimd.

(* ------------------------------------------------------------------- *)
(** *** wopibridge.py: the HTTP handlers *)
(* ------------------------------------------------------------------- *)

Section Wopibridge.

Variable cfg : config.

Definition dq : string := String (ascii_of_nat 34) "".

Definition RECOVER_MSG : string :=
  "Please copy the content to a safe place and reopen the document again to paste it back.".

(** [_guireturn] *)
Definition _guireturn (msg : string) : string :=
  "<div align=" +:+ dq +:+ "center" +:+ dq +:+ " style=" +:+ dq
    +:+ "color:#808080; padding-top:50px; font-family:Verdana" +:+ dq +:+ ">"
    +:+ msg +:+ "</div>".

(** What a handler hands back to Flask. *)
Inductive flask_response :=
| Page (html : string) (code : Z)
| Reply (s : stored)
| Redirect (url : string).

Definition dict_has {A} (m : gmap string A) (k : string) : bool :=
  match m !! k with
  | Some _ => true
  | None => false
  end.

(** using [WB.plugins[app]]: [None] has no attribute *)
Definition use_plugin (app : option plugin) : M plugin :=
  match app with
  | Some p => mret p
  | None => raise AttributeError
  end.

Definition getlock (wopisrc acctok : string) : M lock :=
  call (EvGetLock wopisrc acctok) (wopi_getlock W).

Definition store_response (wopisrc : string) (v : stored) : M unit :=
  srs ← get_saveresponses; put_saveresponses (<[wopisrc := v]> srs).

(** [try: del WB.saveresponses[wopisrc] except KeyError: pass] *)
Definition clear_response (wopisrc : string) : M unit :=
  srs ← get_saveresponses; put_saveresponses (delete wopisrc srs).

(** the read-write branch of [appopen] (lines 221-260): the lock to use and
    the value of [filemd['UserCanWrite']] afterwards *)
Definition open_readwrite (app : option plugin) (md : filemd) (wopisrc acctok : string)
    : M (lock * bool) :=
  '(wopilock, canwrite) ←
    try_except
      (wopilock ← getlock wopisrc acctok;
       if dict_has (lk_toclose wopilock) (shorttok acctok) then mret (wopilock, true)
       else
         wopilock ← call (EvRefreshLock wopisrc acctok wopilock NoOverride)
                         (wopi_refreshlock W);
         mret (wopilock, true))
      (λ e, match e with
            | InvalidLock reason =>
                Some
                  (let canwrite := String.eqb reason "404" in
                   p ← use_plugin app;
                   wopilock ← loadfromstorage p
                                (FileMd (BaseFileName md) (FileName md) canwrite
                                        (UserFriendlyName md))
                                wopisrc acctok (Some (_gendocid (hashsecret cfg) wopisrc));
                   res ← call (EvWopi wopisrc acctok (Lock wopilock)) (wopi_request W);
                   mret (wopilock, canwrite && (status_code res =? OK)))
            | _ => None
            end);
  ofs ← get_openfiles;
  match ofs !! wopisrc with
  | Some r =>
      put_openfiles (<[wopisrc := set_toclose (lk_toclose wopilock) (set_acctok acctok r)]> ofs)
  | None =>
      t ← now;
      put_openfiles
        (<[wopisrc := OpenFile acctok false (int_of_Q t - saveinterval cfg)
                               {[ shorttok acctok := false ]}
                               (Some (lk_docid wopilock))]> ofs)
  end;;
  clear_response wopisrc;;
  mret (wopilock, canwrite).

(** [appopen]: [args_wopisrc] is the unquoted [WOPISrc] argument,
    [args_acctok] the [access_token] argument, [platform] the platform of
    the user agent. [Raise] is an exception left to [handleexception]. *)
Definition appopen (args_wopisrc args_acctok platform : option string)
    : M flask_response :=
  match args_wopisrc, args_acctok with
  | Some wopisrc, Some acctok =>
      res ← call (EvWopi wopisrc acctok GetFileInfo) (wopi_request W);
      if negb (status_code res =? OK) then
        mret (Page (_guireturn "Invalid WOPI context") NOT_FOUND)
      else
        md ← (match json_filemd res with
              | Some md => mret md
              | None => raise (ValueError (ArgStr "json"))
              end);
        match BRIDGE_EXT_PLUGINS !! str_drop 1 (splitext (BaseFileName md)).2 with
        | None => mret (Page (_guireturn "File type not supported") BAD_REQUEST)
        | Some appname =>
            let app := plugins cfg appname in
            r ← try_except
                  (r ← (if UserCanWrite md then open_readwrite app md wopisrc acctok
                        else
                          p ← use_plugin app;
                          wopilock ← loadfromstorage p md wopisrc acctok None;
                          mret (wopilock, false));
                   mret (Some r))
                  (λ e, match app, e with
                        | None, _ => Some (raise AttributeError)
                        | Some _, AppFailure => Some (mret None)
                        | Some _, _ => None
                        end);
            match r with
            | None =>
                mret (Page (_guireturn
                              "Unable to load the app, please try again later or contact support")
                           INTERNAL_SERVER_ERROR)
            | Some (wopilock, canwrite) =>
                p ← use_plugin app;
                redirecturl ← getredirecturl p canwrite wopisrc acctok wopilock
                  (quote_plus W (UserFriendlyName md +:+ "@"
                     +:+ match platform with
                         | Some pf => if String.eqb pf "" then "oth" else str_take 3 pf
                         | None => "oth"
                         end));
                mret (Redirect redirecturl)
            end
        end
  | _, _ => mret (Page (_guireturn "Missing arguments") BAD_REQUEST)
  end.

(** the metadata of a [/save] request: [(wopisrc, acctok)] out of the
    unquoted [X-EFSS-Metadata] header *)
Definition parse_meta (header : option string) : res (string * string) :=
  match header with
  | None => Raise (KeyError "X-EFSS-Metadata")
  | Some meta =>
      i ← str_index "?t=" meta;
      j ← str_index "?t=" meta;
      Ok (str_take i meta, str_drop (j + 3) meta)
  end.

(** [flask.request.args.get('close') == 'true'] *)
Definition isclose_arg (close : option string) : bool :=
  match close with
  | Some c => String.eqb c "true"
  | None => false
  end.

(** [appsave]: [header] is the unquoted [X-EFSS-Metadata] header, [close] and
    [id] the query arguments of those names. A call is one step: the read of
    the registry on line 296, which the source makes before it takes
    [WB.savecv], is not interleaved with the save thread here, and the clock
    is exact, where the source computes with floats. *)
Definition appsave (header close id : option string) : M flask_response :=
  match parse_meta header with
  | Raise (KeyError _) | Raise (ValueError _) =>
      mret (Reply (StoredResp
              (Resp (jsonify ("Malformed or missing metadata, could not save. " +:+ RECOVER_MSG))
                    INTERNAL_SERVER_ERROR)))
  | Raise e => raise e
  | Ok (wopisrc, acctok) =>
      let isclose := isclose_arg close in
      ofs ← get_openfiles;
      donotify ←
        (if isclose then mret true
         else match ofs !! wopisrc with
              | None => mret true
              | Some r =>
                  t ← now;
                  mret (Qltb (inject_Z (lastsave r))
                             (Qminus t (inject_Z (saveinterval cfg))))
              end);
      ofs ← get_openfiles;
      match ofs !! wopisrc with
      | Some r =>
          put_openfiles
            (<[wopisrc := set_toclose (<[shorttok acctok := isclose]> (toclose r))
                                      (set_tosave true r)]> ofs)
      | None =>
          t ← now;
          put_openfiles
            (<[wopisrc := OpenFile acctok true
                                   (int_of_Q (Qminus t (inject_Z (saveinterval cfg))))
                                   {[ shorttok acctok := isclose ]} id]> ofs);;
          clear_response wopisrc
      end;;
      (if (donotify : bool) then call EvNotify (λ _, Ok tt) else mret tt);;
      srs ← get_saveresponses;
      match srs !! wopisrc with
      | Some resp => put_saveresponses (delete wopisrc srs);; mret (Reply resp)
      | None => mret (Reply (StoredResp (Resp "{}" ACCEPTED)))
      end
  end.

(** [handleexception]: what Flask answers when a handler raises *)
Definition handled (m : M flask_response) : M flask_response :=
  try_except m
    (λ _, Some (mret (Reply (StoredResp
       (Resp (jsonify ("Internal error, please contact support. " +:+ RECOVER_MSG))
             INTERNAL_SERVER_ERROR))))).

(** What [applist] hands back: the error page, or the registry that it
    serialises. *)
Inductive list_response :=
| Unauthorized (html : string) (code : Z)
| Listing (registry : gmap string openfile).

(** [applist]: [authorization] is the header of that name, [apikey] the
    query argument *)
Definition applist (authorization apikey : option string) : M list_response :=
  if negb (bool_decide (authorization = Some ("Bearer " +:+ hashsecret cfg)))
     && negb (bool_decide (apikey = Some (hashsecret cfg)))
  then mret (Unauthorized (_guireturn "Client not authorized") UNAUTHORIZED)
  else ofs ← get_openfiles; mret (Listing ofs).

(* ------------------------------------------------------------------- *)
(** *** wopibridge.py: the save thread *)
(* ------------------------------------------------------------------- *)

(** The dictionary bound to [openfile] in one iteration of the loop of
    [SaveThread.run], with a flag telling whether [WB.openfiles[wopisrc]] is
    still that dictionary: an assignment to a key of [openfile] shows in the
    registry until the entry is deleted, and only changes the orphaned
    dictionary afterwards. *)
Definition obj : Type := openfile * bool.

Definition write_obj (wopisrc : string) (f : openfile → openfile) (o : obj) : M obj :=
  if o.2 then
    ofs ← get_openfiles;
    put_openfiles (<[wopisrc := f o.1]> ofs);;
    mret (f o.1, true)
  else mret (f o.1, false).

(** [del WB.openfiles[wopisrc]] *)
Definition del_openfile (wopisrc : string) (o : obj) : M obj :=
  ofs ← get_openfiles;
  match ofs !! wopisrc with
  | Some _ => put_openfiles (delete wopisrc ofs);; mret (o.1, false)
  | None => raise (KeyError wopisrc)
  end.

(** reading [WB.unlockinterval], an attribute [WB.init] may have left unset *)
Definition get_unlockinterval : M Z :=
  match unlockinterval cfg with
  | Some n => mret n
  | None => raise AttributeError
  end.

(** the condition of the [if] of [savedirty] *)
Definition savedirty_guard (openfile : openfile) : M bool :=
  if tosave openfile then
    allclosed ← lift (_intersection (toclose openfile));
    if (allclosed : bool) then mret true
    else
      t ← now;
      mret (Qltb (inject_Z (lastsave openfile)) (Qminus t (inject_Z (saveinterval cfg))))
  else mret false.

(** lines 378-394: the lock to save under, or the orphaned record after a
    relock that failed too *)
Definition savedirty_lock (wopisrc : string) (o : obj) : M (lock + obj) :=
  try_except
    (wopilock ← getlock wopisrc (acctok o.1); mret (inl wopilock))
    (λ e, match e with
          | InvalidLock _ =>
              Some
                (try_except
                   (allclosed ← lift (_intersection (toclose o.1));
                    wopilock ← call (EvRelock wopisrc (acctok o.1) (docid o.1) allclosed)
                                    (wopi_relock W);
                    store_response wopisrc (StoredLock wopilock);;
                    mret (inl wopilock))
                   (λ e, match e with
                         | InvalidLock ile =>
                             Some
                               (store_response wopisrc
                                  (StoredResp (Resp (jsonify ile) INTERNAL_SERVER_ERROR));;
                                t ← now;
                                o ← write_obj wopisrc (set_lastsave (int_of_Q t)) o;
                                o ← write_obj wopisrc (set_tosave false) o;
                                o ← write_obj wopisrc
                                      (set_toclose {[ "invalid-lock" := true ]}) o;
                                mret (inr o))
                         | _ => None
                         end))
          | _ => None
          end).

(** lines 395-405: dispatch to the adapter named by the lock *)
Definition savedirty_dispatch (wopisrc : string) (o : obj) (wopilock : lock) : M obj :=
  match BRIDGE_EXT_PLUGINS !! lk_app wopilock with
  | None =>
      store_response wopisrc
        (StoredResp (Resp (jsonify "Unrecognized app for this file") BAD_REQUEST));;
      mret o
  | Some app =>
      p ← use_plugin (plugins cfg app);
      allclosed ← lift (_intersection (toclose o.1));
      call (EvSaveToStorage app wopisrc allclosed) (λ _, Ok tt);;
      resp ← savetostorage p wopisrc (acctok o.1) allclosed wopilock;
      store_response wopisrc (StoredResp resp);;
      t ← now;
      o ← write_obj wopisrc (set_lastsave (int_of_Q t)) o;
      write_obj wopisrc (set_tosave false) o
  end.

(** [SaveThread.savedirty] *)
Definition savedirty (wopisrc : string) (o : obj) : M (obj * option lock) :=
  dirty ← savedirty_guard o.1;
  if (dirty : bool) then
    r ← savedirty_lock wopisrc o;
    match r with
    | inr o => mret (o, None)
    | inl wopilock =>
        o ← savedirty_dispatch wopisrc o wopilock;
        mret (o, Some wopilock)
    end
  else mret (o, None).

(** [wopi.getlock(...) if not wopilock else wopilock] *)
Definition lock_or_getlock (wopisrc : string) (o : obj) (wopilock : option lock)
    : M lock :=
  match wopilock with
  | None => getlock wopisrc (acctok o.1)
  | Some l => mret l
  end.

(** [SaveThread.closewhenidle] *)
Definition closewhenidle (wopisrc : string) (o : obj) (wopilock : option lock)
    : M (obj * option lock) :=
  t ← now;
  if lastsave o.1 <? int_of_Q t - 4 * saveinterval cfg then
    try_except
      (l ← lock_or_getlock wopisrc o wopilock;
       o ← write_obj wopisrc (set_toclose ((λ _, true) <$> toclose o.1)) o;
       mret (o, Some l))
      (λ e, match e with
            | InvalidLock _ => Some (o ← del_openfile wopisrc o; mret (o, wopilock))
            | _ => None
            end)
  else mret (o, wopilock).

(** the close-map of line 440: keys of the lock, a participant is closed when
    either side says so *)
Definition reconcile (mine theirs : gmap string bool) : gmap string bool :=
  map_imap (λ t v, Some (v || default false (mine !! t))) theirs.

(** [SaveThread.cleanup] *)
Definition cleanup (wopisrc : string) (o : obj) (wopilock : option lock) : M unit :=
  anyclosed ← lift (_union (toclose o.1));
  if (anyclosed : bool) && negb (tosave o.1) then
    r ← try_except
          (l ← lock_or_getlock wopisrc o wopilock; mret (Some l))
          (λ e, match e with
                | InvalidLock _ =>
                    Some
                      (t ← now;
                       ui ← get_unlockinterval;
                       (if Qltb (inject_Z (lastsave o.1)) (Qminus t (inject_Z ui))
                        then del_openfile wopisrc o;; mret tt
                        else mret tt);;
                       mret None)
                | _ => None
                end);
    match r with
    | None => mret tt
    | Some wopilock =>
        o ← write_obj wopisrc
              (set_toclose (reconcile (toclose o.1) (lk_toclose wopilock))) o;
        allclosed ← lift (_intersection (toclose o.1));
        if (allclosed : bool) then
          t ← now;
          ui ← get_unlockinterval;
          if lastsave o.1 <? int_of_Q t - ui then
            call (EvWopi wopisrc (acctok o.1) (Unlock wopilock)) (wopi_request W);;
            del_openfile wopisrc o;;
            mret tt
          else mret tt
        else if negb (bool_decide (toclose o.1 = lk_toclose wopilock)) then
          call (EvRefreshLock wopisrc (acctok o.1) wopilock (WithToclose (toclose o.1)))
               (wopi_refreshlock W);;
          mret tt
        else mret tt
    end
  else mret tt.

(** How the body of the loop of [SaveThread.run] ends for one document. *)
Inductive outcome :=
| Completed
| Caught (e : exn).

(** lines 363-370: the three phases under the catch-all handler *)
Definition process_doc (wopisrc : string) (openfile : openfile) : M outcome :=
  try_except
    ('(o, wopilock) ← savedirty wopisrc (openfile, true);
     '(o, wopilock) ← closewhenidle wopisrc o wopilock;
     cleanup wopisrc o wopilock;;
     mret Completed)
    (λ e, Some (mret (Caught e))).

Fixpoint process_docs (l : list (string * openfile)) : M (list outcome) :=
  match l with
  | [] => mret []
  | (wopisrc, openfile) :: l' =>
      r ← process_doc wopisrc openfile;
      rs ← process_docs l';
      mret (r :: rs)
  end.

(** one round of [SaveThread.run] over the snapshot [list(WB.openfiles.items())] *)
Definition cycle : M (list outcome) :=
  ofs ← get_openfiles;
  process_docs (map_to_list ofs).

End Wopibridge.

End WithWorld.

End Bridge.

(* ===================================================================== *)
(** ** Definitions that follow the words of the specification *)
(* ===================================================================== *)

Module Spec.
Import Py Digest Bridge.

(** "the substring after the final '/'": the whole text when it has no '/' *)
Fixpoint after_last (sep : ascii) (l : list ascii) : list ascii :=
  match l with
  | [] => []
  | c :: l' =>
      if existsb (Ascii.eqb sep) l' then after_last sep l'
      else if Ascii.eqb c sep then l' else c :: l'
  end.

Definition last_path_segment (wopisrc : string) : string :=
  unchars (after_last "/" (chars wopisrc)).

(** "with any trailing padding character stripped" *)
Fixpoint rstrip_char (c : ascii) (l : list ascii) : list ascii :=
  match l with
  | [] => []
  | x :: l' =>
      match rstrip_char c l' with
      | [] => if Ascii.eqb x c then [] else [x]
      | r => x :: r
      end
  end.

(** the characters of a URL-safe identifier: letters, digits, '-' and '_' *)
Definition urlsafe_char (c : ascii) : bool :=
  let n := Z.of_nat (nat_of_ascii c) in
  in_range 65 90 n || in_range 97 122 n || in_range 48 57 n || (n =? 45) || (n =? 95).

(** [genDocId] as section 4.7 defines it *)
Definition genDocId (secret wopisrc : string) : string :=
  unchars (rstrip_char "="
             (urlsafe_b64encode
                (hmac_sha1 (encode secret) (encode (last_path_segment wopisrc))))).

End Spec.

(* ===================================================================== *)
(** ** Reasoning about effectful code *)
(* ===================================================================== *)

Module Logic.
Import Py Digest Bridge.

(** [wp m Q E st]: run from [st], [m] either returns a value and a state that
    satisfy [Q], or raises an exception in a state that satisfy [E]. *)
Definition wp {A} (m : M A) (Q : A → state → Prop) (E : exn → state → Prop)
    (st : state) : Prop :=
  match m st with
  | (Ok a, st') => Q a st'
  | (Raise e, st') => E e st'
  end.

(** the state after one more call to the outside *)
Definition record_call (ev : event) (st : state) : state :=
  State (openfiles st) (saveresponses st) (ev :: trace st).

(** [tr] is [tr0] after some calls that all satisfy [P] *)
Definition trace_extends (P : event → Prop) (tr0 tr : list event) : Prop :=
  ∃ evs, tr = evs ++ tr0 ∧ Forall P evs.

Definition extends (P : event → Prop) (st st' : state) : Prop :=
  trace_extends P (trace st) (trace st').

(** the calls made between [st] and [st'], newest first *)
Definition calls_between (st st' : state) : list event :=
  take (length (trace st') - length (trace st)) (trace st').

(** how many of them satisfy [p] *)
Definition count_calls (p : event → bool) (st st' : state) : nat :=
  length (filter (λ ev, p ev = true) (calls_between st st')).

(** *** The registry invariant *)

(** every record of the registry has a non-empty close-map *)
Definition toclose_nonempty (reg : gmap string openfile) : Prop :=
  map_Forall (λ _ r, toclose r ≠ ∅) reg.

(** the locks that the WOPI client hands over carry a non-empty close-map *)
Definition locks_nonempty (W : world) : Prop :=
  ∀ n l, (wopi_getlock W n = Ok l ∨ wopi_relock W n = Ok l ∨ wopi_refreshlock W n = Ok l)
         → lk_toclose l ≠ ∅.

(** an adapter never empties a close-map of the registry, and the locks it
    builds carry a non-empty close-map *)
Definition plugin_keeps (p : plugin) : Prop :=
  (∀ md wopisrc acctok docid st,
      toclose_nonempty (openfiles st) →
      wp (loadfromstorage p md wopisrc acctok docid)
         (λ l st', toclose_nonempty (openfiles st') ∧ lk_toclose l ≠ ∅)
         (λ _ st', toclose_nonempty (openfiles st')) st)
  ∧ (∀ wopisrc acctok isclose l st,
      toclose_nonempty (openfiles st) →
      wp (savetostorage p wopisrc acctok isclose l)
         (λ _ st', toclose_nonempty (openfiles st'))
         (λ _ st', toclose_nonempty (openfiles st')) st)
  ∧ (∀ rw wopisrc acctok l name st,
      toclose_nonempty (openfiles st) →
      wp (getredirecturl p rw wopisrc acctok l name)
         (λ _ st', toclose_nonempty (openfiles st'))
         (λ _ st', toclose_nonempty (openfiles st')) st).

Definition plugins_keep (cfg : config) : Prop :=
  ∀ name p, plugins cfg name = Some p → plugin_keeps p.

(** The states the bridge can be in: it starts with an empty registry, and
    moves by a call of [/open], a call of [/save] or a round of the save
    thread, each taken as one step. *)
Inductive reachable (W : world) (cfg : config) : state → Prop :=
| reach_start tr :
    reachable W cfg (State ∅ ∅ tr)
| reach_open st a b c :
    reachable W cfg st → reachable W cfg (appopen W cfg a b c st).2
| reach_save st a b c :
    reachable W cfg st → reachable W cfg (appsave W cfg a b c st).2
| reach_cycle st :
    reachable W cfg st → reachable W cfg (cycle W cfg st).2.

(** *** Sequences of [/save] calls *)

Record save_request := SaveRequest {
  sr_header : option string;
  sr_close : option string;
  sr_id : option string
}.

Fixpoint appsaves (W : world) (cfg : config) (l : list save_request) : M unit :=
  match l with
  | [] => mret tt
  | s :: l' =>
      appsave W cfg (sr_header s) (sr_close s) (sr_id s);;
      appsaves W cfg l'
  end.

(** the close signal of one request, as it reaches the close-map of the
    record of [wopisrc]: the entry of the short token takes the close flag *)
Definition close_signal (wopisrc : string) (s : save_request) (m : gmap string bool)
    : gmap string bool :=
  match parse_meta (sr_header s) with
  | Ok (w, a) =>
      if String.eqb w wopisrc then <[shorttok a := isclose_arg (sr_close s)]> m else m
  | Raise _ => m
  end.

Fixpoint close_signals (wopisrc : string) (l : list save_request) (m : gmap string bool)
    : gmap string bool :=
  match l with
  | [] => m
  | s :: l' => close_signals wopisrc l' (close_signal wopisrc s m)
  end.

(** the request does not come from the participant [tok] of [wopisrc] *)
Definition from_other (wopisrc tok : string) (s : save_request) : Prop :=
  match parse_meta (sr_header s) with
  | Ok (w, a) => w = wopisrc → shorttok a ≠ tok
  | Raise _ => True
  end.

(** *** Kinds of calls *)

Definition is_relock (ev : event) : bool :=
  match ev with
  | EvRelock _ _ _ _ => true
  | _ => false
  end.

(** the calls that save a document: the dispatch to an adapter, its traffic
    with the app, PutFile and PutRelativeFile *)
Definition is_save_work (ev : event) : bool :=
  match ev with
  | EvSaveToStorage _ _ _ | EvApp _ | EvSaveAs _ _ _ _ _ => true
  | EvWopi _ _ (PutFile _ _) => true
  | _ => false
  end.

(** the calls of the close-when-idle and cleanup phases *)
Definition is_housekeeping (ev : event) : Prop :=
  is_relock ev = false ∧ is_save_work ev = false.

(** [tr] is [tr0] after some calls, at most [n] of them relocks *)
Definition relocks_upto (n : nat) (tr0 tr : list event) : Prop :=
  ∃ evs, tr = evs ++ tr0 ∧ (length (filter (λ ev, is_relock ev = true) evs) ≤ n)%nat.

(** the adapters never relock a file while they save it *)
Definition plugins_never_relock (cfg : config) : Prop :=
  ∀ name p, plugins cfg name = Some p →
  ∀ wopisrc acctok isclose l st,
    wp (savetostorage p wopisrc acctok isclose l)
       (λ _ st', extends (λ ev, is_relock ev = false) st st')
       (λ _ st', extends (λ ev, is_relock ev = false) st st') st.

(** *** What a call leaves alone *)

(** the registry and the save-response map are those of [st] *)
Definition untouched (st st' : state) : Prop :=
  openfiles st' = openfiles st ∧ saveresponses st' = saveresponses st.

(** an adapter works on the app and on storage only *)
Definition plugin_frames (p : plugin) : Prop :=
  (∀ md wopisrc acctok docid st,
      wp (loadfromstorage p md wopisrc acctok docid)
         (λ _ st', untouched st st') (λ _ st', untouched st st') st)
  ∧ (∀ wopisrc acctok isclose l st,
      wp (savetostorage p wopisrc acctok isclose l)
         (λ _ st', untouched st st') (λ _ st', untouched st st') st)
  ∧ (∀ rw wopisrc acctok l name st,
      wp (getredirecturl p rw wopisrc acctok l name)
         (λ _ st', untouched st st') (λ _ st', untouched st st') st).

Definition plugins_frame (cfg : config) : Prop :=
  ∀ name p, plugins cfg name = Some p → plugin_frames p.

(** the record and the response of every document but [wopisrc] are those
    of [st] *)
Definition others_untouched (wopisrc : string) (st st' : state) : Prop :=
  ∀ w, w ≠ wopisrc →
    openfiles st' !! w = openfiles st !! w
    ∧ saveresponses st' !! w = saveresponses st !! w.

(** *** More kinds of calls *)

Definition clock_or_notify (ev : event) : Prop := ev = EvTime ∨ ev = EvNotify.

Definition is_unlock (ev : event) : bool :=
  match ev with
  | EvWopi _ _ (Unlock _) => true
  | _ => false
  end.

Definition is_saveas (ev : event) : bool :=
  match ev with
  | EvSaveAs _ _ _ _ _ => true
  | _ => false
  end.

(** the calls that write the document to storage *)
Definition is_storage_write (ev : event) : bool :=
  match ev with
  | EvWopi _ _ (PutFile _ _) | EvSaveAs _ _ _ _ _ => true
  | _ => false
  end.

(** the calls that reach storage through the WOPI client *)
Definition is_storage_call (ev : event) : bool :=
  match ev with
  | EvWopi _ _ _ | EvGetLock _ _ | EvRelock _ _ _ _ | EvRefreshLock _ _ _ _
  | EvSaveAs _ _ _ _ _ => true
  | _ => false
  end.

(** [tr] is [tr0] after some calls, at most [n] of them of the kind [p] *)
Definition calls_upto (p : event → bool) (n : nat) (tr0 tr : list event) : Prop :=
  ∃ evs, tr = evs ++ tr0 ∧ (length (filter (λ ev, p ev = true) evs) ≤ n)%nat.

(** lines 131-138 of [loadfromstorage]: the document that is hashed and
    pushed to the app, out of the bytes [mdfile] that GetFile returned; for a
    bundle it is what [_unzipattachments] returns *)
Definition unbundled (W : world) (cc : codimd_config) (md : filemd) (mdfile : bytes)
    : M (option bytes) :=
  if String.eqb (splitext (BaseFileName md)).2 ".zmd" then _unzipattachments W cc mdfile
  else mret (Some mdfile).

(** the handler answered with a redirect *)
Definition redirected (r : res flask_response) : bool :=
  match r with
  | Ok (Redirect _) => true
  | _ => false
  end.

End Logic.

(* ===================================================================== *)
(** ** Concrete worlds and states *)
(* ===================================================================== *)

Module Scenario.
Import Py Digest Bridge Logic.

Definition plain_response (code : Z) (doc : bytes) : http_response :=
  HttpResponse code doc None None None.

Definition redirect_response (path : string) : http_response :=
  HttpResponse FOUND [] None (Some path) None.

(** A world in which storage holds no lock, every request is answered
    [200] with an empty body, and the clock stands at [now]. *)
Definition still_world (now : Z) : world :=
  {| time_time := λ _, inject_Z now;
     random_raw := λ _, O;
     wopi_request := λ _, Ok (plain_response OK []);
     wopi_getlock := λ _, Raise (InvalidLock "404");
     wopi_relock := λ _, Raise (InvalidLock "404");
     wopi_refreshlock := λ _, Raise (InvalidLock "404");
     wopi_saveas := λ _, Ok (Resp "saved" OK);
     wopi_handleputfile := λ _ _ _, None;
     wopi_jsonify := λ msg, "{message: " +:+ msg +:+ "}";
     requests := λ _, Ok (plain_response OK []);
     zip_infolist := λ _, Ok [];
     zip_bytes := λ _, [];
     upload_re_findall := λ _, [];
     quote_plus := λ s, s |}.

Definition codimd_here : codimd_config :=
  CodimdConfig "http://codimd:3000" "https://codimd.example.org" "key".

Definition empty_state : state := State ∅ ∅ [].

(** the configuration with the defaults of [WB.init] and the CodiMD adapter
    as the only plugin that could be initialised *)
Definition plain_config (W : world) : config :=
  Config 200 (Some 90) "secret"
         (λ name, if String.eqb name "codimd" then Some (codimd W codimd_here) else None).

(** *** One document, opened by one user *)

Definition file1 : string := "https://storage/wopi/files/1".
Definition user1 : string := "token-of-user-1".

Definition one_open : state :=
  State {[ file1 := OpenFile user1 false 800 {[ user1 := false ]} (Some "/docid") ]} ∅ [].

Definition save_close : save_request :=
  SaveRequest (Some (file1 +:+ "?t=" +:+ user1)) (Some "true") (Some "/docid").

Definition save_noclose : save_request :=
  SaveRequest (Some (file1 +:+ "?t=" +:+ user1)) (Some "false") (Some "/docid").

(** the entry of [tok] in the close-map of the record of [wopisrc] *)
Definition close_entry (st : state) (wopisrc tok : string) : option bool :=
  r ← openfiles st !! wopisrc; toclose r !! tok.

(** *** The app still holds the text that was loaded *)

Definition abc : bytes := encode "abc".

Definition unchanged_world : world :=
  {| time_time := λ _, inject_Z 1000;
     random_raw := λ _, O;
     wopi_request := λ _, Ok (plain_response OK []);
     wopi_getlock := λ _, Raise (InvalidLock "404");
     wopi_relock := λ _, Raise (InvalidLock "404");
     wopi_refreshlock := λ _, Raise (InvalidLock "404");
     wopi_saveas := λ _, Ok (Resp "saved" OK);
     wopi_handleputfile := λ _ _ _, None;
     wopi_jsonify := λ msg, msg;
     requests := λ _, Ok (plain_response OK abc);
     zip_infolist := λ _, Ok [];
     zip_bytes := λ _, [];
     upload_re_findall := λ _, [];
     quote_plus := λ s, s |}.

Definition unchanged_lock : lock :=
  WopiLock "/docid" "notes.md" "a9993e364706816aba3e25717850c26c9cd0d89d" "md"
           {[ "T1" := true ]}.

(** the only participant has closed and a save is pending *)
Definition closing : openfile := OpenFile user1 true 800 {[ user1 := true ]} (Some "/docid").

Definition one_closing : state := State {[ file1 := closing ]} ∅ [].

(** *** The lock was lost and the text of the app cannot be decoded *)

Definition pending : openfile := OpenFile user1 true 0 {[ user1 := false ]} (Some "/docid").

Definition one_pending : state := State {[ file1 := pending ]} ∅ [].

Definition relock_lock : lock :=
  WopiLock "/docid" "notes.md" "dirty" "md" {[ user1 := false ]}.

(** a second document, opened by another user, whose last save was answered *)
Definition file2 : string := "https://storage/wopi/files/2".
Definition user2 : string := "token-of-user-2".

Definition idle2 : openfile := OpenFile user2 false 900 {[ user2 := false ]} (Some "/docid2").

Definition saved2 : stored := StoredResp (Resp "saved" OK).

Definition two_documents : state :=
  State {[ file1 := pending; file2 := idle2 ]} {[ file2 := saved2 ]} [].

(** storage has lost the lock and grants a new one; the app serves a text
    that is not UTF-8 *)
Definition relock_world : world :=
  {| time_time := λ _, inject_Z 1000;
     random_raw := λ _, O;
     wopi_request := λ _, Ok (plain_response OK []);
     wopi_getlock := λ _, Raise (InvalidLock "404");
     wopi_relock := λ _, Ok relock_lock;
     wopi_refreshlock := λ _, Ok relock_lock;
     wopi_saveas := λ _, Ok (Resp "saved" OK);
     wopi_handleputfile := λ _ _ _, None;
     wopi_jsonify := λ msg, msg;
     requests := λ _, Ok (plain_response OK [xff]%byte);
     zip_infolist := λ _, Ok [];
     zip_bytes := λ _, [];
     upload_re_findall := λ _, [];
     quote_plus := λ s, s |}.

(** *** Storage holds a lock whose close-map is empty *)

Definition hollow_lock : lock :=
  WopiLock "/docid" "notes.md" "a9993e364706816aba3e25717850c26c9cd0d89d" "md" ∅.

(** the lock of the file names no participant; the app holds the text
    whose digest the lock carries *)
Definition hollow_lock_world : world :=
  {| time_time := λ _, inject_Z 1000;
     random_raw := λ _, O;
     wopi_request := λ _, Ok (plain_response OK []);
     wopi_getlock := λ _, Ok hollow_lock;
     wopi_relock := λ _, Raise (InvalidLock "404");
     wopi_refreshlock := λ _, Raise (InvalidLock "404");
     wopi_saveas := λ _, Ok (Resp "saved" OK);
     wopi_handleputfile := λ _ _ _, None;
     wopi_jsonify := λ msg, msg;
     requests := λ _, Ok (plain_response OK abc);
     zip_infolist := λ _, Ok [];
     zip_bytes := λ _, [];
     upload_re_findall := λ _, [];
     quote_plus := λ s, s |}.

(** a record whose close-map is empty, with a save pending *)
Definition hollow : openfile := OpenFile user1 true 800 ∅ (Some "/docid").

Definition one_hollow : state := State {[ file1 := hollow ]} ∅ [].

(** *** A bundle whose attachment collides with an upload of the app *)

Definition bundle_doc : bytes := encode "![picture](/uploads/img.png)".

Definition bundle : list zipentry :=
  [ZipEntry "doc.md" 28 bundle_doc; ZipEntry "img.png" 3 [x01; x02; x03]%byte].

(** the app has an [img.png] of 5 bytes; the random source gives its
    largest outcome *)
Definition collision_world : world :=
  {| time_time := λ _, inject_Z 1000;
     random_raw := λ _, 26%nat;
     wopi_request := λ _, Ok (plain_response OK []);
     wopi_getlock := λ _, Raise (InvalidLock "404");
     wopi_relock := λ _, Raise (InvalidLock "404");
     wopi_refreshlock := λ _, Raise (InvalidLock "404");
     wopi_saveas := λ _, Ok (Resp "saved" OK);
     wopi_handleputfile := λ _ _ _, None;
     wopi_jsonify := λ msg, msg;
     requests := λ _, Ok (HttpResponse OK [] (Some "5") None None);
     zip_infolist := λ _, Ok bundle;
     zip_bytes := λ _, [];
     upload_re_findall := λ _, [];
     quote_plus := λ s, s |}.

(** *** A document that stops being UTF-8 after its 16th byte *)

Definition notes_md : filemd := FileMd "notes.md" "/home/ann/notes.md" false "Ann".

Definition late_invalid_doc : bytes := encode "0123456789abcdef" ++ [xff]%byte.

(** storage serves the document, the app stores it under [AbCdEf] *)
Definition late_invalid_world : world :=
  {| time_time := λ _, inject_Z 1000;
     random_raw := λ _, O;
     wopi_request := λ _, Ok (plain_response OK late_invalid_doc);
     wopi_getlock := λ _, Raise (InvalidLock "404");
     wopi_relock := λ _, Raise (InvalidLock "404");
     wopi_refreshlock := λ _, Raise (InvalidLock "404");
     wopi_saveas := λ _, Ok (Resp "saved" OK);
     wopi_handleputfile := λ _ _ _, None;
     wopi_jsonify := λ msg, msg;
     requests := λ _, Ok (redirect_response "/AbCdEf");
     zip_infolist := λ _, Ok [];
     zip_bytes := λ _, [];
     upload_re_findall := λ _, [];
     quote_plus := λ s, s |}.

(** the same document as the only entry of a bundle: storage serves the
    archive, the app stores the document under [AbCdEf] *)
Definition late_invalid_archive : bytes := [x50; x4b; x03; x04]%byte.

Definition late_invalid_bundle_world : world :=
  {| time_time := λ _, inject_Z 1000;
     random_raw := λ _, O;
     wopi_request := λ _, Ok (plain_response OK late_invalid_archive);
     wopi_getlock := λ _, Raise (InvalidLock "404");
     wopi_relock := λ _, Raise (InvalidLock "404");
     wopi_refreshlock := λ _, Raise (InvalidLock "404");
     wopi_saveas := λ _, Ok (Resp "saved" OK);
     wopi_handleputfile := λ _ _ _, None;
     wopi_jsonify := λ msg, msg;
     requests := λ _, Ok (redirect_response "/AbCdEf");
     zip_infolist := λ _, Ok [ZipEntry "notes.md" 17 late_invalid_doc];
     zip_bytes := λ _, [];
     upload_re_findall := λ _, [];
     quote_plus := λ s, s |}.

(** *** Storage that serves the metadata of one file *)

Definition metadata_response (md : filemd) : http_response :=
  HttpResponse OK [] None None (Some md).

(** storage answers every request [200] with the metadata [md] and an empty
    body, and holds no lock; the app answers [200]; the clock stands at
    1000 *)
Definition serving_world (md : filemd) : world :=
  {| time_time := λ _, inject_Z 1000;
     random_raw := λ _, O;
     wopi_request := λ _, Ok (metadata_response md);
     wopi_getlock := λ _, Raise (InvalidLock "404");
     wopi_relock := λ _, Raise (InvalidLock "404");
     wopi_refreshlock := λ _, Raise (InvalidLock "404");
     wopi_saveas := λ _, Ok (Resp "saved" OK);
     wopi_handleputfile := λ _ _ _, None;
     wopi_jsonify := λ msg, msg;
     requests := λ _, Ok (plain_response OK []);
     zip_infolist := λ _, Ok [];
     zip_bytes := λ _, [];
     upload_re_findall := λ _, [];
     quote_plus := λ s, s |}.

(** the same storage, with an app that cannot be reached *)
Definition app_down_world (md : filemd) : world :=
  {| time_time := λ _, inject_Z 1000;
     random_raw := λ _, O;
     wopi_request := λ _, Ok (metadata_response md);
     wopi_getlock := λ _, Raise (InvalidLock "404");
     wopi_relock := λ _, Raise (InvalidLock "404");
     wopi_refreshlock := λ _, Raise (InvalidLock "404");
     wopi_saveas := λ _, Ok (Resp "saved" OK);
     wopi_handleputfile := λ _ _ _, None;
     wopi_jsonify := λ msg, msg;
     requests := λ _, Raise ConnectionError;
     zip_infolist := λ _, Ok [];
     zip_bytes := λ _, [];
     upload_re_findall := λ _, [];
     quote_plus := λ s, s |}.

Definition notes_rw : filemd := FileMd "notes.md" "/home/ann/notes.md" true "Ann".

Definition bundle_md : filemd := FileMd "notes.zmd" "/home/ann/notes.zmd" true "Ann".

Definition pad_epd : filemd := FileMd "pad.epd" "/home/ann/pad.epd" true "Ann".

End Scenario.

(* ===================================================================== *)
(** ** Properties of the built-ins and of the digests *)
(* ===================================================================== *)

Import Py Digest Bridge Spec Logic.

(** the digests and the text helpers are computed on closed inputs only *)
Arguments sha1 : simpl never.
Arguments sha1_hexdigest : simpl never.
Arguments hmac_sha1 : simpl never.
Arguments urlsafe_b64encode : simpl never.
Arguments _gendocid : simpl never.
Arguments splitext : simpl never.
Arguments replace : simpl never.
Arguments shorttok : simpl never.
Arguments split_last : simpl never.
Arguments decode : simpl never.
Arguments int_of_string : simpl never.
Arguments String.append : simpl never.

Lemma unchars_chars (s : string) : unchars (chars s) = s.
Proof. apply string_of_list_ascii_of_string. Qed.

Lemma chars_unchars (l : list ascii) : chars (unchars l) = l.
Proof. apply list_ascii_of_string_of_list_ascii. Qed.

Lemma split_chars_nonempty sep l : split_chars sep l ≠ [].
Proof.
  destruct l as [|c l]; simpl; [done|].
  destruct (Ascii.eqb c sep); [done|].
  by destruct (split_chars sep l).
Qed.

Lemma split_chars_no_sep sep l :
  existsb (Ascii.eqb sep) l = false → split_chars sep l = [l].
Proof.
  induction l as [|c l IH]; simpl; [done|].
  intros [Hc Hl]%orb_false_elim.
  rewrite Ascii.eqb_sym, Hc, IH by done. done.
Qed.

Lemma split_chars_with_sep sep l :
  existsb (Ascii.eqb sep) l = true → ∃ w1 w2 ws, split_chars sep l = w1 :: w2 :: ws.
Proof.
  induction l as [|c l IH]; simpl; [done|].
  rewrite (Ascii.eqb_sym sep c).
  destruct (Ascii.eqb c sep) eqn:Hc; simpl.
  - intros _. destruct (split_chars sep l) as [|w ws] eqn:Hs.
    + by apply split_chars_nonempty in Hs.
    + by exists [], w, ws.
  - intros (w1 & w2 & ws & ->)%IH. by exists (c :: w1), w2, ws.
Qed.

(** [s.split(sep)[-1]] is the text after the last separator. *)
Lemma last_split_chars sep l :
  List.last (split_chars sep l) [] = after_last sep l.
Proof.
  induction l as [|c l IH]; [done|].
  cbn [split_chars after_last].
  destruct (existsb (Ascii.eqb sep) l) eqn:Hl.
  - destruct (split_chars_with_sep _ _ Hl) as (w1 & w2 & ws & Hs).
    rewrite <- IH, Hs. by destruct (Ascii.eqb c sep).
  - rewrite (split_chars_no_sep _ _ Hl). by destruct (Ascii.eqb c sep).
Qed.

Lemma last_fmap {A B} (f : A → B) (l : list A) (d : A) :
  List.last (f <$> l) (f d) = f (List.last l d).
Proof.
  induction l as [|x [|y l] IH]; simpl; done.
Qed.

Lemma split_last_segment (s : string) : split_last "/" s = last_path_segment s.
Proof.
  unfold split_last, split, last_path_segment.
  rewrite <- last_split_chars.
  change "" with (unchars []). apply last_fmap.
Qed.

Lemma length_be_bytes n x : length (be_bytes n x) = n.
Proof.
  revert x. induction n as [|n IH]; intros x; simpl; [done|].
  rewrite length_app, IH. simpl. lia.
Qed.

Lemma length_sha1_Z msg : length (sha1_Z msg) = 20%nat.
Proof. unfold sha1_Z. rewrite !length_app, !length_be_bytes. done. Qed.

Lemma length_hmac_sha1 key msg : length (hmac_sha1 key msg) = 20%nat.
Proof. unfold hmac_sha1, hmac_sha1_Z. rewrite length_fmap. apply length_sha1_Z. Qed.

(** linear arithmetic with division and remainder by constants *)
Ltac div_mod_lia := Z.to_euclidean_division_equations; lia.

Lemma byte_to_Z_range b : 0 ≤ byte_to_Z b < 256.
Proof.
  unfold byte_to_Z. pose proof (Byte.to_N_bounded b). lia.
Qed.

Lemma b64url_char_safe n : 0 ≤ n < 64 → urlsafe_char (b64url_char n) = true.
Proof.
  intros Hn.
  assert (Hall : forallb (λ k, urlsafe_char (b64url_char (Z.of_nat k))) (seq 0 64) = true)
    by (vm_compute; reflexivity).
  rewrite forallb_forall in Hall.
  specialize (Hall (Z.to_nat n)). rewrite Z2Nat.id in Hall by lia.
  apply Hall, in_seq. lia.
Qed.

Lemma urlsafe_char_not_pad c : urlsafe_char c = true → Ascii.eqb c "=" = false.
Proof.
  intros Hc. destruct (Ascii.eqb c "=") eqn:He; [|done].
  apply Ascii.eqb_eq in He. subst c. vm_compute in Hc. done.
Qed.

Lemma rstrip_char_safe l :
  Forall (λ c, urlsafe_char c = true) l → rstrip_char "=" l = l.
Proof.
  induction 1 as [|c l Hc _ IH]; simpl; [done|].
  rewrite IH. destruct l; [|done].
  by rewrite (urlsafe_char_not_pad c Hc).
Qed.

Lemma rstrip_char_pad l :
  Forall (λ c, urlsafe_char c = true) l → rstrip_char "=" (l ++ ["="%char]) = l.
Proof.
  induction 1 as [|c l Hc Hl IH]; [done|].
  simpl. rewrite IH. destruct l as [|c' l]; [|done].
  by rewrite (urlsafe_char_not_pad c Hc).
Qed.

(** The encoding of a 20-byte digest: 27 characters of the URL-safe alphabet
    followed by a single padding character. *)
Lemma b64url_digest (l : list Z) :
  length l = 20%nat → Forall (λ z, 0 ≤ z < 256) l →
  ∃ cs, b64url_Z l = cs ++ ["="%char] ∧ length cs = 27%nat
        ∧ Forall (λ c, urlsafe_char c = true) cs.
Proof.
  intros Hlen Hall.
  do 20 (destruct l as [|? l]; [discriminate|]).
  destruct l; [|discriminate].
  repeat match goal with
         | H : Forall _ (_ :: _) |- _ => apply Forall_cons_1 in H; destruct H as [? H]
         end.
  cbn [b64url_Z].
  eexists (_ :: _ :: _ :: _ :: _ :: _ :: _ :: _ :: _ :: _ :: _ :: _ :: _ :: _
             :: _ :: _ :: _ :: _ :: _ :: _ :: _ :: _ :: _ :: _ :: _ :: _ :: [_]).
  split; [reflexivity|]. split; [reflexivity|].
  repeat constructor; apply b64url_char_safe; div_mod_lia.
Qed.

Lemma drop_last_snoc {A} (l : list A) (x : A) : drop_last (l ++ [x]) = l.
Proof.
  unfold drop_last. rewrite length_app. simpl.
  replace (length l + 1 - 1)%nat with (length l) by lia.
  by rewrite take_app_length.
Qed.

(** The digest under the base64 encoding of [_gendocid] is 27 URL-safe
    characters and one padding character. *)
Lemma b64url_hmac key msg :
  ∃ cs, urlsafe_b64encode (hmac_sha1 key msg) = cs ++ ["="%char]
        ∧ length cs = 27%nat ∧ Forall (λ c, urlsafe_char c = true) cs.
Proof.
  unfold urlsafe_b64encode. apply b64url_digest.
  - rewrite length_fmap. apply length_hmac_sha1.
  - apply Forall_fmap, Forall_forall. intros b _. apply byte_to_Z_range.
Qed.

(** The code of [_gendocid] computes the identifier of section 4.7. *)
Lemma gendocid_refines secret wopisrc :
  _gendocid secret wopisrc = genDocId secret wopisrc.
Proof.
  unfold _gendocid, genDocId. rewrite split_last_segment.
  destruct (b64url_hmac (encode secret) (encode (last_path_segment wopisrc)))
    as (cs & -> & _ & Hcs).
  by rewrite drop_last_snoc, rstrip_char_pad.
Qed.

(** ** Configuration *)

Lemma init_intervals_unlock_unset env n :
  env !! "APP_UNLOCK_INTERVAL" = None →
  int_of_env env "APP_SAVE_INTERVAL" = Ok n →
  init_intervals env = Ok (Intervals (Some n) (Some 90)).
Proof.
  intros Hu Hs. unfold init_intervals. rewrite Hs.
  unfold int_of_env at 1. by rewrite Hu.
Qed.

(** Whenever [APP_UNLOCK_INTERVAL] holds an integer, it lands in the save
    interval and the unlock interval stays unassigned. *)
Lemma init_intervals_unlock_set env s n :
  env !! "APP_UNLOCK_INTERVAL" = Some s →
  int_of_string s = Some n →
  env !! "APP_SAVE_INTERVAL" = None →
  init_intervals env = Ok (Intervals (Some n) None).
Proof.
  intros Hu Hn Hs. unfold init_intervals, int_of_env. by rewrite Hs, Hu, Hn.
Qed.

(** C1 (the code departs from the claim): with [APP_UNLOCK_INTERVAL=30] and
    no [APP_SAVE_INTERVAL], [WB.init] stores 30 in the save interval, which
    [APP_SAVE_INTERVAL] alone should govern (default 200), and leaves the
    unlock interval unassigned instead of setting it to 30. *)
Theorem init_unlock_interval_overwrites_saveinterval :
  init_intervals {[ "APP_UNLOCK_INTERVAL" := "30" ]}
  = Ok (Intervals (Some 30) None).
Proof. vm_compute. reflexivity. Qed.

(** ** Doc-id generator *)

(** C8: [_gendocid] depends on its argument through the text after the final
    '/' only: two sources with the same last path segment get the same
    identifier, which is the URL-safe base64 of the HMAC-SHA1 of that segment
    under the secret with the padding stripped, made of 27 URL-safe
    characters. *)
Theorem gendocid_last_segment_only secret w1 w2 :
  last_path_segment w1 = last_path_segment w2 →
  _gendocid secret w1 = _gendocid secret w2
  ∧ _gendocid secret w1 = genDocId secret w1
  ∧ String.length (_gendocid secret w1) = 27%nat
  ∧ Forall (λ c, urlsafe_char c = true) (chars (_gendocid secret w1)).
Proof.
  intros Hseg. split; [|split].
  - unfold _gendocid. by rewrite !split_last_segment, Hseg.
  - apply gendocid_refines.
  - unfold _gendocid.
    destruct (b64url_hmac (encode secret) (encode (split_last "/" w1)))
      as (cs & -> & Hlen & Hcs).
    rewrite drop_last_snoc, chars_unchars. split; [|done].
    rewrite <- Hlen. clear. induction cs; simpl; congruence.
Qed.

Lemma gendocid_last_segment_only_witness :
  let w1 := "https://storage.example.org/wopi/files/1234" in
  let w2 := "http://10.0.0.1:8880/1234" in
  last_path_segment w1 = last_path_segment w2
  ∧ _gendocid "secret" w1 = _gendocid "secret" w2
  ∧ _gendocid "secret" w1 = genDocId "secret" w1
  ∧ String.length (_gendocid "secret" w1) = 27%nat
  ∧ Forall (λ c, urlsafe_char c = true) (chars (_gendocid "secret" w1)).
Proof.
  intros w1 w2. split; [reflexivity|].
  exact (gendocid_last_segment_only "secret" w1 w2 eq_refl).
Defined.

Example gendocid_example :
  _gendocid "secret" "https://host/wopi/files/1234" = "MHxWA2D78V7KtaeCmQUv5oowLXo".
Proof. vm_compute. reflexivity. Qed.

(* ===================================================================== *)
(** ** The effect monad *)
(* ===================================================================== *)

(** unfolding of the monadic plumbing *)
Ltac unfold_monad :=
  unfold mbind, M_bind, bind, mret, M_ret, ret, raise, lift, call, try_except,
    res_mbind, res_bind, res_ret,
    get_openfiles, get_saveresponses, put_openfiles, put_saveresponses in *.

Section WpRules.

Context {A B : Type}.
Implicit Types (Q : A → state → Prop) (E : exn → state → Prop) (st : state).

Lemma wp_ret (a : A) Q E st : Q a st → wp (mret a) Q E st.
Proof. done. Qed.

Lemma wp_raise (e : exn) Q E st : E e st → wp (raise e) Q E st.
Proof. done. Qed.

Lemma wp_bind (m : M B) (k : B → M A) Q E st :
  wp m (λ b st', wp (k b) Q E st') E st → wp (m ≫= k) Q E st.
Proof.
  cbv [wp mbind M_bind bind]. by destruct (m st) as [[b|e] st'].
Qed.

Lemma wp_lift (r : res A) Q E st :
  match r with Ok a => Q a st | Raise e => E e st end → wp (lift r) Q E st.
Proof. done. Qed.

Lemma wp_call (ev : event) (answer : nat → res A) Q E st :
  match answer (length (trace st)) with
  | Ok a => Q a (record_call ev st)
  | Raise e => E e (record_call ev st)
  end → wp (call ev answer) Q E st.
Proof. done. Qed.

Lemma wp_try (m : M A) (h : exn → option (M A)) Q E st :
  wp m Q (λ e st', match h e with
                   | Some k => wp k Q E st'
                   | None => E e st'
                   end) st
  → wp (try_except m h) Q E st.
Proof.
  cbv [wp try_except]. destruct (m st) as [[a|e] st']; [done|].
  by destruct (h e).
Qed.

Lemma wp_mono (m : M A) Q Q' E E' st :
  wp m Q E st →
  (∀ a st', Q a st' → Q' a st') → (∀ e st', E e st' → E' e st') →
  wp m Q' E' st.
Proof.
  unfold wp. destruct (m st) as [[a|e] st']; eauto.
Qed.

(** what a run that is known tells about [wp] *)
Lemma wp_run (m : M A) Q E st r st' :
  wp m Q E st → m st = (r, st') →
  match r with Ok a => Q a st' | Raise e => E e st' end.
Proof. unfold wp. intros H Hrun. by rewrite Hrun in H. Qed.

End WpRules.

Lemma wp_raises {A} (m : M A) (x : exn) st :
  wp m (λ _ _, False) (λ e _, e = x) st → (m st).1 = Raise x.
Proof. unfold wp. destruct (m st) as [[a|e] st']; [done|]. by intros ->. Qed.

(** a run that is known discharges [wp] *)
Lemma wp_of_run {A} (m : M A) Q E st a st' :
  m st = (Ok a, st') → Q a st' → wp m Q E st.
Proof. unfold wp. by intros ->. Qed.

(** [wp] pins the outcome of a run *)
Lemma wp_outcome {A} (m : M A) (r : res A) st :
  wp m (λ a _, r = Ok a) (λ e _, r = Raise e) st → (m st).1 = r.
Proof. unfold wp. by destruct (m st) as [[a|e] st']; intros ->. Qed.

Lemma wp_get_openfiles (Q : gmap string openfile → state → Prop) E st :
  Q (openfiles st) st → wp get_openfiles Q E st.
Proof. done. Qed.

Lemma wp_get_saveresponses (Q : gmap string stored → state → Prop) E st :
  Q (saveresponses st) st → wp get_saveresponses Q E st.
Proof. done. Qed.

Lemma wp_put_openfiles m (Q : unit → state → Prop) E st :
  Q tt (State m (saveresponses st) (trace st)) → wp (put_openfiles m) Q E st.
Proof. done. Qed.

Lemma wp_put_saveresponses m (Q : unit → state → Prop) E st :
  Q tt (State (openfiles st) m (trace st)) → wp (put_saveresponses m) Q E st.
Proof. done. Qed.

(** the small helpers that symbolic execution looks through *)
Create HintDb wp_defs.
#[export] Hint Unfold now randint getlock store_response clear_response use_plugin
  get_unlockinterval lock_or_getlock on_connection_error : wp_defs.

(** case analysis on the innermost scrutinee of a nest of matches *)
Ltac destruct_scrutinee x :=
  lazymatch x with
  | match ?y with _ => _ end => destruct_scrutinee y
  | _ => destruct x eqn:?
  end.

(** one step of symbolic execution *)
Ltac wp_step :=
  lazymatch goal with
  | |- wp (mbind _ _) _ _ _ => apply wp_bind
  | |- wp (mret _) _ _ _ => apply wp_ret
  | |- wp (raise _) _ _ _ => apply wp_raise
  | |- wp (lift ?r) _ _ _ => apply wp_lift
  | |- wp (call _ _) _ _ _ => apply wp_call
  | |- wp (try_except _ _) _ _ _ => apply wp_try
  | |- wp get_openfiles _ _ _ => apply wp_get_openfiles
  | |- wp get_saveresponses _ _ _ => apply wp_get_saveresponses
  | |- wp (put_openfiles _) _ _ _ => apply wp_put_openfiles
  | |- wp (put_saveresponses _) _ _ _ => apply wp_put_saveresponses
  | |- wp (match ?x with _ => _ end) _ _ _ => destruct_scrutinee x
  | |- wp (let _ := _ in _) _ _ _ => cbv zeta
  | |- match ?x with _ => _ end => destruct_scrutinee x
  | |- wp _ _ _ _ => progress autounfold with wp_defs
  end.

(** the steps that do not split the goal *)
Ltac wp_straight :=
  repeat (lazymatch goal with
          | |- wp (mbind _ _) _ _ _ => apply wp_bind
          | |- wp (mret _) _ _ _ => apply wp_ret
          | |- wp (raise _) _ _ _ => apply wp_raise
          | |- wp (lift ?r) _ _ _ => apply wp_lift
          | |- wp (call _ _) _ _ _ => apply wp_call
          | |- wp (try_except _ _) _ _ _ => apply wp_try
          | |- wp get_openfiles _ _ _ => apply wp_get_openfiles
          | |- wp get_saveresponses _ _ _ => apply wp_get_saveresponses
          | |- wp (put_openfiles _) _ _ _ => apply wp_put_openfiles
          | |- wp (put_saveresponses _) _ _ _ => apply wp_put_saveresponses
          | |- wp (let _ := _ in _) _ _ _ => cbv zeta
          | |- wp (if negb true then _ else _) _ _ _ => cbn [negb]
          | |- wp (if negb false then _ else _) _ _ _ => cbn [negb]
          | |- wp (if true then _ else _) _ _ _ => cbv iota
          | |- wp (if false then _ else _) _ _ _ => cbv iota
          | |- wp _ _ _ _ => progress autounfold with wp_defs
          end; cbn beta; cbn [openfiles saveresponses trace record_call fst snd length]).

Ltac state_simpl := cbn [openfiles saveresponses trace record_call fst snd] in *.

Ltac wp_steps := repeat (wp_step; cbn beta; state_simpl).

(** ** The CodiMD adapter *)

(** C6: on close, with a lock whose digest is not the sentinel, when the
    document fetched from the app hashes to the digest of the lock,
    [savetostorage] answers [('{}', 202)]; the download of the document is the
    only call it makes, so there is no PutFile and no refresh of the lock, and
    the registry and the save-response map are untouched. *)
Theorem savetostorage_unchanged_on_close W cc wopisrc acctok (lk : lock) st res :
  requests W (length (trace st)) = Ok res →
  status_code res = OK →
  lk_digest lk ≠ "dirty" →
  sha1_hexdigest (content res) = lk_digest lk →
  codimd_savetostorage W cc wopisrc acctok true lk st
  = (Ok (Resp "{}" ACCEPTED),
     State (openfiles st) (saveresponses st)
           (EvApp (AppGet (appurl cc +:+ lk_docid lk +:+ "/download")) :: trace st)).
Proof.
  intros Hres Hok Hdirty Hsame.
  unfold codimd_savetostorage, _fetchfromcodimd, on_connection_error.
  unfold_monad. rewrite Hres, Hok, Z.eqb_refl. cbn [negb andb].
  apply String.eqb_neq in Hdirty. rewrite Hdirty. cbn [negb].
  rewrite Hsame, String.eqb_refl. reflexivity.
Qed.

Lemma savetostorage_unchanged_on_close_witness :
  sha1_hexdigest Scenario.abc = lk_digest Scenario.unchanged_lock
  ∧ codimd_savetostorage Scenario.unchanged_world Scenario.codimd_here
      "https://storage/wopi/files/1" "T1" true Scenario.unchanged_lock Scenario.empty_state
    = (Ok (Resp "{}" ACCEPTED),
       State ∅ ∅ [EvApp (AppGet "http://codimd:3000/docid/download")]).
Proof.
  split; [vm_compute; reflexivity|].
  apply (savetostorage_unchanged_on_close Scenario.unchanged_world Scenario.codimd_here
           "https://storage/wopi/files/1" "T1" Scenario.unchanged_lock Scenario.empty_state
           (Scenario.plain_response OK Scenario.abc)).
  - reflexivity.
  - reflexivity.
  - discriminate.
  - vm_compute; reflexivity.
Defined.

(* ===================================================================== *)
(** ** The [/save] handler *)
(* ===================================================================== *)

Lemma parse_meta_raises header e :
  parse_meta header = Raise e → (∃ k, e = KeyError k) ∨ (∃ a, e = ValueError a).
Proof.
  unfold parse_meta, str_index. destruct header as [meta|]; [|intros [= <-]; eauto].
  unfold_monad. destruct (find_sub _ _); [done|]. intros [= <-]. eauto.
Qed.

(** What [/save] does to the registry: the record of the file gets the close
    flag under the short token, in a record made for it when there was none;
    a request without usable metadata changes nothing. The handler never
    raises. *)
Lemma appsave_registry W cfg header close id st :
  wp (appsave W cfg header close id)
     (λ _ st',
        match parse_meta header with
        | Ok (w, a) =>
            ∃ r', openfiles st' = <[w := r']> (openfiles st)
                  ∧ toclose r' = <[shorttok a := isclose_arg close]>
                                   (from_option toclose ∅ (openfiles st !! w))
        | Raise _ => openfiles st' = openfiles st
        end)
     (λ _ _, False) st.
Proof.
  unfold appsave.
  destruct (parse_meta header) as [[w a]|e] eqn:Hmeta.
  - wp_steps;
      repeat match goal with
             | H : openfiles st !! w = _ |- _ => rewrite H in *; clear H
             end;
      simplify_eq; try (eexists; split; [reflexivity|done]).

  - destruct (parse_meta_raises _ _ Hmeta) as [[k ->]|[k ->]]; by wp_steps.
Qed.

Lemma appsaves_registry W cfg wopisrc l : ∀ st r,
  openfiles st !! wopisrc = Some r →
  wp (appsaves W cfg l)
     (λ _ st', ∃ r', openfiles st' !! wopisrc = Some r'
                     ∧ toclose r' = close_signals wopisrc l (toclose r))
     (λ _ _, False) st.
Proof.
  induction l as [|s l IH]; intros st r Hr; cbn [appsaves close_signals].
  - apply wp_ret. eauto.
  - apply wp_bind.
    eapply wp_mono; [apply appsave_registry | | done].
    intros ? st' Hpost. cbn beta in *. unfold close_signal.
    destruct (parse_meta (sr_header s)) as [[w tok]|e].
    + destruct Hpost as (r' & Hreg & Hclose).
      destruct (String.eqb_spec w wopisrc) as [->|Hne].
      * rewrite Hr in Hclose. cbn [from_option] in Hclose. rewrite <- Hclose.
        apply IH. by rewrite Hreg, lookup_insert_eq.
      * apply IH. by rewrite Hreg, lookup_insert_ne.
    + apply IH. by rewrite Hpost.
Qed.

Lemma close_signals_other wopisrc tok l : ∀ m,
  Forall (from_other wopisrc tok) l → close_signals wopisrc l m !! tok = m !! tok.
Proof.
  induction l as [|s l IH]; intros m Hl; [done|].
  apply Forall_cons_1 in Hl as [Hs Hl]. cbn [close_signals].
  rewrite IH by done. unfold close_signal, from_other in *.
  destruct (parse_meta (sr_header s)) as [[w a]|e]; [|done].
  destruct (String.eqb_spec w wopisrc) as [->|Hne]; [|done].
  by rewrite lookup_insert_ne by auto.
Qed.

Lemma close_signals_app wopisrc l1 l2 m :
  close_signals wopisrc (l1 ++ l2) m = close_signals wopisrc l2 (close_signals wopisrc l1 m).
Proof. revert m. induction l1 as [|s l1 IH]; intros m; [done|]. apply IH. Qed.

(** The last [/save] of a participant decides its entry. *)
Lemma close_signals_last wopisrc l s a m :
  parse_meta (sr_header s) = Ok (wopisrc, a) →
  close_signals wopisrc (l ++ [s]) m !! shorttok a = Some (isclose_arg (sr_close s)).
Proof.
  intros Hs. rewrite close_signals_app. cbn [close_signals]. unfold close_signal.
  by rewrite Hs, String.eqb_refl, lookup_insert_eq.
Qed.

(** C2, as the code has it: a run of [/save] calls on a registered file never
    fails and leaves in the close-map of its record the close flag of each
    call under the short token of that call, applied in order. An entry is
    therefore kept by the calls of the other participants and of other files,
    and taken over by the next call of the same participant, whatever its
    close flag. *)
Theorem appsave_close_flag_last_writer W cfg wopisrc r st l :
  openfiles st !! wopisrc = Some r →
  ∃ r' st',
    appsaves W cfg l st = (Ok tt, st')
    ∧ openfiles st' !! wopisrc = Some r'
    ∧ toclose r' = close_signals wopisrc l (toclose r)
    ∧ (∀ tok, Forall (from_other wopisrc tok) l → toclose r' !! tok = toclose r !! tok)
    ∧ (∀ l' s a, l = l' ++ [s] → parse_meta (sr_header s) = Ok (wopisrc, a) →
         toclose r' !! shorttok a = Some (isclose_arg (sr_close s))).
Proof.
  intros Hr. pose proof (appsaves_registry W cfg wopisrc l st r Hr) as Hwp.
  unfold wp in Hwp. destruct (appsaves W cfg l st) as [[[]|e] st']; [|done].
  destruct Hwp as (r' & Hr' & Hclose). exists r', st'.
  split_and!; [done..| |].
  - intros tok Hl. rewrite Hclose. by apply close_signals_other.
  - intros l' s a -> Hs. rewrite Hclose. by apply close_signals_last.
Qed.

Lemma appsave_close_flag_last_writer_witness :
  let W := Scenario.still_world 1000 in
  ∃ r' st',
    appsaves W (Scenario.plain_config W) [Scenario.save_close; Scenario.save_noclose]
             Scenario.one_open = (Ok tt, st')
    ∧ openfiles st' !! Scenario.file1 = Some r'
    ∧ toclose r' !! Scenario.user1 = Some false.
Proof.
  intros W.
  destruct (appsave_close_flag_last_writer W (Scenario.plain_config W) Scenario.file1
              (OpenFile Scenario.user1 false 800 {[ Scenario.user1 := false ]} (Some "/docid"))
              Scenario.one_open [Scenario.save_close; Scenario.save_noclose] eq_refl)
    as (r' & st' & Hrun & Hr' & _ & _ & Hlast).
  exists r', st'. split_and!; [done..|].
  exact (Hlast [Scenario.save_close] Scenario.save_noclose Scenario.user1 eq_refl eq_refl).
Defined.

(** C2, as the claim states it, fails: the participant who closed and then
    saves again with [close=false] finds its entry reset to [false]. *)
Lemma appsave_close_then_save_resets :
  let W := Scenario.still_world 1000 in
  Scenario.close_entry
    (appsaves W (Scenario.plain_config W) [Scenario.save_close] Scenario.one_open).2
    Scenario.file1 Scenario.user1 = Some true
  ∧ Scenario.close_entry
      (appsaves W (Scenario.plain_config W) [Scenario.save_close; Scenario.save_noclose]
                Scenario.one_open).2
      Scenario.file1 Scenario.user1 = Some false.
Proof. vm_compute. split; reflexivity. Qed.

(* ===================================================================== *)
(** ** Loading a bundle *)
(* ===================================================================== *)

(** [randint(lo, hi)] yields every value from [lo] to [hi], both included. *)
Lemma randint_range W lo hi st :
  lo ≤ hi →
  wp (randint W lo hi) (λ r _, lo ≤ r ≤ hi) (λ _ _, False) st.
Proof.
  intros Hle. unfold randint. apply wp_call. cbn beta. div_mod_lia.
Qed.

Lemma randint_reaches_upper_bound :
  (randint Scenario.collision_world 65 (65 + 26) Scenario.empty_state).1 = Ok 91.
Proof. reflexivity. Qed.

(** On a collision the loop of [_unzipattachments] does not get past line 96:
    the rewrite of the references raises, whatever the random letter, and
    the attachment is not uploaded. *)
Lemma unzip_entry_collision_raises W cc mddoc zipinfo st res n :
  (splitext (ze_filename zipinfo)).2 ≠ ".md" →
  requests W (length (trace st)) = Ok res →
  status_code res = OK →
  content_length_int res = Ok n →
  n ≠ ze_file_size zipinfo →
  wp (unzip_entry W cc mddoc zipinfo)
     (λ _ _, False)
     (λ e st', (e = TypeError ∨ e = AttributeError)
               ∧ trace st' = EvRandint 65 (65 + 26)
                             :: EvApp (AppHead (appurl cc +:+ "/uploads/" +:+ ze_filename zipinfo))
                             :: trace st) st.
Proof.
  intros Hext Hres Hok Hlen Hsize. unfold unzip_entry.
  apply String.eqb_neq in Hext. rewrite Hext.
  apply wp_bind, wp_call. rewrite Hres. cbn beta.
  rewrite Hok, Z.eqb_refl.
  apply wp_bind, wp_bind, wp_lift. rewrite Hlen.
  apply wp_ret. apply Z.eqb_neq in Hsize. rewrite Hsize.
  apply wp_bind, wp_bind, wp_call. cbn beta.
  apply wp_bind, wp_lift. unfold mddoc_replace. destruct mddoc; auto.
Qed.

(** C3 (the code departs from the claim): for the bundle [doc.md], [img.png]
    with an [img.png] of another size on the app, the outcome 91 of
    [randint(65, 65+26)] names the attachment [img_[.png], which is no
    uppercase letter, and the rewrite of the references raises [TypeError]
    before anything is uploaded: [_unzipattachments] ends there. *)
Theorem unzipattachments_collision_fails :
  collision_name "img.png" 91 = "img_[.png"
  ∧ _unzipattachments Scenario.collision_world Scenario.codimd_here [] Scenario.empty_state
    = (Raise TypeError,
       State ∅ ∅ [EvRandint 65 91; EvApp (AppHead "http://codimd:3000/uploads/img.png")]).
Proof. split; vm_compute; reflexivity. Qed.

(* ===================================================================== *)
(** ** Loading from storage *)
(* ===================================================================== *)

Lemma bytes_decode_invalid b : utf8_valid b = false → bytes_decode b = Raise UnicodeDecodeError.
Proof. intros Hb. unfold bytes_decode, decode. by rewrite Hb. Qed.

(** [_isslides] stops at the first prefix that does not decode. *)
Lemma isslides_invalid_prefix doc :
  utf8_valid (take 9 doc) = false → _isslides doc = Raise UnicodeDecodeError.
Proof. intros Hb. unfold _isslides. by rewrite (bytes_decode_invalid _ Hb). Qed.

(** every exception of [_isslides] comes from one of its decodes *)
Lemma isslides_raises_decode doc e : _isslides doc = Raise e → e = UnicodeDecodeError.
Proof.
  unfold _isslides, bytes_decode.
  repeat (match goal with
          | |- context [decode ?b] => destruct (decode b)
          | |- context [String.eqb ?x ?y] => destruct (String.eqb x y)
          end; cbn [mbind res_mbind res_bind]); congruence.
Qed.

(** [_isslides] returns when the three prefixes that it reads decode *)
Lemma isslides_valid_prefixes doc :
  utf8_valid (take 9 doc) = true → utf8_valid (take 8 doc) = true →
  utf8_valid (take 16 doc) = true → ∃ slides, _isslides doc = Ok slides.
Proof.
  intros H9 H8 H16. unfold _isslides, bytes_decode, decode. rewrite H9, H8, H16.
  cbn [mbind res_mbind res_bind].
  repeat (match goal with
          | |- context [String.eqb ?x ?y] => destruct (String.eqb x y)
          end; cbn [mbind res_mbind res_bind]); eauto.
Qed.

(** C9, as the code has it: [loadfromstorage] raises [ValueError] with the
    status code when GetFile is not answered [200]. Otherwise take the
    document that it hashes: the bytes of the file, or the markdown entry
    that unzipping a bundle returned. With a docid, a document that is not
    UTF-8 raises [UnicodeDecodeError] from the decode before the PUT, once
    the app has answered the reservation of the docid with [200] or a
    redirect. Without a docid, once the app has taken the new note, the load
    ends as the slide detection does: it raises, and then
    [UnicodeDecodeError], when one of the prefixes that [_isslides] decodes is
    not UTF-8 on its own, the first nine bytes in any case, and it returns the
    lock when the first nine, eight and sixteen bytes each decode, whatever
    the bytes after them. None of these exceptions is [AppFailure]. *)
Theorem loadfromstorage_other_exceptions W cc md wopisrc acctok docid st res :
  wopi_request W (length (trace st)) = Ok res →
  let outcome := (codimd_loadfromstorage W cc md wopisrc acctok docid st).1 in
  (status_code res ≠ OK → outcome = Raise (ValueError (ArgInt (status_code res))))
  ∧ (status_code res = OK →
     ∀ mddoc st1 ans,
       unbundled W cc md (content res) (record_call (EvWopi wopisrc acctok GetFile) st)
       = (Ok (Some mddoc), st1) →
       requests W (length (trace st1)) = Ok ans →
       (no_docid docid = false →
        status_code ans = OK ∨ (status_code ans = FOUND ∧ is_Some (next_path ans)) →
        utf8_valid mddoc = false →
        outcome = Raise UnicodeDecodeError)
       ∧ (no_docid docid = true →
          status_code ans = FOUND →
          ∀ location, next_path ans = Some location →
            outcome = match _isslides mddoc with
                      | Ok slides =>
                          Ok (generatelock (split_last "/" location) md (sha1_hexdigest mddoc)
                                           (if slides then "mds" else "md") acctok false)
                      | Raise e => Raise e
                      end
            ∧ (∀ e, outcome = Raise e → e = UnicodeDecodeError)
            ∧ (utf8_valid (take 9 mddoc) = false → outcome = Raise UnicodeDecodeError)
            ∧ (utf8_valid (take 9 mddoc) = true → utf8_valid (take 8 mddoc) = true →
               utf8_valid (take 16 mddoc) = true → ∃ l, outcome = Ok l))).
Proof.
  intros Hres outcome. subst outcome.
  split.
  - intros Hstatus. apply Z.eqb_neq in Hstatus. apply wp_raises.
    unfold codimd_loadfromstorage. wp_straight. rewrite Hres, Hstatus.
    by wp_straight.
  - intros Hstatus mddoc st1 ans Hdoc Hans. unfold unbundled, record_call in Hdoc. split.
    + intros Hdocid Hcode Hbad. apply wp_raises.
      unfold codimd_loadfromstorage. wp_straight.
      rewrite Hres, Hstatus, Z.eqb_refl. wp_straight.
      eapply wp_of_run; [exact Hdoc|]. wp_straight. rewrite Hdocid. wp_straight.
      rewrite Hans, (bytes_decode_invalid _ Hbad).
      destruct Hcode as [->|[-> [p Hp]]]; cbn [Z.eqb OK FOUND Pos.eqb orb negb];
        wp_straight; [done|].
      unfold next_last_segment. rewrite Hp. by wp_straight.
    + intros Hdocid Hcode location Hloc.
      match goal with
      | |- ?o = ?r ∧ _ => assert (o = r) as Hrun
      end.
      { apply wp_outcome.
        unfold codimd_loadfromstorage. wp_straight.
        rewrite Hres, Hstatus, Z.eqb_refl. wp_straight.
        eapply wp_of_run; [exact Hdoc|]. wp_straight. rewrite Hdocid. wp_straight.
        rewrite Hans, Hcode, Z.eqb_refl. cbn [negb]. wp_straight.
        unfold next_last_segment. rewrite Hloc. wp_straight.
        destruct (_isslides mddoc); by wp_straight. }
      split; [exact Hrun|]. rewrite Hrun. split_and!.
      * intros e. destruct (_isslides mddoc) as [slides|e'] eqn:Hslides; [done|].
        intros [= <-]. by eapply isslides_raises_decode.
      * intros Hbad. by rewrite (isslides_invalid_prefix _ Hbad).
      * intros H9 H8 H16.
        destruct (isslides_valid_prefixes _ H9 H8 H16) as [slides ->]. eauto.
Qed.

Lemma loadfromstorage_other_exceptions_witness :
  let W := Scenario.late_invalid_bundle_world in
  let load := codimd_loadfromstorage W Scenario.codimd_here Scenario.bundle_md
                Scenario.file1 Scenario.user1 in
  utf8_valid Scenario.late_invalid_doc = false
  ∧ (load (Some "reserved") Scenario.empty_state).1 = Raise UnicodeDecodeError
  ∧ ∃ l, (load None Scenario.empty_state).1 = Ok l.
Proof.
  intros W load.
  assert (unbundled W Scenario.codimd_here Scenario.bundle_md Scenario.late_invalid_archive
            (record_call (EvWopi Scenario.file1 Scenario.user1 GetFile) Scenario.empty_state)
          = (Ok (Some Scenario.late_invalid_doc),
             record_call (EvWopi Scenario.file1 Scenario.user1 GetFile) Scenario.empty_state))
    as Hdoc by reflexivity.
  split; [vm_compute; reflexivity|]. split.
  - destruct (loadfromstorage_other_exceptions W Scenario.codimd_here Scenario.bundle_md
                Scenario.file1 Scenario.user1 (Some "reserved") Scenario.empty_state
                (Scenario.plain_response OK Scenario.late_invalid_archive) eq_refl)
      as [_ Hload].
    destruct (Hload eq_refl _ _ (Scenario.redirect_response "/AbCdEf") Hdoc eq_refl)
      as [Hrw _].
    apply Hrw.
    + reflexivity.
    + right. split; [reflexivity|]. eexists; reflexivity.
    + vm_compute; reflexivity.
  - destruct (loadfromstorage_other_exceptions W Scenario.codimd_here Scenario.bundle_md
                Scenario.file1 Scenario.user1 None Scenario.empty_state
                (Scenario.plain_response OK Scenario.late_invalid_archive) eq_refl)
      as [_ Hload].
    destruct (Hload eq_refl _ _ (Scenario.redirect_response "/AbCdEf") Hdoc eq_refl)
      as [_ Hro].
    destruct (Hro eq_refl eq_refl "/AbCdEf" eq_refl) as (_ & _ & _ & Hreturns).
    apply Hreturns; vm_compute; reflexivity.
Defined.

(** C9, as the claim states it, fails: the sixteen characters
    [0123456789abcdef] followed by the byte [0xFF] are not UTF-8, and the
    read-only load of that document raises nothing: the three prefixes that
    the slide detection reads decode, and the load returns the lock of the
    new note. *)
Lemma loadfromstorage_late_invalid_utf8_returns :
  utf8_valid Scenario.late_invalid_doc = false
  ∧ (codimd_loadfromstorage Scenario.late_invalid_world Scenario.codimd_here
       Scenario.notes_md Scenario.file1 Scenario.user1 None Scenario.empty_state).1
    = Ok (WopiLock "AbCdEf" "notes.md" (sha1_hexdigest Scenario.late_invalid_doc) "md"
                   {[ Scenario.user1 := false ]}).
Proof. split; vm_compute; reflexivity. Qed.

(* ===================================================================== *)
(** ** The boolean reductions *)
(* ===================================================================== *)

Lemma dict_values_nil {A} (m : gmap string A) : dict_values m = [] ↔ m = ∅.
Proof.
  unfold dict_values. rewrite <- map_to_list_empty_iff.
  split; [apply fmap_nil_inv | by intros ->].
Qed.

Lemma intersection_empty : _intersection ∅ = Raise TypeError.
Proof. reflexivity. Qed.

Lemma union_empty : _union ∅ = Raise TypeError.
Proof. reflexivity. Qed.

(** [_intersection] returns exactly on the maps that are not empty. *)
Lemma intersection_total_iff m : (∃ b, _intersection m = Ok b) ↔ m ≠ ∅.
Proof.
  rewrite <- (dict_values_nil m). unfold _intersection, reduce.
  destruct (dict_values m); split; try done; eauto. by intros [b Hb].
Qed.

Lemma union_total_iff m : (∃ b, _union m = Ok b) ↔ m ≠ ∅.
Proof.
  rewrite <- (dict_values_nil m). unfold _union, reduce.
  destruct (dict_values m); split; try done; eauto. by intros [b Hb].
Qed.

Lemma intersection_nonempty m : m ≠ ∅ → ∃ b, _intersection m = Ok b.
Proof. apply intersection_total_iff. Qed.

Lemma union_nonempty m : m ≠ ∅ → ∃ b, _union m = Ok b.
Proof. apply union_total_iff. Qed.

(* ===================================================================== *)
(** ** The save thread on a record with an empty close-map *)
(* ===================================================================== *)

Lemma savedirty_empty W cfg wopisrc o st :
  toclose o.1 = ∅ →
  wp (savedirty W cfg wopisrc o)
     (λ r st', tosave o.1 = false ∧ r = (o, None) ∧ st' = st)
     (λ e _, tosave o.1 = true ∧ e = TypeError) st.
Proof.
  intros Hempty. unfold savedirty, savedirty_guard. rewrite Hempty, intersection_empty.
  destruct (tosave o.1); by wp_straight.
Qed.

Lemma closewhenidle_keeps_empty W cfg wopisrc o lk st :
  toclose o.1 = ∅ →
  wp (closewhenidle W cfg wopisrc o lk)
     (λ r _, toclose r.1.1 = ∅)
     (λ _ _, True) st.
Proof.
  intros Hempty. unfold closewhenidle, write_obj, del_openfile.
  wp_steps; cbn [fst snd set_toclose toclose]; rewrite ?Hempty, ?fmap_empty. all: done.
Qed.

Lemma cleanup_empty W cfg wopisrc o lk st :
  toclose o.1 = ∅ →
  wp (cleanup W cfg wopisrc o lk) (λ _ _, False) (λ e st', e = TypeError ∧ st' = st) st.
Proof.
  intros Hempty. unfold cleanup. rewrite Hempty, union_empty. by wp_straight.
Qed.

(** C10: [_intersection] and [_union] raise [TypeError] on the empty map and
    on no other map. For a record whose close-map is empty, [savedirty]
    raises it as soon as a save is pending, [cleanup] raises it at once, and
    the three phases of the document always end in the catch-all handler of
    the loop. *)
Theorem reductions_partial_on_empty W cfg wopisrc r st :
  toclose r = ∅ →
  _intersection (toclose r) = Raise TypeError
  ∧ _union (toclose r) = Raise TypeError
  ∧ (∀ m : gmap string bool, m ≠ ∅ ↔ ∃ b, _intersection m = Ok b)
  ∧ (∀ m : gmap string bool, m ≠ ∅ ↔ ∃ b, _union m = Ok b)
  ∧ (tosave r = true → (savedirty W cfg wopisrc (r, true) st).1 = Raise TypeError)
  ∧ (∀ linked lk, (cleanup W cfg wopisrc (r, linked) lk st).1 = Raise TypeError)
  ∧ (∃ e, (process_doc W cfg wopisrc r st).1 = Ok (Caught e)).
Proof.
  intros Hempty. split_and!.
  - by rewrite Hempty.
  - by rewrite Hempty.
  - intros m. by rewrite intersection_total_iff.
  - intros m. by rewrite union_total_iff.
  - intros Hsave. apply wp_raises.
    eapply wp_mono; [by apply savedirty_empty | |]; cbn beta.
    + intros ? ? [Hno _]. cbn [fst] in Hno. congruence.
    + by intros ? ? [_ ->].
  - intros linked lk. apply wp_raises.
    eapply wp_mono; [by apply cleanup_empty | done |]. by intros ? ? [-> _].
  - assert (wp (process_doc W cfg wopisrc r) (λ out _, ∃ e, out = Caught e)
               (λ _ _, False) st) as Hwp.
    { unfold process_doc. apply wp_try, wp_bind.
      eapply wp_mono; [by apply savedirty_empty | |]; cbn beta.
      - intros [o lk] st' (_ & [= -> ->] & ->). apply wp_bind.
        eapply wp_mono; [by apply closewhenidle_keeps_empty | |]; cbn beta.
        + intros [o lk] st' Ho. apply wp_bind.
          eapply wp_mono; [by apply cleanup_empty | done |]; cbn beta.
          intros e st'' _. apply wp_ret. eauto.
        + intros e st' _. apply wp_ret. eauto.
      - intros e st' _. apply wp_ret. eauto. }
    unfold wp in Hwp. destruct (process_doc W cfg wopisrc r st) as [[out|e] st']; [|done].
    destruct Hwp as [e ->]. eauto.
Qed.

Lemma reductions_partial_on_empty_witness :
  let W := Scenario.still_world 1000 in
  let cfg := Scenario.plain_config W in
  toclose Scenario.hollow = ∅
  ∧ (savedirty W cfg Scenario.file1 (Scenario.hollow, true) Scenario.one_hollow).1
    = Raise TypeError
  ∧ (process_doc W cfg Scenario.file1 Scenario.hollow Scenario.one_hollow).1
    = Ok (Caught TypeError).
Proof.
  intros W cfg. split; [reflexivity|].
  destruct (reductions_partial_on_empty W cfg Scenario.file1 Scenario.hollow
              Scenario.one_hollow eq_refl) as (_ & _ & _ & _ & Hsave & _ & _).
  split; [exact (Hsave eq_refl)|]. vm_compute. reflexivity.
Defined.

(* ===================================================================== *)
(** ** Traces *)
(* ===================================================================== *)

Lemma trace_extends_nil P tr : trace_extends P tr tr.
Proof. by exists []. Qed.

Lemma trace_extends_cons P ev tr0 tr :
  P ev → trace_extends P tr0 tr → trace_extends P tr0 (ev :: tr).
Proof. intros Hev (evs & -> & Hevs). exists (ev :: evs). by split; [|constructor]. Qed.

Lemma trace_extends_trans P tr0 tr1 tr2 :
  trace_extends P tr0 tr1 → trace_extends P tr1 tr2 → trace_extends P tr0 tr2.
Proof.
  intros (evs1 & -> & H1) (evs2 & -> & H2). exists (evs2 ++ evs1).
  split; [by rewrite app_assoc | by apply Forall_app].
Qed.

Lemma extends_trans P st0 st1 st2 :
  extends P st0 st1 → extends P st1 st2 → extends P st0 st2.
Proof. apply trace_extends_trans. Qed.

Lemma calls_between_app st st' evs :
  trace st' = evs ++ trace st → calls_between st st' = evs.
Proof.
  intros Htr. unfold calls_between. rewrite Htr, length_app.
  replace (length evs + length (trace st) - length (trace st))%nat with (length evs) by lia.
  by rewrite take_app_length.
Qed.

Lemma count_calls_none (p : event → bool) st st' evs :
  trace st' = evs ++ trace st → Forall (λ ev, p ev = false) evs →
  count_calls p st st' = O.
Proof.
  intros Htr Hevs. unfold count_calls. rewrite (calls_between_app _ _ _ Htr).
  clear Htr. induction Hevs as [|ev evs Hev _ IH]; [done|].
  by rewrite filter_cons_False by congruence.
Qed.

(** closing a goal [extends P st st'] whose trace is explicit *)
Ltac solve_extends :=
  unfold extends; state_simpl;
  repeat (apply trace_extends_cons; [by repeat split|]);
  apply trace_extends_nil.

(* ===================================================================== *)
(** ** The save thread: calls made by each phase *)
(* ===================================================================== *)

(** [closewhenidle] reads the clock and the lock, nothing else. *)
Lemma closewhenidle_housekeeping W cfg wopisrc o lk st :
  wp (closewhenidle W cfg wopisrc o lk)
     (λ _ st', extends is_housekeeping st st')
     (λ _ st', extends is_housekeeping st st') st.
Proof.
  unfold closewhenidle, write_obj, del_openfile. wp_steps; solve_extends.
Qed.

(** [cleanup] reads the clock and the lock, unlocks or refreshes the lock. *)
Lemma cleanup_housekeeping W cfg wopisrc o lk st :
  wp (cleanup W cfg wopisrc o lk)
     (λ _ st', extends is_housekeeping st st')
     (λ _ st', extends is_housekeeping st st') st.
Proof.
  unfold cleanup, write_obj, del_openfile. wp_steps; solve_extends.
Qed.

(** The condition of [savedirty] reads the clock at most, and holds only
    when a save is pending on a close-map that is not empty. *)
Lemma savedirty_guard_run W cfg r st b st1 :
  savedirty_guard W cfg r st = (Ok b, st1) →
  openfiles st1 = openfiles st ∧ saveresponses st1 = saveresponses st
  ∧ trace_extends (λ ev, ev = EvTime) (trace st) (trace st1)
  ∧ (b = true → tosave r = true ∧ ∃ c, _intersection (toclose r) = Ok c).
Proof.
  intros Hrun.
  assert (wp (savedirty_guard W cfg r)
            (λ b st1, openfiles st1 = openfiles st ∧ saveresponses st1 = saveresponses st
                      ∧ trace_extends (λ ev, ev = EvTime) (trace st) (trace st1)
                      ∧ (b = true → tosave r = true ∧ ∃ c, _intersection (toclose r) = Ok c))
            (λ _ _, True) st) as Hwp.
  { unfold savedirty_guard. wp_steps; try done; split_and!; try done;
      try (first [apply trace_extends_nil
                 | by apply trace_extends_cons, trace_extends_nil]);
      intros; simplify_eq; eauto. }
  exact (wp_run _ _ _ _ _ _ Hwp Hrun).
Qed.

(** The record and the response that [savedirty] leaves when the relock
    fails too. *)
Lemma savedirty_lock_double_failure W wopisrc r st1 e1 e2 c :
  _intersection (toclose r) = Ok c →
  wopi_getlock W (length (trace st1)) = Raise (InvalidLock e1) →
  wopi_relock W (S (length (trace st1))) = Raise (InvalidLock e2) →
  let r' := OpenFile (acctok r) false
                     (int_of_Q (time_time W (S (S (length (trace st1))))))
                     {[ "invalid-lock" := true ]} (docid r) in
  savedirty_lock W wopisrc (r, true) st1
  = (Ok (inr (r', true)),
     State (<[wopisrc := r']> (openfiles st1))
           (<[wopisrc := StoredResp (Resp (wopi_jsonify W e2) INTERNAL_SERVER_ERROR)]>
              (saveresponses st1))
           (EvTime :: EvRelock wopisrc (acctok r) (docid r) c
              :: EvGetLock wopisrc (acctok r) :: trace st1)).
Proof.
  intros Hc Hget Hrelock r'.
  unfold savedirty_lock, getlock, store_response, write_obj, now, jsonify.
  unfold_monad. cbn beta iota. cbn [fst snd trace length openfiles saveresponses].
  rewrite Hget, Hc. cbn beta iota. cbn [fst snd trace length openfiles saveresponses].
  rewrite Hrelock. cbn beta iota.
  cbn [fst snd trace length openfiles saveresponses set_lastsave set_tosave set_toclose
       acctok tosave lastsave toclose docid].
  by rewrite !insert_insert_eq.
Qed.

Lemma filter_none (p : event → bool) l :
  Forall (λ ev, p ev = false) l → filter (λ ev, p ev = true) l = [].
Proof.
  induction 1 as [|ev l Hev _ IH]; [done|].
  by rewrite filter_cons_False by congruence.
Qed.

Lemma housekeeping_no_relock l :
  Forall is_housekeeping l → Forall (λ ev, is_relock ev = false) l.
Proof. induction 1 as [|ev l [? _] _ IH]; by constructor. Qed.

Lemma housekeeping_no_save_work l :
  Forall is_housekeeping l → Forall (λ ev, is_save_work ev = false) l.
Proof. induction 1 as [|ev l [_ ?] _ IH]; by constructor. Qed.

Lemma clock_no_relock l :
  Forall (λ ev, ev = EvTime) l → Forall (λ ev, is_relock ev = false) l.
Proof. induction 1 as [|ev l -> _ IH]; by constructor. Qed.

Lemma clock_no_save_work l :
  Forall (λ ev, ev = EvTime) l → Forall (λ ev, is_save_work ev = false) l.
Proof. induction 1 as [|ev l -> _ IH]; by constructor. Qed.

(** the two phases that follow [savedirty] make housekeeping calls only *)
Lemma later_phases_housekeeping W cfg wopisrc o lk st :
  wp ('(o, wopilock) ← closewhenidle W cfg wopisrc o lk;
      cleanup W cfg wopisrc o wopilock;; mret Completed)
     (λ _ st', extends is_housekeeping st st')
     (λ _ st', extends is_housekeeping st st') st.
Proof.
  apply wp_bind.
  eapply wp_mono; [apply closewhenidle_housekeeping | | done]; cbn beta.
  intros [o' lk'] st1 Hst1. apply wp_bind.
  eapply wp_mono; [apply cleanup_housekeeping | |]; cbn beta.
  - intros _ st2 Hst2. apply wp_ret. by eapply extends_trans.
  - intros _ st2 Hst2. by eapply extends_trans.
Qed.

Lemma relocks_upto_nil n tr : relocks_upto n tr tr.
Proof. exists []. split; [done|]. cbn. lia. Qed.

Lemma relocks_upto_cons_other n ev tr0 tr :
  is_relock ev = false → relocks_upto n tr0 tr → relocks_upto n tr0 (ev :: tr).
Proof.
  intros Hev (evs & -> & Hn). exists (ev :: evs). split; [done|].
  by rewrite filter_cons_False by congruence.
Qed.

Lemma relocks_upto_cons_relock n ev tr0 tr :
  relocks_upto n tr0 tr → relocks_upto (S n) tr0 (ev :: tr).
Proof.
  intros (evs & -> & Hn). exists (ev :: evs). split; [done|].
  destruct (is_relock ev) eqn:Hev.
  - rewrite filter_cons_True by done. cbn. lia.
  - rewrite filter_cons_False by congruence. lia.
Qed.

Lemma relocks_upto_extends n tr0 tr1 tr2 :
  trace_extends (λ ev, is_relock ev = false) tr1 tr2 →
  relocks_upto n tr0 tr1 → relocks_upto n tr0 tr2.
Proof.
  intros (evs2 & -> & H2) (evs1 & -> & Hn). exists (evs2 ++ evs1).
  split; [by rewrite app_assoc|].
  by rewrite filter_app, (filter_none _ _ H2).
Qed.

Lemma relocks_upto_housekeeping n tr0 tr1 tr2 :
  trace_extends is_housekeeping tr1 tr2 →
  relocks_upto n tr0 tr1 → relocks_upto n tr0 tr2.
Proof.
  intros (evs2 & -> & H2). apply relocks_upto_extends.
  exists evs2. split; [done|]. by apply housekeeping_no_relock.
Qed.

Lemma relocks_upto_count n st st' :
  relocks_upto n (trace st) (trace st') → (count_calls is_relock st st' ≤ n)%nat.
Proof.
  intros (evs & Htr & Hn). unfold count_calls. by rewrite (calls_between_app _ _ _ Htr).
Qed.

(** closing a goal [relocks_upto n (trace st) tr] whose trace is explicit up
    to the calls of an adapter *)
Ltac solve_relocks :=
  unfold extends in *; state_simpl;
  repeat first
    [ apply relocks_upto_nil
    | apply relocks_upto_cons_other; [reflexivity|]
    | apply relocks_upto_cons_relock
    | eapply relocks_upto_extends; [eassumption|] ].

(** One cycle of a document makes at most one relock: [savedirty] has the
    only call, on the path where [getlock] raised [InvalidLock]. *)
Lemma savedirty_relocks W cfg wopisrc o st :
  plugins_never_relock cfg →
  wp (savedirty W cfg wopisrc o)
     (λ _ st', relocks_upto 1 (trace st) (trace st'))
     (λ _ st', relocks_upto 1 (trace st) (trace st')) st.
Proof.
  intros Hquiet.
  unfold savedirty, savedirty_guard, savedirty_lock, savedirty_dispatch, write_obj.
  wp_steps; try (solve_relocks; fail).
  all: match goal with
       | H : plugins _ _ = Some _ |- _ => pose proof (Hquiet _ _ H) as Hsave
       end.
  all: eapply wp_mono; [by apply Hsave | |]; cbn beta.
  all: intros ? st' Hext; wp_steps; solve_relocks.
Qed.

Lemma process_doc_relocks W cfg wopisrc r st :
  plugins_never_relock cfg →
  wp (process_doc W cfg wopisrc r)
     (λ _ st', relocks_upto 1 (trace st) (trace st')) (λ _ _, False) st.
Proof.
  intros Hquiet. unfold process_doc. apply wp_try, wp_bind.
  eapply wp_mono; [by apply savedirty_relocks | |]; cbn beta.
  - intros [o lk] st1 Hst1.
    eapply wp_mono; [apply later_phases_housekeeping | |]; cbn beta.
    + intros ? st2 Hst2. by eapply relocks_upto_housekeeping.
    + intros ? st2 Hst2. apply wp_ret. by eapply relocks_upto_housekeeping.
  - intros ? st1 Hst1. by apply wp_ret.
Qed.

(** When the relock fails too, [savedirty] gives up: a 500 response is
    stored, [tosave] cleared, the close-map replaced by the sentinel, and the
    rest of the cycle makes housekeeping calls only. *)
Lemma savedirty_double_failure W cfg wopisrc r st st1 e1 e2 :
  savedirty_guard W cfg r st = (Ok true, st1) →
  wopi_getlock W (length (trace st1)) = Raise (InvalidLock e1) →
  wopi_relock W (S (length (trace st1))) = Raise (InvalidLock e2) →
  let r' := OpenFile (acctok r) false
                     (int_of_Q (time_time W (S (S (length (trace st1))))))
                     {[ "invalid-lock" := true ]} (docid r) in
  ∃ st2,
    savedirty W cfg wopisrc (r, true) st = (Ok ((r', true), None), st2)
    ∧ openfiles st2 = <[wopisrc := r']> (openfiles st)
    ∧ saveresponses st2
      = <[wopisrc := StoredResp (Resp (wopi_jsonify W e2) INTERNAL_SERVER_ERROR)]>
          (saveresponses st)
    ∧ count_calls is_relock st st2 = 1%nat
    ∧ ∃ out st3,
        process_doc W cfg wopisrc r st = (Ok out, st3)
        ∧ count_calls is_relock st st3 = 1%nat
        ∧ count_calls is_save_work st st3 = 0%nat.
Proof.
  intros Hguard Hget Hrelock r'.
  destruct (savedirty_guard_run _ _ _ _ _ _ Hguard)
    as (Hof & Hsr & (gevs & Htr1 & Hgevs) & Hb).
  destruct (Hb eq_refl) as (_ & c & Hc).
  pose proof (savedirty_lock_double_failure W wopisrc r st1 e1 e2 c Hc Hget Hrelock)
    as Hlock. cbv zeta in Hlock. fold r' in Hlock.
  eexists. split.
  { unfold savedirty. cbv [mbind M_bind bind]. cbn [fst]. rewrite Hguard, Hlock.
    reflexivity. }
  cbn [openfiles saveresponses]. split; [by rewrite Hof|]. split; [by rewrite Hsr|].
  assert (∀ p evs, Forall (λ ev, p ev = false) evs →
            p EvTime = false → p (EvGetLock wopisrc (acctok r)) = false →
            ∀ st3, trace st3 = evs ++ EvTime :: EvRelock wopisrc (acctok r) (docid r) c
                                 :: EvGetLock wopisrc (acctok r) :: trace st1 →
                   count_calls p st st3
                   = if p (EvRelock wopisrc (acctok r) (docid r) c) then 1%nat else 0%nat)
    as Hcount.
  { intros p evs Hevs Htime Hgl st3 Htr3. unfold count_calls.
    rewrite (calls_between_app st st3
               (evs ++ [EvTime; EvRelock wopisrc (acctok r) (docid r) c;
                        EvGetLock wopisrc (acctok r)] ++ gevs))
      by (rewrite Htr3, Htr1, <- !app_assoc; reflexivity).
    rewrite !filter_app, !length_app, (filter_none p evs Hevs).
    assert (Forall (λ ev, p ev = false) gevs) as Hg
      by (clear -Hgevs Htime; induction Hgevs as [|ev l -> _ IH]; by constructor).
    rewrite (filter_none p gevs Hg).
    rewrite filter_cons_False by congruence.
    destruct (p (EvRelock wopisrc (acctok r) (docid r) c)) eqn:Hp.
    - rewrite filter_cons_True by done. rewrite filter_cons_False by congruence. done.
    - rewrite !filter_cons_False by congruence. done. }
  split.
  { by rewrite (Hcount is_relock [] ltac:(constructor) eq_refl eq_refl). }
  assert (wp (process_doc W cfg wopisrc r)
            (λ _ st3, ∃ evs, Forall is_housekeeping evs
                             ∧ trace st3 = evs ++ EvTime
                                 :: EvRelock wopisrc (acctok r) (docid r) c
                                 :: EvGetLock wopisrc (acctok r) :: trace st1)
            (λ _ _, False) st) as Hwp.
  { unfold process_doc. apply wp_try, wp_bind.
    eapply wp_of_run.
    { unfold savedirty. cbv [mbind M_bind bind]. cbn [fst]. rewrite Hguard, Hlock.
      reflexivity. }
    cbn beta iota.
    eapply wp_mono; [apply later_phases_housekeeping | |]; cbn beta.
    - intros _ st3 (evs & Htr3 & Hevs). eauto.
    - intros e st3 (evs & Htr3 & Hevs). apply wp_ret. eauto. }
  unfold wp in Hwp.
  destruct (process_doc W cfg wopisrc r st) as [[out|e] st3]; [|done].
  destruct Hwp as (evs & Hevs & Htr3). exists out, st3. split; [done|]. split.
  - by rewrite (Hcount is_relock evs (housekeeping_no_relock _ Hevs) eq_refl eq_refl _ Htr3).
  - by rewrite (Hcount is_save_work evs (housekeeping_no_save_work _ Hevs)
                  eq_refl eq_refl _ Htr3).
Qed.

(** the adapter calls of [codimd.py] while saving: none is a relock *)
Lemma fetch_attachments_never_relocks W cc tr0 l : ∀ entries resp st,
  trace_extends (λ ev, is_relock ev = false) tr0 (trace st) →
  wp (fetch_attachments W cc l entries resp)
     (λ _ st', trace_extends (λ ev, is_relock ev = false) tr0 (trace st'))
     (λ _ st', trace_extends (λ ev, is_relock ev = false) tr0 (trace st')) st.
Proof.
  induction l as [|attachment l IH]; intros entries resp st Htr; cbn [fetch_attachments].
  - by apply wp_ret.
  - wp_steps; try (by apply trace_extends_cons); apply IH; by apply trace_extends_cons.
Qed.

Lemma codimd_savetostorage_never_relocks W cc wopisrc acctok isclose lk st :
  wp (codimd_savetostorage W cc wopisrc acctok isclose lk)
     (λ _ st', extends (λ ev, is_relock ev = false) st st')
     (λ _ st', extends (λ ev, is_relock ev = false) st st') st.
Proof.
  unfold codimd_savetostorage, _fetchfromcodimd, _getattachments, bytes_decode.
  wp_steps; try (solve_extends; fail).
  all: eapply wp_mono;
    [apply (fetch_attachments_never_relocks W cc (trace st)); solve_extends | |];
    cbn beta.
  all: try (intros [entries resp] st1 Hst1; wp_steps; unfold extends; state_simpl;
            repeat (apply trace_extends_cons; [done|]); done).
  all: by intros.
Qed.

Lemma plain_config_never_relocks W : plugins_never_relock (Scenario.plain_config W).
Proof.
  intros name p. cbn [plugins Scenario.plain_config].
  destruct (String.eqb name "codimd"); [|done]. intros [= <-]. intros.
  apply codimd_savetostorage_never_relocks.
Qed.

(** C5: one cycle of a document makes at most one relock, the one that
    follows an [InvalidLock] of [getlock] in the save-dirty phase (adapters
    do not relock). When that relock raises [InvalidLock] too, [savedirty]
    returns no lock after that single relock, having stored a 500 response
    for the file, cleared [tosave] and replaced the close-map of the record
    by the sentinel [{"invalid-lock": true}]; the whole cycle of the document
    then counts one relock and no call that saves the document. *)
Theorem savedirty_relock_fails_once W cfg wopisrc r st :
  (plugins_never_relock cfg →
   (count_calls is_relock st (process_doc W cfg wopisrc r st).2 ≤ 1)%nat)
  ∧ ∀ st1 e1 e2,
      savedirty_guard W cfg r st = (Ok true, st1) →
      wopi_getlock W (length (trace st1)) = Raise (InvalidLock e1) →
      wopi_relock W (S (length (trace st1))) = Raise (InvalidLock e2) →
      let r' := OpenFile (acctok r) false
                         (int_of_Q (time_time W (S (S (length (trace st1))))))
                         {[ "invalid-lock" := true ]} (docid r) in
      ∃ st2,
        savedirty W cfg wopisrc (r, true) st = (Ok ((r', true), None), st2)
        ∧ openfiles st2 = <[wopisrc := r']> (openfiles st)
        ∧ saveresponses st2
          = <[wopisrc := StoredResp (Resp (wopi_jsonify W e2) INTERNAL_SERVER_ERROR)]>
              (saveresponses st)
        ∧ count_calls is_relock st st2 = 1%nat
        ∧ ∃ out st3,
            process_doc W cfg wopisrc r st = (Ok out, st3)
            ∧ count_calls is_relock st st3 = 1%nat
            ∧ count_calls is_save_work st st3 = 0%nat.
Proof.
  split.
  - intros Hquiet. pose proof (process_doc_relocks W cfg wopisrc r st Hquiet) as Hwp.
    unfold wp in Hwp. destruct (process_doc W cfg wopisrc r st) as [[out|e] st3]; [|done].
    by apply relocks_upto_count.
  - intros st1 e1 e2. apply savedirty_double_failure.
Qed.

Lemma savedirty_relock_fails_once_witness :
  let W := Scenario.still_world 1000 in
  let cfg := Scenario.plain_config W in
  let r' := OpenFile Scenario.user1 false 1000 {[ "invalid-lock" := true ]} (Some "/docid") in
  savedirty_guard W cfg Scenario.closing Scenario.one_closing = (Ok true, Scenario.one_closing)
  ∧ (count_calls is_relock Scenario.one_closing
       (process_doc W cfg Scenario.file1 Scenario.closing Scenario.one_closing).2 ≤ 1)%nat
  ∧ ∃ st2,
      savedirty W cfg Scenario.file1 (Scenario.closing, true) Scenario.one_closing
      = (Ok ((r', true), None), st2)
      ∧ openfiles st2 = <[Scenario.file1 := r']> (openfiles Scenario.one_closing)
      ∧ saveresponses st2
        = <[Scenario.file1 := StoredResp (Resp (wopi_jsonify W "404") INTERNAL_SERVER_ERROR)]>
            (saveresponses Scenario.one_closing)
      ∧ count_calls is_relock Scenario.one_closing st2 = 1%nat
      ∧ ∃ out st3,
          process_doc W cfg Scenario.file1 Scenario.closing Scenario.one_closing = (Ok out, st3)
          ∧ count_calls is_relock Scenario.one_closing st3 = 1%nat
          ∧ count_calls is_save_work Scenario.one_closing st3 = 0%nat.
Proof.
  intros W cfg r'. split; [reflexivity|].
  destruct (savedirty_relock_fails_once W cfg Scenario.file1 Scenario.closing
              Scenario.one_closing) as [Hgeneral Hfailure].
  split; [exact (Hgeneral (plain_config_never_relocks W))|].
  exact (Hfailure Scenario.one_closing "404" "404" eq_refl eq_refl eq_refl).
Defined.

(* ===================================================================== *)
(** ** What the save-response map holds *)
(* ===================================================================== *)

(** A relock that succeeds leaves the lock itself in the save-response map. *)
Lemma savedirty_lock_relock_stores_lock W wopisrc r st e c l :
  _intersection (toclose r) = Ok c →
  wopi_getlock W (length (trace st)) = Raise (InvalidLock e) →
  wopi_relock W (S (length (trace st))) = Ok l →
  savedirty_lock W wopisrc (r, true) st
  = (Ok (inl l),
     State (openfiles st) (<[wopisrc := StoredLock l]> (saveresponses st))
           (EvRelock wopisrc (acctok r) (docid r) c :: EvGetLock wopisrc (acctok r)
              :: trace st)).
Proof.
  intros Hc Hget Hrelock.
  unfold savedirty_lock, getlock, store_response.
  unfold_monad. cbn beta iota. cbn [fst snd trace length openfiles saveresponses].
  rewrite Hget, Hc. cbn beta iota. cbn [fst snd trace length openfiles saveresponses].
  by rewrite Hrelock.
Qed.

(** C4 (the code departs from the claim): storage has lost the lock and
    grants a new one, then the adapter raises while saving (the text of the
    app is not UTF-8). The cycle of the document ends in the catch-all
    handler and the save-response map holds, for the file, the lock that
    [relock] returned, not a pair of a message and an HTTP code; the next
    [/save] hands that lock back as its response. *)
Theorem relock_leaves_lock_in_saveresponses :
  let W := Scenario.relock_world in
  let cfg := Scenario.plain_config W in
  let run := process_doc W cfg Scenario.file1 Scenario.pending Scenario.one_pending in
  run.1 = Ok (Caught UnicodeDecodeError)
  ∧ saveresponses run.2 !! Scenario.file1 = Some (StoredLock Scenario.relock_lock)
  ∧ (appsave W cfg (Some (Scenario.file1 +:+ "?t=" +:+ Scenario.user1)) (Some "false")
             (Some "/docid") run.2).1
    = Ok (Reply (StoredLock Scenario.relock_lock)).
Proof. vm_compute. split_and!; reflexivity. Qed.

(* ===================================================================== *)
(** ** The close-maps of the registry *)
(* ===================================================================== *)

Lemma reconcile_lookup mine theirs t :
  reconcile mine theirs !! t = (λ v, v || default false (mine !! t)) <$> theirs !! t.
Proof. unfold reconcile. rewrite map_lookup_imap. by destruct (theirs !! t). Qed.

(** the reconciled close-map has the keys of the lock *)
Lemma reconcile_nonempty mine theirs : theirs ≠ ∅ → reconcile mine theirs ≠ ∅.
Proof.
  intros (t & v & Ht)%map_choose Hempty.
  pose proof (reconcile_lookup mine theirs t) as Hlook.
  rewrite Hempty, Ht, lookup_empty in Hlook. done.
Qed.

Lemma reconcile_empty mine : reconcile mine ∅ = ∅.
Proof. apply map_eq. intros t. by rewrite reconcile_lookup, !lookup_empty. Qed.

Lemma all_true_nonempty (m : gmap string bool) : m ≠ ∅ → (λ _, true) <$> m ≠ ∅.
Proof. by rewrite fmap_empty_iff. Qed.

Lemma toclose_nonempty_insert reg wopisrc r :
  toclose r ≠ ∅ → toclose_nonempty reg → toclose_nonempty (<[wopisrc := r]> reg).
Proof. intros. by apply map_Forall_insert_2. Qed.

Lemma toclose_nonempty_delete reg wopisrc :
  toclose_nonempty reg → toclose_nonempty (delete wopisrc reg).
Proof. apply map_Forall_delete. Qed.

Lemma toclose_nonempty_lookup reg wopisrc r :
  toclose_nonempty reg → reg !! wopisrc = Some r → toclose r ≠ ∅.
Proof. intros Hreg Hr. exact (Hreg wopisrc r Hr). Qed.

(** closing the goals that symbolic execution leaves about the registry *)
Ltac solve_registry :=
  cbn [fst snd toclose set_toclose set_tosave set_lastsave set_acctok] in *;
  repeat match goal with
         | |- _ ∧ _ => split
         | |- ∀ _, _ => intro
         | |- toclose_nonempty (<[_ := _]> _) => apply toclose_nonempty_insert
         | |- toclose_nonempty (delete _ _) => apply toclose_nonempty_delete
         | |- reconcile _ _ ≠ ∅ => apply reconcile_nonempty
         | |- _ <$> _ ≠ ∅ => apply all_true_nonempty
         | |- <[_ := _]> _ ≠ ∅ => apply insert_non_empty
         | |- {[ _ := _ ]} ≠ ∅ => apply insert_non_empty
         | H : Some _ = Some _ |- _ => injection H as <-
         | H : None = Some _ |- _ => discriminate H
         | |- _ => progress cbn [fst snd toclose set_toclose set_tosave set_lastsave
                                 set_acctok] in *
         end;
  eauto using toclose_nonempty_lookup.

Section RegistryInvariant.

Variables (W : world) (cfg : config).
Hypothesis Hlocks : locks_nonempty W.
Hypothesis Hplugins : plugins_keep cfg.

Lemma getlock_nonempty n l : wopi_getlock W n = Ok l → lk_toclose l ≠ ∅.
Proof. intros. apply (Hlocks n). auto. Qed.

Lemma relock_nonempty n l : wopi_relock W n = Ok l → lk_toclose l ≠ ∅.
Proof. intros. apply (Hlocks n). auto. Qed.

Lemma refreshlock_nonempty n l : wopi_refreshlock W n = Ok l → lk_toclose l ≠ ∅.
Proof. intros. apply (Hlocks n). auto. Qed.

Lemma closewhenidle_keeps wopisrc o lk st :
  toclose_nonempty (openfiles st) → toclose o.1 ≠ ∅ →
  (∀ l, lk = Some l → lk_toclose l ≠ ∅) →
  wp (closewhenidle W cfg wopisrc o lk)
     (λ r st', toclose_nonempty (openfiles st') ∧ toclose r.1.1 ≠ ∅
               ∧ ∀ l, r.2 = Some l → lk_toclose l ≠ ∅)
     (λ _ st', toclose_nonempty (openfiles st')) st.
Proof.
  intros Hreg Ho Hlk. unfold closewhenidle, write_obj, del_openfile.
  wp_steps; solve_registry; eauto using getlock_nonempty.
Qed.

Lemma cleanup_keeps wopisrc o lk st :
  toclose_nonempty (openfiles st) → toclose o.1 ≠ ∅ →
  (∀ l, lk = Some l → lk_toclose l ≠ ∅) →
  wp (cleanup W cfg wopisrc o lk)
     (λ _ st', toclose_nonempty (openfiles st'))
     (λ _ st', toclose_nonempty (openfiles st')) st.
Proof.
  intros Hreg Ho Hlk. unfold cleanup, write_obj, del_openfile.
  wp_steps; solve_registry; eauto using getlock_nonempty.
Qed.

Lemma savedirty_keeps wopisrc o st :
  toclose_nonempty (openfiles st) → toclose o.1 ≠ ∅ →
  wp (savedirty W cfg wopisrc o)
     (λ r st', toclose_nonempty (openfiles st') ∧ toclose r.1.1 ≠ ∅
               ∧ ∀ l, r.2 = Some l → lk_toclose l ≠ ∅)
     (λ _ st', toclose_nonempty (openfiles st')) st.
Proof.
  intros Hreg Ho.
  unfold savedirty, savedirty_guard, savedirty_lock, savedirty_dispatch, write_obj.
  wp_steps; try (solve_registry; eauto using getlock_nonempty, relock_nonempty; fail).
  all: match goal with
       | H : plugins cfg _ = Some _ |- _ => destruct (Hplugins _ _ H) as (_ & Hsave & _)
       end.
  all: eapply wp_mono; [by apply Hsave | | done]; cbn beta.
  all: intros resp st' Hreg'; wp_steps; solve_registry;
    eauto using getlock_nonempty, relock_nonempty.
Qed.

Lemma process_doc_keeps wopisrc r st :
  toclose_nonempty (openfiles st) → toclose r ≠ ∅ →
  wp (process_doc W cfg wopisrc r)
     (λ _ st', toclose_nonempty (openfiles st')) (λ _ _, False) st.
Proof.
  intros Hreg Hr. unfold process_doc. apply wp_try, wp_bind.
  eapply wp_mono; [by apply savedirty_keeps | |]; cbn beta.
  - intros [o lk] st1 (Hreg1 & Ho & Hlk). apply wp_bind.
    eapply wp_mono; [by apply closewhenidle_keeps | |]; cbn beta.
    + intros [o' lk'] st2 (Hreg2 & Ho' & Hlk'). apply wp_bind.
      eapply wp_mono; [by apply cleanup_keeps | |]; cbn beta.
      * intros ? st3 Hreg3. by apply wp_ret.
      * intros ? st3 Hreg3. by apply wp_ret.
    + intros ? st2 Hreg2. by apply wp_ret.
  - intros ? st1 Hreg1. by apply wp_ret.
Qed.

Lemma process_docs_keeps l : ∀ st,
  toclose_nonempty (openfiles st) → Forall (λ wr, toclose wr.2 ≠ ∅) l →
  wp (process_docs W cfg l)
     (λ _ st', toclose_nonempty (openfiles st')) (λ _ _, False) st.
Proof.
  induction l as [|[wopisrc r] l IH]; intros st Hreg Hl; cbn [process_docs].
  - by apply wp_ret.
  - apply Forall_cons_1 in Hl as [Hr Hl]. apply wp_bind.
    eapply wp_mono; [by apply process_doc_keeps | | done]; cbn beta.
    intros out st1 Hreg1. apply wp_bind.
    eapply wp_mono; [by apply IH | | done]; cbn beta.
    intros outs st2 Hreg2. by apply wp_ret.
Qed.

Lemma cycle_keeps st :
  toclose_nonempty (openfiles st) →
  wp (cycle W cfg) (λ _ st', toclose_nonempty (openfiles st')) (λ _ _, False) st.
Proof.
  intros Hreg. unfold cycle. apply wp_bind, wp_get_openfiles.
  apply process_docs_keeps; [done|].
  apply Forall_forall. intros [wopisrc r] Hin.
  apply elem_of_map_to_list in Hin. by eapply toclose_nonempty_lookup.
Qed.

Lemma appsave_keeps header close id st :
  toclose_nonempty (openfiles st) →
  wp (appsave W cfg header close id)
     (λ _ st', toclose_nonempty (openfiles st')) (λ _ _, False) st.
Proof.
  intros Hreg. eapply wp_mono; [apply appsave_registry | | done]; cbn beta.
  intros ? st' Hpost. destruct (parse_meta header) as [[w tok]|e]; [|by rewrite Hpost].
  destruct Hpost as (r' & -> & Hclose). apply toclose_nonempty_insert; [|done].
  rewrite Hclose. apply insert_non_empty.
Qed.

Lemma open_readwrite_keeps app md wopisrc acctok st :
  (∀ p, app = Some p → plugin_keeps p) →
  toclose_nonempty (openfiles st) →
  wp (open_readwrite W cfg app md wopisrc acctok)
     (λ _ st', toclose_nonempty (openfiles st'))
     (λ _ st', toclose_nonempty (openfiles st')) st.
Proof.
  intros Hp Hreg. unfold open_readwrite.
  wp_steps; try (solve_registry; eauto using getlock_nonempty, refreshlock_nonempty; fail).
  all: destruct (Hp _ eq_refl) as (Hload & _ & _).
  all: eapply wp_mono; [by apply Hload | | done]; cbn beta.
  all: intros l st' [Hreg' Hl]; wp_steps; solve_registry.
Qed.

Lemma appopen_keeps args_wopisrc args_acctok platform st :
  toclose_nonempty (openfiles st) →
  wp (appopen W cfg args_wopisrc args_acctok platform)
     (λ _ st', toclose_nonempty (openfiles st'))
     (λ _ st', toclose_nonempty (openfiles st')) st.
Proof.
  intros Hreg. unfold appopen.
  wp_steps; try (solve_registry; fail).
  - eapply wp_mono;
      [apply open_readwrite_keeps; [intros p Hp; exact (Hplugins _ _ Hp) | done] | |];
      cbn beta.
    + intros [l canwrite] st1 Hreg1. wp_steps; try (solve_registry; fail).
      destruct (Hplugins _ _ ltac:(eassumption)) as (_ & _ & Hurl).
      eapply wp_mono; [by apply Hurl | | done]; cbn beta.
      intros url st2 Hreg2. by apply wp_ret.
    + intros e st1 Hreg1. wp_steps; solve_registry.
  - destruct (Hplugins _ _ ltac:(eassumption)) as (Hload & _ & Hurl).
    eapply wp_mono; [by apply Hload | |]; cbn beta.
    + intros l st1 [Hreg1 _]. wp_steps.
      eapply wp_mono; [by apply Hurl | | done]; cbn beta.
      intros url st2 Hreg2. by apply wp_ret.
    + intros e st1 Hreg1. wp_steps; solve_registry.
Qed.

End RegistryInvariant.

(* ===================================================================== *)
(** ** The CodiMD adapter leaves the registry alone *)
(* ===================================================================== *)

Section CodimdFrame.

Variables (W : world) (cc : codimd_config).

(** a postcondition that says the registry is the one of [st0] *)
Abbreviation same_registry st0 := (λ _ st', openfiles st' = openfiles st0).

Lemma unzip_entry_frame st0 mddoc zipinfo st :
  openfiles st = openfiles st0 →
  wp (unzip_entry W cc mddoc zipinfo) (same_registry st0) (same_registry st0) st.
Proof.
  intros Hreg. unfold unzip_entry, mddoc_replace, content_length_int.
  wp_steps; done.
Qed.

Lemma unzip_entries_frame st0 l : ∀ mddoc st,
  openfiles st = openfiles st0 →
  wp (unzip_entries W cc mddoc l) (same_registry st0) (same_registry st0) st.
Proof.
  induction l as [|zipinfo l IH]; intros mddoc st Hreg; cbn [unzip_entries].
  - by apply wp_ret.
  - apply wp_bind.
    eapply wp_mono; [by apply unzip_entry_frame | | done]; cbn beta.
    intros mddoc' st1 Hreg1. by apply IH.
Qed.

Lemma codimd_loadfromstorage_frame md wopisrc acctok docid st :
  wp (codimd_loadfromstorage W cc md wopisrc acctok docid)
     (λ l st', openfiles st' = openfiles st ∧ lk_toclose l ≠ ∅)
     (same_registry st) st.
Proof.
  unfold codimd_loadfromstorage, _unzipattachments, next_last_segment, bytes_decode.
  wp_steps; try done.
  eapply wp_mono; [by apply (unzip_entries_frame st) | | done]; cbn beta.
  intros mddoc st1 Hreg1. wp_steps; done.
Qed.

Lemma fetch_attachments_frame st0 l : ∀ entries resp st,
  openfiles st = openfiles st0 →
  wp (fetch_attachments W cc l entries resp) (same_registry st0) (same_registry st0) st.
Proof.
  induction l as [|attachment l IH]; intros entries resp st Hreg; cbn [fetch_attachments].
  - by apply wp_ret.
  - wp_steps; try done; by apply IH.
Qed.

Lemma codimd_savetostorage_frame wopisrc acctok isclose lk st :
  wp (codimd_savetostorage W cc wopisrc acctok isclose lk)
     (same_registry st) (same_registry st) st.
Proof.
  unfold codimd_savetostorage, _fetchfromcodimd, _getattachments, bytes_decode.
  wp_steps; try done.
  all: eapply wp_mono; [by apply (fetch_attachments_frame st) | | done]; cbn beta.
  all: intros [entries resp] st1 Hreg1; wp_steps; done.
Qed.

Lemma codimd_getredirecturl_frame rw wopisrc acctok lk name st :
  wp (codimd_getredirecturl W cc rw wopisrc acctok lk name)
     (same_registry st) (same_registry st) st.
Proof.
  unfold codimd_getredirecturl, next_last_segment. wp_steps; done.
Qed.

(** The CodiMD adapter meets what the registry invariant asks of a plugin. *)
Lemma codimd_keeps : plugin_keeps (codimd W cc).
Proof.
  split_and!; cbn [loadfromstorage savetostorage getredirecturl codimd].
  - intros md wopisrc acctok docid st Hreg.
    eapply wp_mono; [apply codimd_loadfromstorage_frame | |]; cbn beta.
    + intros l st' [-> Hl]. done.
    + by intros _ st' ->.
  - intros wopisrc acctok isclose l st Hreg.
    eapply wp_mono; [apply codimd_savetostorage_frame | |]; cbn beta; by intros _ st' ->.
  - intros rw wopisrc acctok l name st Hreg.
    eapply wp_mono; [apply codimd_getredirecturl_frame | |]; cbn beta; by intros _ st' ->.
Qed.

End CodimdFrame.

(* ===================================================================== *)
(** ** The registry invariant *)
(* ===================================================================== *)


Lemma relock_world_locks_nonempty : locks_nonempty Scenario.relock_world.
Proof.
  intros n l [Hl|[Hl|Hl]]; cbn in Hl; simplify_eq; apply insert_non_empty.
Qed.

Lemma plain_config_plugins_keep W : plugins_keep (Scenario.plain_config W).
Proof.
  intros name p. cbn [plugins Scenario.plain_config].
  destruct (String.eqb name "codimd"); [|done]. intros [= <-]. apply codimd_keeps.
Qed.


(** The assumption on the locks carries weight: the bridge does not look at
    the close-map of a lock that it reads. Were storage to answer [getlock]
    with a lock whose close-map is empty, which the bridge never writes, the
    cleanup phase would take its keys from that lock and leave the record of
    the file with an empty close-map. *)
Lemma cleanup_empties_toclose :
  let W := Scenario.hollow_lock_world in
  let cfg := Scenario.plain_config W in
  let st := (cycle W cfg
               (appsave W cfg (Some (Scenario.file1 +:+ "?t=" +:+ Scenario.user1))
                        (Some "true") (Some "/docid") Scenario.empty_state).2).2 in
  reachable W cfg st
  ∧ toclose <$> openfiles st !! Scenario.file1 = Some ∅
  ∧ ¬ toclose_nonempty (openfiles st).
Proof.
  intros W cfg st.
  assert (toclose <$> openfiles st !! Scenario.file1 = Some ∅) as Hempty
    by (vm_compute; reflexivity).
  split_and!; [|done|].
  - apply reach_cycle, reach_save, reach_start.
  - intros Hreg. destruct (openfiles st !! Scenario.file1) as [r|] eqn:Hr; [|done].
    injection Hempty as Hempty. exact (Hreg _ _ Hr Hempty).
Qed.

(* ===================================================================== *)
(** ** The boolean reductions and the reconciliation of close-maps *)
(* ===================================================================== *)

Lemma fold_left_andb l x : fold_left andb l x = x && forallb id l.
Proof.
  revert x. induction l as [|y l IH]; intros x; cbn [fold_left forallb].
  - by rewrite andb_true_r.
  - rewrite IH. unfold id. by rewrite andb_assoc.
Qed.

Lemma fold_left_orb l x : fold_left orb l x = x || existsb id l.
Proof.
  revert x. induction l as [|y l IH]; intros x; cbn [fold_left existsb].
  - by rewrite orb_false_r.
  - rewrite IH. unfold id. by rewrite orb_assoc.
Qed.

Lemma elem_of_dict_values {A} (m : gmap string A) v :
  v ∈ dict_values m ↔ ∃ t, m !! t = Some v.
Proof.
  unfold dict_values. rewrite list_elem_of_fmap. split.
  - intros ([t v'] & -> & Hin). exists t. by apply elem_of_map_to_list.
  - intros [t Ht]. exists (t, v). split; [done|]. by apply elem_of_map_to_list.
Qed.

Lemma forallb_dict_values (m : gmap string bool) :
  forallb id (dict_values m) = true ↔ ∀ t v, m !! t = Some v → v = true.
Proof.
  rewrite forallb_forall. split.
  - intros Hall t v Ht. apply (Hall v), list_elem_of_In, elem_of_dict_values. eauto.
  - intros Hall v [t Ht]%list_elem_of_In%elem_of_dict_values. exact (Hall t v Ht).
Qed.

Lemma existsb_dict_values (m : gmap string bool) :
  existsb id (dict_values m) = true ↔ ∃ t, m !! t = Some true.
Proof.
  rewrite existsb_exists. split.
  - intros (v & [t Ht]%list_elem_of_In%elem_of_dict_values & Hv).
    unfold id in Hv. subst v. eauto.
  - intros [t Ht]. exists true. split; [|done].
    apply list_elem_of_In, elem_of_dict_values. eauto.
Qed.

Lemma intersection_value (m : gmap string bool) :
  m ≠ ∅ → _intersection m = Ok (forallb id (dict_values m)).
Proof.
  intros Hm. unfold _intersection, reduce.
  destruct (dict_values m) as [|x l] eqn:Hl; [by apply dict_values_nil in Hl|].
  by rewrite fold_left_andb.
Qed.

Lemma union_value (m : gmap string bool) :
  m ≠ ∅ → _union m = Ok (existsb id (dict_values m)).
Proof.
  intros Hm. unfold _union, reduce.
  destruct (dict_values m) as [|x l] eqn:Hl; [by apply dict_values_nil in Hl|].
  by rewrite fold_left_orb.
Qed.

Lemma intersection_is_conjunction (m : gmap string bool) (b : bool) :
  _intersection m = Ok b
  ↔ m ≠ ∅ ∧ (b = true ↔ ∀ t v, m !! t = Some v → v = true).
Proof.
  split.
  - intros Hb. assert (m ≠ ∅) as Hm by (apply intersection_total_iff; eauto).
    split; [done|]. rewrite (intersection_value m Hm) in Hb. injection Hb as <-.
    apply forallb_dict_values.
  - intros [Hm Hb]. rewrite (intersection_value m Hm). f_equal.
    apply eq_true_iff_eq. by rewrite forallb_dict_values.
Qed.

Lemma union_is_disjunction (m : gmap string bool) (b : bool) :
  _union m = Ok b ↔ m ≠ ∅ ∧ (b = true ↔ ∃ t, m !! t = Some true).
Proof.
  split.
  - intros Hb. assert (m ≠ ∅) as Hm by (apply union_total_iff; eauto).
    split; [done|]. rewrite (union_value m Hm) in Hb. injection Hb as <-.
    apply existsb_dict_values.
  - intros [Hm Hb]. rewrite (union_value m Hm). f_equal.
    apply eq_true_iff_eq. by rewrite existsb_dict_values.
Qed.

(** X1: [_intersection] and [_union] answer on the maps that have an entry: the
    first says whether every participant has closed, the second whether some
    participant has. *)
Theorem reductions_are_and_or (m : gmap string bool) (b : bool) :
  (_intersection m = Ok b
   ↔ m ≠ ∅ ∧ (b = true ↔ ∀ t v, m !! t = Some v → v = true))
  ∧ (_union m = Ok b ↔ m ≠ ∅ ∧ (b = true ↔ ∃ t, m !! t = Some true)).
Proof. split; [apply intersection_is_conjunction | apply union_is_disjunction]. Qed.

(** X2: The close-map that [cleanup] rebuilds has the participants of the lock
    and no other: a token that only the registry knows is dropped; a
    participant counts as closed when the lock or the registry says so. *)
Theorem reconcile_keys_and_flags (mine theirs : gmap string bool) :
  dom (reconcile mine theirs) = dom theirs
  ∧ (∀ t, theirs !! t = None → reconcile mine theirs !! t = None)
  ∧ (∀ t, reconcile mine theirs !! t = Some true
          ↔ theirs !! t = Some true ∨ (is_Some (theirs !! t) ∧ mine !! t = Some true)).
Proof.
  split_and!.
  - apply set_eq. intros t. rewrite !elem_of_dom, reconcile_lookup.
    by rewrite fmap_is_Some.
  - intros t Ht. by rewrite reconcile_lookup, Ht.
  - intros t. rewrite reconcile_lookup.
    destruct (theirs !! t) as [[]|], (mine !! t) as [[]|]; cbn;
      split; try done; eauto; intros [?|[[? ?] ?]]; done.
Qed.

(* ===================================================================== *)
(** ** More on the [/save] handler *)
(* ===================================================================== *)

Lemma chars_append (s1 s2 : string) : chars (s1 +:+ s2) = chars s1 ++ chars s2.
Proof.
  unfold chars. induction s1 as [|c s1 IH]; [done|].
  change (String c s1 +:+ s2) with (String c (s1 +:+ s2)).
  cbn [list_ascii_of_string]. by rewrite IH.
Qed.

(** closing a goal [extends clock_or_notify st st'] whose trace is explicit *)
Ltac solve_clock_or_notify :=
  unfold extends; state_simpl;
  repeat (apply trace_extends_cons; [first [by left | by right]|]);
  apply trace_extends_nil.

(** What [/save] does once the metadata are read. *)
Lemma appsave_parsed W cfg header close id st w a :
  parse_meta header = Ok (w, a) →
  wp (appsave W cfg header close id)
     (λ reply st',
        extends clock_or_notify st st'
        ∧ saveresponses st' = delete w (saveresponses st)
        ∧ match openfiles st !! w with
          | Some r =>
              reply = Reply (default (StoredResp (Resp "{}" ACCEPTED)) (saveresponses st !! w))
              ∧ openfiles st'
                = <[w := OpenFile (acctok r) true (lastsave r)
                                  (<[shorttok a := isclose_arg close]> (toclose r))
                                  (docid r)]> (openfiles st)
          | None =>
              reply = Reply (StoredResp (Resp "{}" ACCEPTED))
              ∧ openfiles st'
                = <[w := OpenFile a true
                           (int_of_Q (Qminus (time_time W (length (trace st)))
                                             (inject_Z (saveinterval cfg))))
                           {[ shorttok a := isclose_arg close ]} id]> (openfiles st)
          end)
     (λ _ _, False) st.
Proof.
  intros Hmeta. unfold appsave. rewrite Hmeta.
  wp_steps.
  all: simplify_eq.
  all: repeat match goal with
       | H : delete _ _ !! _ = Some _ |- _ => by rewrite lookup_delete_eq in H
       | H1 : ?m !! ?k = _, H2 : ?m !! ?k = _ |- _ => rewrite H1 in H2; simplify_eq
       end.
  all: split_and!; try done; try solve_clock_or_notify;
    rewrite ?delete_delete_eq; try done; symmetry; by apply delete_id.
Qed.

Lemma appsave_unparsed W cfg header close id st e :
  parse_meta header = Raise e →
  appsave W cfg header close id st
  = (Ok (Reply (StoredResp
           (Resp (jsonify W ("Malformed or missing metadata, could not save. " +:+ RECOVER_MSG))
                 INTERNAL_SERVER_ERROR))), st).
Proof.
  intros Hmeta. unfold appsave. rewrite Hmeta.
  by destruct (parse_meta_raises _ _ Hmeta) as [[k ->]|[k ->]].
Qed.

(** a run that [wp] pins down *)
Lemma wp_run_eq {A} (m : M A) (a0 : A) (st0 st : state) :
  wp m (λ a st', a = a0 ∧ st' = st0) (λ _ _, False) st → m st = (Ok a0, st0).
Proof. unfold wp. destruct (m st) as [[a|e] st']; [by intros [-> ->]|done]. Qed.

(** what a run tells once [wp] is known *)
Lemma wp_returns {A} (m : M A) Q st :
  wp m Q (λ _ _, False) st → ∃ a st', m st = (Ok a, st') ∧ Q a st'.
Proof. unfold wp. destruct (m st) as [[a|e] st']; [eauto|done]. Qed.

(** X3: [/save] only enqueues. Whatever the request and the state, and
    however the call ends, the handler reaches neither storage nor the app:
    the calls that it makes to the outside are reads of the clock and the
    notify of the save thread. *)
Theorem appsave_is_asynchronous W cfg header close id st :
  extends clock_or_notify st (appsave W cfg header close id st).2.
Proof.
  destruct (parse_meta header) as [[w a]|e] eqn:Hmeta.
  - destruct (wp_returns _ _ _ (appsave_parsed W cfg header close id st w a Hmeta))
      as (reply & st' & Hrun & Hext & _). by rewrite Hrun.
  - rewrite (appsave_unparsed W cfg header close id st e Hmeta).
    apply trace_extends_nil.
Qed.

(** X4: A request whose metadata header is missing, or lacks the [?t=] that
    separates the WOPI source from the token, is answered [500] and changes
    nothing. *)
Theorem appsave_malformed_metadata W cfg header close id st :
  (∀ meta, header = Some meta → find_sub (chars "?t=") (chars meta) = None) →
  appsave W cfg header close id st
  = (Ok (Reply (StoredResp
           (Resp (jsonify W ("Malformed or missing metadata, could not save. " +:+ RECOVER_MSG))
                 INTERNAL_SERVER_ERROR))), st).
Proof.
  intros Hbad.
  assert (∃ e, parse_meta header = Raise e) as [e He].
  { unfold parse_meta. destruct header as [meta|]; [|eauto].
    unfold str_index. rewrite (Hbad meta eq_refl). cbn. eauto. }
  by eapply appsave_unparsed.
Qed.

Lemma appsave_malformed_metadata_witness :
  let W := Scenario.still_world 1000 in
  appsave W (Scenario.plain_config W) (Some "https://storage/wopi/files/1") (Some "true")
          None Scenario.one_open
  = (Ok (Reply (StoredResp
           (Resp (jsonify W ("Malformed or missing metadata, could not save. " +:+ RECOVER_MSG))
                 INTERNAL_SERVER_ERROR))), Scenario.one_open).
Proof.
  intros W. apply (appsave_malformed_metadata W (Scenario.plain_config W)).
  intros meta [= <-]. vm_compute. reflexivity.
Defined.

(** X5: The response that the save thread left for a file is handed to the next
    [/save] of that file and removed from the map, so that a second [/save]
    gets the plain acknowledgement; the response of a file that the registry
    does not know is discarded. *)
Theorem appsave_hands_response_once W cfg header close id st w a :
  parse_meta header = Ok (w, a) →
  let accepted := StoredResp (Resp "{}" ACCEPTED) in
  let run := appsave W cfg header close id st in
  run.1 = Ok (Reply (match openfiles st !! w with
                     | Some _ => default accepted (saveresponses st !! w)
                     | None => accepted
                     end))
  ∧ saveresponses run.2 = delete w (saveresponses st)
  ∧ (appsave W cfg header close id run.2).1 = Ok (Reply accepted).
Proof.
  intros Hmeta accepted run. subst run.
  destruct (wp_returns _ _ _ (appsave_parsed W cfg header close id st w a Hmeta))
    as (reply & st' & -> & _ & Hsr & Hreg).
  cbn [fst snd].
  assert (is_Some (openfiles st' !! w)) as [r' Hr'].
  { destruct (openfiles st !! w); destruct Hreg as [_ ->];
      rewrite lookup_insert_eq; eauto. }
  split_and!.
  - by destruct (openfiles st !! w); destruct Hreg as [-> _].
  - done.
  - destruct (wp_returns _ _ _ (appsave_parsed W cfg header close id st' w a Hmeta))
      as (reply2 & st2 & -> & _ & _ & Hreg2).
    rewrite Hr', Hsr, lookup_delete_eq in Hreg2. by destruct Hreg2 as [-> _].
Qed.

Lemma appsave_hands_response_once_witness :
  let W := Scenario.still_world 1000 in
  let cfg := Scenario.plain_config W in
  let header := Some (Scenario.file1 +:+ "?t=" +:+ Scenario.user1) in
  let failed := StoredResp (Resp "could not save" INTERNAL_SERVER_ERROR) in
  let st := State (openfiles Scenario.one_open) {[ Scenario.file1 := failed ]} [] in
  let run := appsave W cfg header None None st in
  run.1 = Ok (Reply failed)
  ∧ saveresponses run.2 = delete Scenario.file1 (saveresponses st)
  ∧ (appsave W cfg header None None run.2).1 = Ok (Reply (StoredResp (Resp "{}" ACCEPTED))).
Proof.
  intros W cfg header failed st run.
  exact (appsave_hands_response_once W cfg header None None st Scenario.file1 Scenario.user1
           eq_refl).
Defined.

(** X6: [/save] marks the record of the file as dirty and writes the close flag
    under the short token; the record keeps its access token, its time of
    last save and its document id, whoever sends the request. A file that
    the registry does not know gets a record made of the request: its token,
    its [id] argument, and a time of last save one save interval in the
    past. *)
Theorem appsave_marks_record_dirty W cfg header close id st w a :
  parse_meta header = Ok (w, a) →
  openfiles (appsave W cfg header close id st).2
  = <[w := match openfiles st !! w with
           | Some r =>
               OpenFile (acctok r) true (lastsave r)
                        (<[shorttok a := isclose_arg close]> (toclose r)) (docid r)
           | None =>
               OpenFile a true
                        (int_of_Q (Qminus (time_time W (length (trace st)))
                                          (inject_Z (saveinterval cfg))))
                        {[ shorttok a := isclose_arg close ]} id
           end]> (openfiles st).
Proof.
  intros Hmeta.
  destruct (wp_returns _ _ _ (appsave_parsed W cfg header close id st w a Hmeta))
    as (reply & st' & -> & _ & _ & Hreg).
  cbn [snd]. by destruct (openfiles st !! w); destruct Hreg as [_ ->].
Qed.

Lemma appsave_marks_record_dirty_witness :
  let W := Scenario.still_world 1000 in
  let cfg := Scenario.plain_config W in
  openfiles (appsave W cfg (Some ("https://storage/wopi/files/2?t=token-of-user-2"))
                     (Some "true") (Some "/docid2") Scenario.one_open).2
  = <[ "https://storage/wopi/files/2" :=
         OpenFile "token-of-user-2" true 800 {[ "token-of-user-2" := true ]} (Some "/docid2") ]>
      (openfiles Scenario.one_open).
Proof.
  intros W cfg.
  exact (appsave_marks_record_dirty W cfg
           (Some "https://storage/wopi/files/2?t=token-of-user-2") (Some "true")
           (Some "/docid2") Scenario.one_open
           "https://storage/wopi/files/2" "token-of-user-2" eq_refl).
Defined.

(* ===================================================================== *)
(** ** The metadata of a save request *)
(* ===================================================================== *)

Lemma find_sub_unfold p l :
  find_sub p l = if starts_with p l then Some O
                 else match l with
                      | [] => None
                      | _ :: l' => S <$> find_sub p l'
                      end.
Proof. by destruct l. Qed.

Lemma starts_with_app p rest : starts_with p (p ++ rest) = true.
Proof.
  induction p as [|c p IH]; [done|]. cbn [app starts_with].
  by rewrite Ascii.eqb_refl, IH.
Qed.

(** the first occurrence of [p] in [w ++ p ++ rest], when the first
    character of [p] does not occur in [w] *)
Lemma find_sub_after c p w rest :
  c ∉ w → find_sub (c :: p) (w ++ (c :: p) ++ rest) = Some (length w).
Proof.
  induction w as [|x w IH]; intros Hc.
  - rewrite app_nil_l, find_sub_unfold. by rewrite (starts_with_app (c :: p)).
  - apply not_elem_of_cons in Hc as [Hx Hw].
    rewrite find_sub_unfold. cbn [app starts_with].
    destruct (Ascii.eqb_spec c x) as [->|_]; [done|].
    cbn [andb]. rewrite <- app_comm_cons in IH. rewrite IH by done. done.
Qed.

Lemma parse_meta_joined (wopisrc acctok : string) :
  "?"%char ∉ chars wopisrc →
  parse_meta (Some (wopisrc +:+ "?t=" +:+ acctok)) = Ok (wopisrc, acctok).
Proof.
  intros Hw. unfold parse_meta, str_index, str_take, str_drop.
  rewrite !chars_append.
  change (chars "?t=") with ("?"%char :: ["t"; "="]%char).
  rewrite (find_sub_after _ _ _ _ Hw). cbn [res_bind mbind res_mbind].
  rewrite take_app_length.
  rewrite <- drop_drop, drop_app_length. cbn [drop app]. rewrite drop_0.
  by rewrite !unchars_chars.
Qed.

(** X7: The redirect of a read-write open carries the WOPI source and the token
    as [wopisrc?t=acctok]; when the source has no question mark, [/save]
    reads that text back as the same source and token. The adapter builds
    this redirect without any call. *)
Theorem save_metadata_round_trip W cc wopisrc acctok lk displayname st :
  "?"%char ∉ chars wopisrc →
  ∃ meta,
    codimd_getredirecturl W cc true wopisrc acctok lk displayname st
    = (Ok (appexturl cc +:+ lk_docid lk +:+ "?metadata=" +:+ quote_plus W meta
             +:+ "&apiKey=" +:+ apikey cc +:+ "&displayName=" +:+ displayname), st)
    ∧ parse_meta (Some meta) = Ok (wopisrc, acctok).
Proof.
  intros Hw. exists (wopisrc +:+ "?t=" +:+ acctok). split; [done|].
  by apply parse_meta_joined.
Qed.

Lemma save_metadata_round_trip_witness :
  ∃ meta,
    codimd_getredirecturl (Scenario.still_world 1000) Scenario.codimd_here true
      Scenario.file1 Scenario.user1 Scenario.relock_lock "Ann" Scenario.empty_state
    = (Ok ("https://codimd.example.org" +:+ "/docid" +:+ "?metadata=" +:+ meta
             +:+ "&apiKey=" +:+ "key" +:+ "&displayName=" +:+ "Ann"), Scenario.empty_state)
    ∧ parse_meta (Some meta) = Ok (Scenario.file1, Scenario.user1).
Proof.
  apply (save_metadata_round_trip (Scenario.still_world 1000) Scenario.codimd_here
           Scenario.file1 Scenario.user1 Scenario.relock_lock "Ann" Scenario.empty_state).
  intros Hin%list_elem_of_In. vm_compute in Hin. intuition discriminate.
Defined.

(* ===================================================================== *)
(** ** The CodiMD adapter works on the app and on storage only *)
(* ===================================================================== *)

Lemma wp_any {A} (m : M A) st : wp m (λ _ _, True) (λ _ _, True) st.
Proof. unfold wp. by destruct (m st) as [[a|e] st']. Qed.

Lemma untouched_refl st : untouched st st.
Proof. done. Qed.

Section CodimdUntouched.

Variables (W : world) (cc : codimd_config).

(** a postcondition that says the two maps are those of [st0] *)
Abbreviation same_maps st0 := (λ _ st', untouched st0 st').

Lemma unzip_entry_untouched st0 mddoc zipinfo st :
  untouched st0 st →
  wp (unzip_entry W cc mddoc zipinfo) (same_maps st0) (same_maps st0) st.
Proof.
  intros Hreg. unfold unzip_entry, mddoc_replace, content_length_int.
  wp_steps; exact Hreg.
Qed.

Lemma unzip_entries_untouched st0 l : ∀ mddoc st,
  untouched st0 st →
  wp (unzip_entries W cc mddoc l) (same_maps st0) (same_maps st0) st.
Proof.
  induction l as [|zipinfo l IH]; intros mddoc st Hreg; cbn [unzip_entries].
  - by apply wp_ret.
  - apply wp_bind.
    eapply wp_mono; [by apply unzip_entry_untouched | | done]; cbn beta.
    intros mddoc' st1 Hreg1. by apply IH.
Qed.

Lemma codimd_loadfromstorage_untouched md wopisrc acctok docid st :
  wp (codimd_loadfromstorage W cc md wopisrc acctok docid)
     (same_maps st) (same_maps st) st.
Proof.
  unfold codimd_loadfromstorage, _unzipattachments, next_last_segment, bytes_decode.
  wp_steps; try exact (untouched_refl st).
  eapply wp_mono; [apply (unzip_entries_untouched st); exact (untouched_refl st) | | done];
    cbn beta.
  intros mddoc st1 Hreg1. wp_steps; exact Hreg1.
Qed.

Lemma fetch_attachments_untouched st0 l : ∀ entries resp st,
  untouched st0 st →
  wp (fetch_attachments W cc l entries resp) (same_maps st0) (same_maps st0) st.
Proof.
  induction l as [|attachment l IH]; intros entries resp st Hreg; cbn [fetch_attachments].
  - by apply wp_ret.
  - wp_steps; try exact Hreg; by apply IH.
Qed.

Lemma codimd_savetostorage_untouched wopisrc acctok isclose lk st :
  wp (codimd_savetostorage W cc wopisrc acctok isclose lk)
     (same_maps st) (same_maps st) st.
Proof.
  unfold codimd_savetostorage, _fetchfromcodimd, _getattachments, bytes_decode.
  wp_steps; try exact (untouched_refl st).
  all: eapply wp_mono;
    [apply (fetch_attachments_untouched st); exact (untouched_refl st) | | done]; cbn beta.
  all: intros [entries resp] st1 Hreg1; wp_steps; exact Hreg1.
Qed.

Lemma codimd_getredirecturl_untouched rw wopisrc acctok lk name st :
  wp (codimd_getredirecturl W cc rw wopisrc acctok lk name)
     (same_maps st) (same_maps st) st.
Proof.
  unfold codimd_getredirecturl, next_last_segment. wp_steps; exact (untouched_refl st).
Qed.

Lemma codimd_frames : plugin_frames (codimd W cc).
Proof.
  split_and!; cbn [loadfromstorage savetostorage getredirecturl codimd]; intros.
  - apply codimd_loadfromstorage_untouched.
  - apply codimd_savetostorage_untouched.
  - apply codimd_getredirecturl_untouched.
Qed.

End CodimdUntouched.

Lemma plain_config_plugins_frame W : plugins_frame (Scenario.plain_config W).
Proof.
  intros name p. cbn [plugins Scenario.plain_config].
  destruct (String.eqb name "codimd"); [|done]. intros [= <-]. apply codimd_frames.
Qed.

(* ===================================================================== *)
(** ** More on the [/open] handler *)
(* ===================================================================== *)

(** Every exception of the read-write branch is raised before the registry
    is written. *)
Lemma open_readwrite_raises_untouched W cfg app md wopisrc acctok st :
  (∀ p, app = Some p → plugin_frames p) →
  wp (open_readwrite W cfg app md wopisrc acctok)
     (λ _ _, True) (λ _ st', untouched st st') st.
Proof.
  intros Hp. unfold open_readwrite.
  wp_steps; try exact (untouched_refl st); try done.
  all: destruct (Hp _ eq_refl) as (Hload & _ & _).
  all: eapply wp_mono; [by apply Hload | | done]; cbn beta.
  all: intros l st' Hst'; wp_steps; try exact Hst'; done.
Qed.

Lemma appopen_page_untouched W cfg args_wopisrc args_acctok platform st :
  plugins_frame cfg →
  wp (appopen W cfg args_wopisrc args_acctok platform)
     (λ r st', ∀ html code, r = Page html code → untouched st st')
     (λ _ _, True) st.
Proof.
  intros Hplugins. unfold appopen.
  wp_steps; try done; try (intros ? ? _; exact (untouched_refl st)).
  - eapply wp_mono;
      [apply open_readwrite_raises_untouched; intros p Hp; exact (Hplugins _ _ Hp) | |];
      cbn beta.
    + intros [l canwrite] st1 _. wp_steps; try done.
      eapply wp_mono; [apply wp_any | | done]; cbn beta.
      intros url st2 _. by wp_steps.
    + intros e st1 Hst1. destruct (plugins cfg _); [|by wp_steps].
      destruct e; try done. wp_steps. intros ? ? _. exact Hst1.
  - destruct (Hplugins _ _ ltac:(eassumption)) as (Hload & _ & _).
    eapply wp_mono; [by apply Hload | |]; cbn beta.
    + intros l st1 _. wp_steps.
      eapply wp_mono; [apply wp_any | | done]; cbn beta.
      intros url st2 _. by wp_steps.
    + intros e st1 Hst1. destruct e; try done. wp_steps. intros ? ? _. exact Hst1.
Qed.

(** X8: An [/open] that ends in an error page has left the registry and the
    save-response map as they were: a missing argument, a WOPI source that
    storage does not know, a file type without plugin, an app that fails
    while it loads the document. *)
Theorem appopen_error_page_changes_nothing W cfg args_wopisrc args_acctok platform st :
  plugins_frame cfg →
  ∀ html code,
    (appopen W cfg args_wopisrc args_acctok platform st).1 = Ok (Page html code) →
    untouched st (appopen W cfg args_wopisrc args_acctok platform st).2.
Proof.
  intros Hplugins html code.
  pose proof (appopen_page_untouched W cfg args_wopisrc args_acctok platform st Hplugins)
    as Hwp.
  unfold wp in Hwp.
  destruct (appopen W cfg args_wopisrc args_acctok platform st) as [[r|e] st']; [|done].
  cbn [fst snd]. intros [= ->]. eauto.
Qed.

Lemma appopen_error_page_changes_nothing_witness :
  let W := Scenario.app_down_world Scenario.notes_rw in
  let cfg := Scenario.plain_config W in
  let run := appopen W cfg (Some Scenario.file1) (Some "token-of-user-2") None
                     Scenario.one_open in
  run.1 = Ok (Page (_guireturn
                      "Unable to load the app, please try again later or contact support")
                   INTERNAL_SERVER_ERROR)
  ∧ untouched Scenario.one_open run.2.
Proof.
  intros W cfg run.
  assert (run.1 = Ok (Page (_guireturn
                      "Unable to load the app, please try again later or contact support")
                   INTERNAL_SERVER_ERROR)) as Hrun by (vm_compute; reflexivity).
  split; [exact Hrun|].
  exact (appopen_error_page_changes_nothing W cfg (Some Scenario.file1)
           (Some "token-of-user-2") None Scenario.one_open
           (plain_config_plugins_frame W) _ _ Hrun).
Defined.

Lemma handled_raise W (m : M flask_response) st e st' :
  m st = (Raise e, st') →
  handled W m st
  = (Ok (Reply (StoredResp
           (Resp (jsonify W ("Internal error, please contact support. " +:+ RECOVER_MSG))
                 INTERNAL_SERVER_ERROR))), st').
Proof. intros Hrun. unfold handled, try_except. by rewrite Hrun. Qed.

(** X9: When the plugin of a supported file type could not be initialised,
    [/open] of such a file raises [AttributeError] once the metadata are
    read, whatever storage answers afterwards: there is no error page for
    a disabled plugin, and the client gets the [500] of the handler of
    uncaught exceptions. *)
Theorem appopen_disabled_plugin_raises W cfg wopisrc tok platform st res md appname :
  wopi_request W (length (trace st)) = Ok res →
  status_code res = OK →
  json_filemd res = Some md →
  BRIDGE_EXT_PLUGINS !! str_drop 1 (splitext (BaseFileName md)).2 = Some appname →
  plugins cfg appname = None →
  (appopen W cfg (Some wopisrc) (Some tok) platform st).1 = Raise AttributeError
  ∧ (handled W (appopen W cfg (Some wopisrc) (Some tok) platform) st).1
    = Ok (Reply (StoredResp
            (Resp (jsonify W ("Internal error, please contact support. " +:+ RECOVER_MSG))
                  INTERNAL_SERVER_ERROR))).
Proof.
  intros Hres Hok Hmd Happ Hnone.
  assert ((appopen W cfg (Some wopisrc) (Some tok) platform st).1 = Raise AttributeError)
    as Hraise.
  { apply wp_raises.
    unfold appopen. wp_straight. rewrite Hres, Hok, Z.eqb_refl. wp_straight.
    rewrite Hmd. wp_straight. rewrite Happ, Hnone. wp_straight.
    eapply wp_mono; [apply wp_any | |]; cbn beta.
    - intros [l canwrite] st1 _. by wp_straight.
    - intros e st1 _. by wp_straight. }
  split; [exact Hraise|].
  destruct (appopen W cfg (Some wopisrc) (Some tok) platform st) as [r st'] eqn:Hrun.
  cbn [fst] in Hraise. subst r. by rewrite (handled_raise _ _ _ _ _ Hrun).
Qed.

Lemma appopen_disabled_plugin_raises_witness :
  let W := Scenario.serving_world Scenario.pad_epd in
  let open := appopen W (Scenario.plain_config W) (Some Scenario.file1)
                      (Some Scenario.user1) None in
  (open Scenario.empty_state).1 = Raise AttributeError
  ∧ (handled W open Scenario.empty_state).1
    = Ok (Reply (StoredResp
            (Resp ("Internal error, please contact support. " +:+ RECOVER_MSG)
                  INTERNAL_SERVER_ERROR))).
Proof.
  intros W open.
  apply (appopen_disabled_plugin_raises W (Scenario.plain_config W) Scenario.file1
           Scenario.user1 None Scenario.empty_state
           (Scenario.metadata_response Scenario.pad_epd) Scenario.pad_epd "etherpad").
  - reflexivity.
  - reflexivity.
  - reflexivity.
  - vm_compute; reflexivity.
  - reflexivity.
Defined.

(** What the read-write branch of [/open] leaves in the two maps. *)
Lemma open_readwrite_registers W cfg app md wopisrc tok st :
  (∀ p, app = Some p → plugin_frames p) →
  wp (open_readwrite W cfg app md wopisrc tok)
     (λ _ st',
        (∃ r, openfiles st' = <[wopisrc := r]> (openfiles st)
              ∧ acctok r = tok
              ∧ ∀ r0, openfiles st !! wopisrc = Some r0 →
                      tosave r = tosave r0 ∧ lastsave r = lastsave r0 ∧ docid r = docid r0)
        ∧ saveresponses st' = delete wopisrc (saveresponses st))
     (λ _ _, True) st.
Proof.
  intros Hp. unfold open_readwrite.
  assert (∀ (r : openfile) (o : option openfile) (srs : gmap string stored),
            acctok r = tok →
            (∀ r0, o = Some r0 →
                   tosave r = tosave r0 ∧ lastsave r = lastsave r0 ∧ docid r = docid r0) →
            (∃ r', <[wopisrc := r]> (openfiles st) = <[wopisrc := r']> (openfiles st)
                   ∧ acctok r' = tok
                   ∧ ∀ r0, o = Some r0 →
                           tosave r' = tosave r0 ∧ lastsave r' = lastsave r0
                           ∧ docid r' = docid r0)
            ∧ srs = srs) as Hdone by (intros; split; [eauto|done]).
  wp_steps; try done; try (apply Hdone; [done|]; intros; by simplify_eq).
  all: destruct (Hp _ eq_refl) as (Hload & _ & _).
  all: eapply wp_mono; [by apply Hload | | done]; cbn beta.
  all: intros l st1 [Hof Hsr]; wp_steps; try done; rewrite ?Hof, ?Hsr in *.
  all: simplify_eq; apply Hdone; [done|]; intros; by simplify_eq.
Qed.

Lemma appopen_readwrite_wp W cfg wopisrc tok platform st res md :
  plugins_frame cfg →
  wopi_request W (length (trace st)) = Ok res →
  json_filemd res = Some md →
  UserCanWrite md = true →
  wp (appopen W cfg (Some wopisrc) (Some tok) platform)
     (λ r st',
        redirected (Ok r) = true →
        (∃ r, openfiles st' = <[wopisrc := r]> (openfiles st)
              ∧ acctok r = tok
              ∧ ∀ r0, openfiles st !! wopisrc = Some r0 →
                      tosave r = tosave r0 ∧ lastsave r = lastsave r0 ∧ docid r = docid r0)
        ∧ saveresponses st' = delete wopisrc (saveresponses st))
     (λ _ _, True) st.
Proof.
  intros Hplugins Hres Hmd Hcw. unfold appopen.
  wp_straight. rewrite Hres. destruct (status_code res =? OK); [|by wp_straight].
  wp_straight. rewrite Hmd. wp_straight.
  destruct (BRIDGE_EXT_PLUGINS !! _) as [appname|]; [|by wp_straight].
  rewrite Hcw. wp_straight.
  eapply wp_mono;
    [apply open_readwrite_registers; intros p Hp; exact (Hplugins _ _ Hp) | |];
    cbn beta.
  - intros [l canwrite] st1 Hst1. wp_straight.
    destruct (plugins cfg appname) as [p|] eqn:Hp; [|by wp_straight].
    wp_straight.
    destruct (Hplugins _ _ Hp) as (_ & _ & Hurl).
    eapply wp_mono; [apply Hurl | | done]; cbn beta.
    intros url st2 [Hof Hsr]. wp_straight. intros _. by rewrite Hof, Hsr.
  - intros e st1 _. destruct (plugins cfg appname); [|by wp_straight].
    destruct e; try done; by wp_straight.
Qed.

(** X10: A read-write [/open] that ends in a redirect has registered the file
    under the token of the request and has dropped the response that was
    waiting for the file; a record that was there keeps its pending-save
    flag, its time of last save and its document id. *)
Theorem appopen_readwrite_registers W cfg wopisrc tok platform st res md :
  plugins_frame cfg →
  wopi_request W (length (trace st)) = Ok res →
  json_filemd res = Some md →
  UserCanWrite md = true →
  redirected (appopen W cfg (Some wopisrc) (Some tok) platform st).1 = true →
  let st' := (appopen W cfg (Some wopisrc) (Some tok) platform st).2 in
  (∃ r, openfiles st' = <[wopisrc := r]> (openfiles st)
        ∧ acctok r = tok
        ∧ ∀ r0, openfiles st !! wopisrc = Some r0 →
                tosave r = tosave r0 ∧ lastsave r = lastsave r0 ∧ docid r = docid r0)
  ∧ saveresponses st' = delete wopisrc (saveresponses st).
Proof.
  intros Hplugins Hres Hmd Hcw.
  pose proof (appopen_readwrite_wp W cfg wopisrc tok platform st res md Hplugins Hres Hmd Hcw)
    as Hwp.
  unfold wp in Hwp.
  destruct (appopen W cfg (Some wopisrc) (Some tok) platform st) as [[r|e] st']; [|done].
  cbn [fst snd]. exact Hwp.
Qed.

Lemma appopen_readwrite_registers_witness :
  let W := Scenario.serving_world Scenario.notes_rw in
  let cfg := Scenario.plain_config W in
  let st' := (appopen W cfg (Some Scenario.file1) (Some "token-of-user-2") None
                      Scenario.one_open).2 in
  (∃ r, openfiles st' = <[Scenario.file1 := r]> (openfiles Scenario.one_open)
        ∧ acctok r = "token-of-user-2"
        ∧ ∀ r0, openfiles Scenario.one_open !! Scenario.file1 = Some r0 →
                tosave r = tosave r0 ∧ lastsave r = lastsave r0 ∧ docid r = docid r0)
  ∧ saveresponses st' = delete Scenario.file1 (saveresponses Scenario.one_open).
Proof.
  intros W cfg.
  apply (appopen_readwrite_registers W cfg Scenario.file1 "token-of-user-2" None
           Scenario.one_open (Scenario.metadata_response Scenario.notes_rw)
           Scenario.notes_rw).
  - apply plain_config_plugins_frame.
  - reflexivity.
  - reflexivity.
  - reflexivity.
  - vm_compute; reflexivity.
Defined.

(* ===================================================================== *)
(** ** More on the save thread *)
(* ===================================================================== *)

Lemma process_doc_returns W cfg wopisrc r st :
  ∃ out st', process_doc W cfg wopisrc r st = (Ok out, st').
Proof.
  unfold process_doc, try_except.
  match goal with |- context [match ?m with _ => _ end] => destruct m as [[a|e] st'] end;
    eauto.
Qed.

Lemma process_docs_returns W cfg l : ∀ st,
  ∃ outs st', process_docs W cfg l st = (Ok outs, st') ∧ length outs = length l.
Proof.
  induction l as [|[wopisrc r] l IH]; intros st; cbn [process_docs].
  - by eexists [], st.
  - destruct (process_doc_returns W cfg wopisrc r st) as (out & st1 & Hrun).
    destruct (IH st1) as (outs & st2 & Hruns & Hlen).
    exists (out :: outs), st2. cbv [mbind M_bind bind]. rewrite Hrun, Hruns.
    split; [done|]. cbn [length]. by rewrite Hlen.
Qed.

(** X11: A round of the save thread goes through the whole snapshot of the
    registry: it never raises, and it has one outcome per record, so that
    the failure of one document does not keep the others from being
    processed. *)
Theorem cycle_one_outcome_per_record W cfg st :
  ∃ outs st',
    cycle W cfg st = (Ok outs, st') ∧ length outs = size (openfiles st).
Proof.
  destruct (process_docs_returns W cfg (map_to_list (openfiles st)) st)
    as (outs & st' & Hrun & Hlen).
  exists outs, st'. split; [exact Hrun|]. by rewrite Hlen, length_map_to_list.
Qed.

(** *** The save thread works on one record at a time *)

Lemma others_untouched_refl wopisrc st : others_untouched wopisrc st st.
Proof. by intros w Hw. Qed.

Lemma others_untouched_untouched wopisrc st0 st st' :
  others_untouched wopisrc st0 st → untouched st st' → others_untouched wopisrc st0 st'.
Proof. intros Hst [Hof Hsr] w Hw. rewrite Hof, Hsr. by apply Hst. Qed.

(** closing a goal [others_untouched wopisrc st0 st'] where [st'] is [st]
    with entries of [wopisrc] written or deleted *)
Ltac solve_others :=
  lazymatch goal with
  | H : others_untouched ?w ?st0 _ |- others_untouched ?w ?st0 _ =>
      let k := fresh "k" in
      let Hk := fresh "Hk" in
      intros k Hk; state_simpl;
      repeat first [ rewrite lookup_insert_ne by congruence
                   | rewrite lookup_delete_ne by congruence ];
      exact (H k Hk)
  end.

Lemma closewhenidle_others W cfg wopisrc o lk st0 st :
  others_untouched wopisrc st0 st →
  wp (closewhenidle W cfg wopisrc o lk)
     (λ _ st', others_untouched wopisrc st0 st')
     (λ _ st', others_untouched wopisrc st0 st') st.
Proof.
  intros Hst. unfold closewhenidle, write_obj, del_openfile. wp_steps; solve_others.
Qed.

Lemma cleanup_others W cfg wopisrc o lk st0 st :
  others_untouched wopisrc st0 st →
  wp (cleanup W cfg wopisrc o lk)
     (λ _ st', others_untouched wopisrc st0 st')
     (λ _ st', others_untouched wopisrc st0 st') st.
Proof.
  intros Hst. unfold cleanup, write_obj, del_openfile. wp_steps; solve_others.
Qed.

Lemma savedirty_others W cfg wopisrc o st0 st :
  plugins_frame cfg →
  others_untouched wopisrc st0 st →
  wp (savedirty W cfg wopisrc o)
     (λ _ st', others_untouched wopisrc st0 st')
     (λ _ st', others_untouched wopisrc st0 st') st.
Proof.
  intros Hplugins Hst.
  unfold savedirty, savedirty_guard, savedirty_lock, savedirty_dispatch, write_obj.
  wp_steps; try (solve_others; fail).
  all: match goal with
       | H : plugins _ _ = Some _ |- _ => destruct (Hplugins _ _ H) as (_ & Hsave & _)
       end.
  all: eapply wp_mono; [by apply Hsave | |]; cbn beta.
  all: intros ? st' Hst';
    match type of Hst' with
    | untouched ?st1 _ =>
        assert (others_untouched wopisrc st0 st1) as Hst1 by solve_others;
        pose proof (others_untouched_untouched _ _ _ _ Hst1 Hst') as Hst2
    end;
    clear Hst; wp_steps; clear Hst1; solve_others.
Qed.

Lemma process_doc_others W cfg wopisrc r st :
  plugins_frame cfg →
  wp (process_doc W cfg wopisrc r)
     (λ _ st', others_untouched wopisrc st st') (λ _ _, False) st.
Proof.
  intros Hplugins. unfold process_doc. apply wp_try, wp_bind.
  eapply wp_mono;
    [apply savedirty_others; [done | apply others_untouched_refl] | |]; cbn beta.
  - intros [o lk] st1 Hst1. apply wp_bind.
    eapply wp_mono; [by apply closewhenidle_others | |]; cbn beta.
    + intros [o' lk'] st2 Hst2. apply wp_bind.
      eapply wp_mono; [by apply cleanup_others | |]; cbn beta.
      * intros ? st3 Hst3. by apply wp_ret.
      * intros ? st3 Hst3. by apply wp_ret.
    + intros ? st2 Hst2. by apply wp_ret.
  - intros ? st1 Hst1. by apply wp_ret.
Qed.

(** X12: The three phases that the save thread runs for a document write to the
    record and to the response of that document only, as long as the
    adapters leave the two maps alone: the records and the responses of the
    other documents are the same afterwards. *)
Theorem process_doc_touches_own_record_only W cfg wopisrc r st :
  plugins_frame cfg →
  others_untouched wopisrc st (process_doc W cfg wopisrc r st).2.
Proof.
  intros Hplugins. pose proof (process_doc_others W cfg wopisrc r st Hplugins) as Hwp.
  unfold wp in Hwp. by destruct (process_doc W cfg wopisrc r st) as [[out|e] st'].
Qed.

Lemma process_doc_touches_own_record_only_witness :
  let W := Scenario.relock_world in
  let st' := (process_doc W (Scenario.plain_config W) Scenario.file1 Scenario.pending
                          Scenario.two_documents).2 in
  saveresponses st' !! Scenario.file1 = Some (StoredLock Scenario.relock_lock)
  ∧ openfiles st' !! Scenario.file2 = Some Scenario.idle2
  ∧ saveresponses st' !! Scenario.file2 = Some Scenario.saved2.
Proof.
  intros W st'.
  split; [vm_compute; reflexivity|].
  destruct (process_doc_touches_own_record_only W (Scenario.plain_config W) Scenario.file1
              Scenario.pending Scenario.two_documents (plain_config_plugins_frame W)
              Scenario.file2 ltac:(discriminate)) as [Hrecord Hresponse].
  split.
  - etransitivity; [exact Hrecord|]. vm_compute; reflexivity.
  - etransitivity; [exact Hresponse|]. vm_compute; reflexivity.
Defined.

(** *** Forced close, unlock and the records that are dropped *)

Lemma intersection_all_true (m : gmap string bool) :
  m ≠ ∅ → (∀ t v, m !! t = Some v → v = true) → _intersection m = Ok true.
Proof.
  intros Hm Hall. rewrite (intersection_value m Hm). f_equal.
  by apply forallb_dict_values.
Qed.

Lemma union_some_true (m : gmap string bool) t : m !! t = Some true → _union m = Ok true.
Proof.
  intros Ht. assert (m ≠ ∅) as Hm by (intros ->; by rewrite lookup_empty in Ht).
  rewrite (union_value m Hm). f_equal. apply existsb_dict_values. eauto.
Qed.

Lemma all_true_lookup (m : gmap string bool) t v :
  ((λ _, true) <$> m) !! t = Some v → v = true.
Proof. rewrite lookup_fmap. destruct (m !! t); cbn; congruence. Qed.

(** X13: A record that saw no save for more than four save intervals is closed
    by force once its lock is at hand (handed over by [savedirty], or read
    from storage): every participant of its close-map is marked as closed,
    none is added or removed, so that both reductions answer [True] on the
    new close-map and the cleanup phase sees a document that everybody has
    left. *)
Theorem closewhenidle_forces_close W cfg wopisrc r lk l st :
  lastsave r < int_of_Q (time_time W (length (trace st))) - 4 * saveinterval cfg →
  lk = Some l ∨ (lk = None ∧ wopi_getlock W (S (length (trace st))) = Ok l) →
  toclose r ≠ ∅ →
  let r' := set_toclose ((λ _, true) <$> toclose r) r in
  ∃ st',
    closewhenidle W cfg wopisrc (r, true) lk st = (Ok ((r', true), Some l), st')
    ∧ openfiles st' = <[wopisrc := r']> (openfiles st)
    ∧ saveresponses st' = saveresponses st
    ∧ dom (toclose r') = dom (toclose r)
    ∧ _intersection (toclose r') = Ok true
    ∧ _union (toclose r') = Ok true.
Proof.
  intros Hidle Hlk Hne r'. apply Z.ltb_lt in Hidle.
  assert (∃ evs,
            closewhenidle W cfg wopisrc (r, true) lk st
            = (Ok ((r', true), Some l),
               State (<[wopisrc := r']> (openfiles st)) (saveresponses st)
                     (evs ++ trace st))) as [evs Hrun].
  { unfold closewhenidle, lock_or_getlock, getlock, write_obj, now. unfold_monad.
    cbn [fst snd trace length openfiles saveresponses]. rewrite Hidle.
    destruct Hlk as [->|[-> Hget]].
    - by exists [EvTime].
    - cbn [fst snd trace length openfiles saveresponses]. rewrite Hget.
      by exists [EvGetLock wopisrc (acctok r); EvTime]. }
  eexists. split; [exact Hrun|]. cbn [openfiles saveresponses].
  split_and!; try done.
  - subst r'. cbn [toclose set_toclose]. by rewrite dom_fmap_L.
  - subst r'. cbn [toclose set_toclose].
    apply intersection_all_true; [by apply all_true_nonempty | apply all_true_lookup].
  - subst r'. cbn [toclose set_toclose].
    apply map_choose in Hne as (t & v & Ht).
    apply (union_some_true _ t). by rewrite lookup_fmap, Ht.
Qed.

Lemma closewhenidle_forces_close_witness :
  let W := Scenario.hollow_lock_world in
  let cfg := Scenario.plain_config W in
  let r := OpenFile Scenario.user1 false 100 {[ Scenario.user1 := false ]} (Some "/docid") in
  let r' := OpenFile Scenario.user1 false 100 {[ Scenario.user1 := true ]} (Some "/docid") in
  ∃ st',
    closewhenidle W cfg Scenario.file1 (r, true) None Scenario.one_open
    = (Ok ((r', true), Some Scenario.hollow_lock), st')
    ∧ openfiles st' = <[Scenario.file1 := r']> (openfiles Scenario.one_open)
    ∧ _intersection (toclose r') = Ok true.
Proof.
  intros W cfg r r'.
  destruct (closewhenidle_forces_close W cfg Scenario.file1 r None Scenario.hollow_lock
              Scenario.one_open)
    as (st' & Hrun & Hof & _ & _ & Hall & _).
  - reflexivity.
  - right. split; reflexivity.
  - apply insert_non_empty.
  - exists st'. split_and!; [exact Hrun | exact Hof | exact Hall].
Defined.

(** X14: A missed close event: the record is idle, nothing is pending, some
    participant has closed, and storage has lost the lock. [closewhenidle]
    deletes the record; [cleanup] then runs on the dictionary that is no
    longer in the registry, finds the lock missing too and deletes the record
    a second time: the cycle of the document ends with [KeyError] in the
    catch-all handler. *)
Theorem missed_close_ends_in_keyerror W cfg wopisrc r r0 st e1 e2 ui t :
  tosave r = false →
  toclose r !! t = Some true →
  openfiles st !! wopisrc = Some r0 →
  lastsave r < int_of_Q (time_time W (length (trace st))) - 4 * saveinterval cfg →
  wopi_getlock W (S (length (trace st))) = Raise (InvalidLock e1) →
  wopi_getlock W (S (S (length (trace st)))) = Raise (InvalidLock e2) →
  unlockinterval cfg = Some ui →
  Qltb (inject_Z (lastsave r))
       (Qminus (time_time W (S (S (S (length (trace st)))))) (inject_Z ui)) = true →
  process_doc W cfg wopisrc r st
  = (Ok (Caught (KeyError wopisrc)),
     State (delete wopisrc (openfiles st)) (saveresponses st)
           (EvTime :: EvGetLock wopisrc (acctok r) :: EvGetLock wopisrc (acctok r)
              :: EvTime :: trace st)).
Proof.
  intros Hsave Ht Hr0 Hidle Hget1 Hget2 Hui Hold. apply Z.ltb_lt in Hidle.
  pose proof (union_some_true _ _ Ht) as Hunion.
  apply wp_run_eq.
  unfold process_doc, savedirty, savedirty_guard. cbn [fst snd]. rewrite Hsave.
  wp_straight. unfold closewhenidle. wp_straight. rewrite Hidle. wp_straight.
  rewrite Hget1. cbv beta iota. unfold del_openfile. wp_straight.
  rewrite Hr0. wp_straight.
  unfold cleanup. cbn [fst snd]. wp_straight. rewrite Hunion, Hsave. cbn [andb negb].
  wp_straight. rewrite Hget2. cbv beta iota. wp_straight. rewrite Hui. wp_straight.
  rewrite Hold. unfold del_openfile. wp_straight. rewrite lookup_delete_eq.
  wp_straight. done.
Qed.

Lemma missed_close_ends_in_keyerror_witness :
  let W := Scenario.still_world 1000 in
  let r := OpenFile Scenario.user1 false 0 {[ Scenario.user1 := true ]} (Some "/docid") in
  let st := State {[ Scenario.file1 := r ]} ∅ [] in
  process_doc W (Scenario.plain_config W) Scenario.file1 r st
  = (Ok (Caught (KeyError Scenario.file1)),
     State (delete Scenario.file1 (openfiles st)) ∅
           [EvTime; EvGetLock Scenario.file1 Scenario.user1;
            EvGetLock Scenario.file1 Scenario.user1; EvTime]).
Proof.
  intros W r st.
  apply (missed_close_ends_in_keyerror W (Scenario.plain_config W) Scenario.file1 r r st
           "404" "404" 90 Scenario.user1).
  - reflexivity.
  - reflexivity.
  - reflexivity.
  - reflexivity.
  - reflexivity.
  - reflexivity.
  - reflexivity.
  - reflexivity.
Defined.

(** X15: [cleanup] unlocks the file and drops its record when all of this
    holds: nothing is pending for the record; some participant of its
    close-map has closed, which is the guard of the phase; the lock at hand,
    handed over by the earlier phases or else read from storage, names a
    participant at least, and each of its participants is closed in the lock
    or in the record; the unlock interval is set and has passed since the
    last save. The unlock is sent with that lock and the record is deleted
    whatever the status of the answer: a failed unlock is logged only. *)
Theorem cleanup_unlock_drops_record W cfg wopisrc r lk l ui res st t :
  tosave r = false →
  toclose r !! t = Some true →
  lk = Some l ∨ (lk = None ∧ wopi_getlock W (length (trace st)) = Ok l) →
  lk_toclose l ≠ ∅ →
  (∀ k v, lk_toclose l !! k = Some v → v = true ∨ toclose r !! k = Some true) →
  unlockinterval cfg = Some ui →
  let tr := match lk with
            | Some _ => trace st
            | None => EvGetLock wopisrc (acctok r) :: trace st
            end in
  lastsave r < int_of_Q (time_time W (length tr)) - ui →
  wopi_request W (S (length tr)) = Ok res →
  cleanup W cfg wopisrc (r, true) lk st
  = (Ok tt,
     State (delete wopisrc (openfiles st)) (saveresponses st)
           (EvWopi wopisrc (acctok r) (Unlock l) :: EvTime :: tr)).
Proof.
  intros Hsave Ht Hlk Hne Hall Hui tr Hold Hres. apply Z.ltb_lt in Hold.
  pose proof (union_some_true _ _ Ht) as Hunion.
  assert (_intersection (reconcile (toclose r) (lk_toclose l)) = Ok true) as Hinter.
  { apply intersection_all_true; [by apply reconcile_nonempty|].
    intros k v. rewrite reconcile_lookup.
    destruct (lk_toclose l !! k) as [b|] eqn:Hk; [|done]. cbn. intros [= <-].
    destruct (Hall k b Hk) as [-> | ->]; [done|]. cbn. by rewrite orb_true_r. }
  apply wp_run_eq.
  unfold cleanup. cbn [fst snd]. wp_straight. rewrite Hunion, Hsave. cbn [andb negb].
  destruct Hlk as [-> | [-> Hget]]; subst tr; wp_straight; [|rewrite Hget; wp_straight].
  all: unfold write_obj; cbn [fst snd]; wp_straight.
  all: cbn [toclose set_toclose]; rewrite Hinter; wp_straight; rewrite Hui; wp_straight.
  all: cbn [lastsave set_toclose]; cbn [length] in Hold; rewrite Hold; wp_straight.
  all: cbn [acctok set_toclose]; cbn [length] in Hres; rewrite Hres; cbv beta iota.
  all: unfold del_openfile; wp_straight; rewrite lookup_insert_eq; wp_straight.
  all: by rewrite delete_insert_eq.
Qed.

Lemma cleanup_unlock_drops_record_witness :
  let W := Scenario.still_world 1000 in
  let r := OpenFile Scenario.user1 false 0 {[ Scenario.user1 := true ]} (Some "/docid") in
  let st := State {[ Scenario.file1 := r ]} ∅ [] in
  cleanup W (Scenario.plain_config W) Scenario.file1 (r, true) (Some Scenario.relock_lock) st
  = (Ok tt,
     State (delete Scenario.file1 (openfiles st)) ∅
           [EvWopi Scenario.file1 Scenario.user1 (Unlock Scenario.relock_lock); EvTime]).
Proof.
  intros W r st.
  apply (cleanup_unlock_drops_record W (Scenario.plain_config W) Scenario.file1 r
           (Some Scenario.relock_lock) Scenario.relock_lock 90
           (Scenario.plain_response OK []) st Scenario.user1).
  - reflexivity.
  - reflexivity.
  - by left.
  - apply insert_non_empty.
  - intros k v Hk. right. cbn [lk_toclose Scenario.relock_lock] in Hk.
    apply lookup_singleton_Some in Hk as [<- _]. reflexivity.
  - reflexivity.
  - reflexivity.
  - reflexivity.
Defined.

(** *** An unlock interval that was never assigned *)

Lemma init_intervals_unlock_from_env env iv :
  is_Some (env !! "APP_UNLOCK_INTERVAL") →
  init_intervals env = Ok iv → cfg_unlockinterval iv = None.
Proof.
  intros [s Hs]. unfold init_intervals, int_of_env. rewrite Hs.
  destruct (env !! "APP_SAVE_INTERVAL") as [s'|];
    repeat match goal with
           | |- context [int_of_string ?x] => destruct (int_of_string x)
           end; intros [= <-]; done.
Qed.

Lemma cleanup_without_unlockinterval W cfg wopisrc o lk st :
  unlockinterval cfg = None →
  wp (cleanup W cfg wopisrc o lk)
     (λ _ st', (is_Some (openfiles st !! wopisrc) → is_Some (openfiles st' !! wopisrc))
               ∧ extends (λ ev, is_unlock ev = false) st st')
     (λ _ st', (is_Some (openfiles st !! wopisrc) → is_Some (openfiles st' !! wopisrc))
               ∧ extends (λ ev, is_unlock ev = false) st st') st.
Proof.
  intros Hui. unfold cleanup, write_obj, del_openfile, get_unlockinterval. rewrite Hui.
  wp_steps; (split; [|solve_extends]); try done;
    intros _; rewrite lookup_insert_eq; eauto.
Qed.

(** X16: When [APP_UNLOCK_INTERVAL] is set, [WB.init] leaves the unlock interval
    unassigned, and [cleanup], which reads it before it unlocks or drops a
    record, never gets that far: it sends no unlock to storage and a record
    of the registry stays there. *)
Theorem unlock_interval_from_env_blocks_cleanup W cfg env iv wopisrc o lk st :
  is_Some (env !! "APP_UNLOCK_INTERVAL") →
  init_intervals env = Ok iv →
  unlockinterval cfg = cfg_unlockinterval iv →
  let st' := (cleanup W cfg wopisrc o lk st).2 in
  (is_Some (openfiles st !! wopisrc) → is_Some (openfiles st' !! wopisrc))
  ∧ count_calls is_unlock st st' = 0%nat.
Proof.
  intros Henv Hinit Hcfg st'. subst st'.
  rewrite (init_intervals_unlock_from_env env iv Henv Hinit) in Hcfg.
  pose proof (cleanup_without_unlockinterval W cfg wopisrc o lk st Hcfg) as Hwp.
  unfold wp in Hwp.
  destruct (cleanup W cfg wopisrc o lk st) as [[[]|e] st'];
    destruct Hwp as [Hkeep (evs & Htr & Hevs)]; cbn [snd];
    (split; [done|]); by eapply count_calls_none.
Qed.

Lemma unlock_interval_from_env_blocks_cleanup_witness :
  let W := Scenario.still_world 1000 in
  let cfg := Config 30 None "secret" (plugins (Scenario.plain_config W)) in
  let r := OpenFile Scenario.user1 false 0 {[ Scenario.user1 := true ]} (Some "/docid") in
  let st' := (cleanup W cfg Scenario.file1 (r, true) (Some Scenario.relock_lock)
                      Scenario.one_open).2 in
  init_intervals {[ "APP_UNLOCK_INTERVAL" := "30" ]} = Ok (Intervals (Some 30) None)
  ∧ (is_Some (openfiles Scenario.one_open !! Scenario.file1)
     → is_Some (openfiles st' !! Scenario.file1))
  ∧ count_calls is_unlock Scenario.one_open st' = 0%nat.
Proof.
  intros W cfg r st'.
  assert (init_intervals {[ "APP_UNLOCK_INTERVAL" := "30" ]} = Ok (Intervals (Some 30) None))
    as Hinit by (vm_compute; reflexivity).
  split; [exact Hinit|].
  apply (unlock_interval_from_env_blocks_cleanup W cfg {[ "APP_UNLOCK_INTERVAL" := "30" ]}
           (Intervals (Some 30) None)).
  - rewrite lookup_singleton_eq. eauto.
  - exact Hinit.
  - reflexivity.
Defined.

(** *** The pending-save flag *)

(** X17: Once the adapter has answered, with any response, [savedirty] stores
    that response for the file, clears the pending-save flag and sets the
    time of last save: a save that the adapter reports as failed is not
    tried again before the next [/save] marks the record as dirty. *)
Theorem savedirty_clears_pending_after_adapter W cfg wopisrc r st st1 l app p c resp st2 :
  savedirty_guard W cfg r st = (Ok true, st1) →
  wopi_getlock W (length (trace st1)) = Ok l →
  BRIDGE_EXT_PLUGINS !! lk_app l = Some app →
  plugins cfg app = Some p →
  _intersection (toclose r) = Ok c →
  savetostorage p wopisrc (acctok r) c l
    (State (openfiles st1) (saveresponses st1)
           (EvSaveToStorage app wopisrc c :: EvGetLock wopisrc (acctok r) :: trace st1))
  = (Ok resp, st2) →
  let r' := OpenFile (acctok r) false (int_of_Q (time_time W (length (trace st2))))
                     (toclose r) (docid r) in
  savedirty W cfg wopisrc (r, true) st
  = (Ok ((r', true), Some l),
     State (<[wopisrc := r']> (openfiles st2))
           (<[wopisrc := StoredResp resp]> (saveresponses st2))
           (EvTime :: trace st2)).
Proof.
  intros Hguard Hget Happ Hp Hc Hsave r'.
  apply wp_run_eq. unfold savedirty. cbn [fst snd]. apply wp_bind.
  eapply wp_of_run; [exact Hguard|]. cbv beta iota.
  unfold savedirty_lock. cbn [fst snd]. wp_straight. rewrite Hget. cbv beta iota.
  wp_straight. unfold savedirty_dispatch. rewrite Happ. wp_straight. rewrite Hp.
  wp_straight. cbn [fst snd]. rewrite Hc. wp_straight.
  eapply wp_of_run; [exact Hsave|]. cbv beta.
  unfold write_obj. wp_straight. cbn [fst snd]. wp_straight.
  split; [done|]. subst r'.
  cbn [set_lastsave set_tosave acctok tosave lastsave toclose docid].
  by rewrite insert_insert_eq.
Qed.

Lemma savedirty_clears_pending_after_adapter_witness :
  let W := Scenario.relock_world in
  let cfg := Scenario.plain_config W in
  let lk := WopiLock "/docid" "notes.md" "dirty" "md" {[ Scenario.user1 := true ]} in
  let W' := World (time_time W) (random_raw W) (wopi_request W) (λ _, Ok lk)
                  (wopi_relock W) (wopi_refreshlock W) (wopi_saveas W)
                  (wopi_handleputfile W) (wopi_jsonify W) (λ _, Raise ConnectionError)
                  (zip_infolist W) (zip_bytes W) (upload_re_findall W) (quote_plus W) in
  let failed := Resp "Could not save file, failed to fetch document from CodiMD"
                     INTERNAL_SERVER_ERROR in
  ∃ st',
    savedirty W' (Scenario.plain_config W') Scenario.file1 (Scenario.closing, true)
              Scenario.one_closing
    = (Ok ((OpenFile Scenario.user1 false 1000 {[ Scenario.user1 := true ]} (Some "/docid"),
            true), Some lk), st')
    ∧ saveresponses st' !! Scenario.file1 = Some (StoredResp failed).
Proof.
  intros W cfg lk W' failed.
  eexists. split.
  - apply (savedirty_clears_pending_after_adapter W' (Scenario.plain_config W')
             Scenario.file1 Scenario.closing Scenario.one_closing Scenario.one_closing
             lk "codimd" (codimd W' Scenario.codimd_here) true failed
             (State (openfiles Scenario.one_closing) ∅
                    [EvApp (AppGet "http://codimd:3000/docid/download");
                     EvSaveToStorage "codimd" Scenario.file1 true;
                     EvGetLock Scenario.file1 Scenario.user1])).
    + reflexivity.
    + reflexivity.
    + reflexivity.
    + reflexivity.
    + reflexivity.
    + reflexivity.
  - cbn [saveresponses]. apply lookup_insert_eq.
Defined.

(* ===================================================================== *)
(** ** Slide detection *)
(* ===================================================================== *)

Lemma utf8_valid_Z_cons b0 t0 :
  utf8_valid_Z (b0 :: t0)
  = if b0 <? 128 then utf8_valid_Z t0
    else match t0 with
    | [] => false
    | b1 :: t1 =>
        if in_range 194 223 b0 then cont b1 && utf8_valid_Z t1
        else match t1 with
        | [] => false
        | b2 :: t2 =>
            if in_range 224 239 b0 then
              (if b0 =? 224 then in_range 160 191 b1
               else if b0 =? 237 then in_range 128 159 b1
               else cont b1)
              && cont b2 && utf8_valid_Z t2
            else match t2 with
            | [] => false
            | b3 :: t3 =>
                if in_range 240 244 b0 then
                  (if b0 =? 240 then in_range 144 191 b1
                   else if b0 =? 244 then in_range 128 143 b1
                   else cont b1)
                  && cont b2 && cont b3 && utf8_valid_Z t3
                else false
            end
        end
    end.
Proof. reflexivity. Qed.

(** a text that ends with the first byte of a multi-byte character is not
    UTF-8 *)
Lemma utf8_cut_invalid (b : Z) :
  194 ≤ b ≤ 244 → ∀ n l, (length l ≤ n)%nat → utf8_valid_Z (l ++ [b]) = false.
Proof.
  intros Hb.
  assert (cont b = false) as Hcont by (unfold cont, in_range; lia).
  assert ((b <? 128) = false) as Hascii by lia.
  assert (utf8_valid_Z [b] = false) as Hone by (by rewrite utf8_valid_Z_cons, Hascii).
  induction n as [|n IH]; intros l Hlen.
  - destruct l; [exact Hone|cbn in Hlen; lia].
  - destruct l as [|b0 t0]; [exact Hone|]. cbn [length] in Hlen.
    change ((b0 :: t0) ++ [b]) with (b0 :: (t0 ++ [b])).
    rewrite utf8_valid_Z_cons, (IH t0) by lia.
    destruct (b0 <? 128); [done|].
    destruct t0 as [|b1 t1]; cbn [app length] in *.
    { rewrite Hcont. by destruct (in_range 194 223 b0). }
    rewrite (IH t1) by lia. rewrite andb_false_r.
    destruct (in_range 194 223 b0); [done|].
    destruct t1 as [|b2 t2]; cbn [app length] in *.
    { rewrite Hcont, !andb_false_r. by destruct (in_range 224 239 b0). }
    rewrite (IH t2) by lia. rewrite andb_false_r.
    destruct (in_range 224 239 b0); [done|].
    destruct t2 as [|b3 t3]; cbn [app length] in *.
    { rewrite Hcont, !andb_false_r. by destruct (in_range 240 244 b0). }
    rewrite (IH t3) by lia. rewrite andb_false_r.
    by destruct (in_range 240 244 b0).
Qed.

(** X18: [_isslides] decodes the first nine bytes on their own: a document whose
    ninth byte opens a multi-byte character makes it raise
    [UnicodeDecodeError], valid UTF-8 or not. *)
Theorem isslides_raises_on_cut_character (pre : bytes) (b : Byte.byte) (rest : bytes) :
  length pre = 8%nat →
  194 ≤ byte_to_Z b ≤ 244 →
  _isslides (pre ++ b :: rest) = Raise UnicodeDecodeError.
Proof.
  intros Hlen Hb. apply isslides_invalid_prefix.
  replace (take 9 (pre ++ b :: rest)) with (pre ++ [b]).
  - unfold utf8_valid. rewrite fmap_app. cbn [fmap list_fmap].
    by apply (utf8_cut_invalid _ Hb (length (byte_to_Z <$> pre))).
  - rewrite take_app_ge by lia. rewrite Hlen. cbn. by rewrite take_0.
Qed.

Lemma isslides_raises_on_cut_character_witness :
  let doc := encode "# Menu: " ++ [xc3; xa9]%byte ++ encode " du jour" in
  utf8_valid doc = true ∧ _isslides doc = Raise UnicodeDecodeError.
Proof.
  intros doc. split; [vm_compute; reflexivity|].
  apply (isslides_raises_on_cut_character (encode "# Menu: ") xc3
           ([xa9]%byte ++ encode " du jour")).
  - reflexivity.
  - vm_compute. split; discriminate.
Defined.

Lemma utf8_valid_ascii (l : list Z) :
  Forall (λ z, z < 128) l → utf8_valid_Z l = true.
Proof.
  induction 1 as [|z l Hz _ IH]; [done|].
  rewrite utf8_valid_Z_cons. by replace (z <? 128) with true by lia.
Qed.

Lemma bytes_decode_ascii (b : bytes) :
  Forall (λ x, byte_to_Z x < 128) b → bytes_decode b = Ok (string_of_list_byte b).
Proof.
  intros Hb. unfold bytes_decode, decode, utf8_valid.
  rewrite utf8_valid_ascii; [done|]. by apply Forall_fmap.
Qed.

Lemma eqb_string_of_bytes (b : bytes) (s : string) :
  String.eqb (string_of_list_byte b) s = true ↔ b = encode s.
Proof.
  unfold encode. rewrite String.eqb_eq. split.
  - intros <-. by rewrite list_byte_of_string_of_list_byte.
  - intros ->. by rewrite string_of_list_byte_of_string.
Qed.

(** X19: On a document whose first sixteen bytes are ASCII, [_isslides] returns,
    and it returns [True] exactly when the document starts with one of the
    three signatures of a slide deck. *)
Theorem isslides_on_ascii_header (doc : bytes) :
  Forall (λ x, byte_to_Z x < 128) (take 16 doc) →
  ∃ slides : bool,
    _isslides doc = Ok slides
    ∧ (slides = true
       ↔ take 9 doc = encode ("---" +:+ nl +:+ "title")
         ∨ take 8 doc = encode ("---" +:+ nl +:+ "type")
         ∨ take 16 doc = encode ("---" +:+ nl +:+ "slideOptions")).
Proof.
  intros Hascii.
  assert (∀ n, (n ≤ 16)%nat → bytes_decode (take n doc) = Ok (string_of_list_byte (take n doc)))
    as Hdecode.
  { intros n Hn. apply bytes_decode_ascii.
    replace (take n doc) with (take n (take 16 doc))
      by (rewrite take_take; f_equal; lia).
    by apply Forall_take. }
  assert (_isslides doc
          = Ok (String.eqb (string_of_list_byte (take 9 doc)) ("---" +:+ nl +:+ "title")
                || String.eqb (string_of_list_byte (take 8 doc)) ("---" +:+ nl +:+ "type")
                || String.eqb (string_of_list_byte (take 16 doc))
                              ("---" +:+ nl +:+ "slideOptions"))) as Hrun.
  { unfold _isslides. rewrite (Hdecode 9%nat) by lia. cbn [mbind res_mbind res_bind].
    destruct (String.eqb (string_of_list_byte (take 9 doc)) _); [done|].
    rewrite (Hdecode 8%nat) by lia. cbn [mbind res_mbind res_bind].
    destruct (String.eqb (string_of_list_byte (take 8 doc)) _); [done|].
    rewrite (Hdecode 16%nat) by lia. done. }
  eexists. split; [exact Hrun|].
  rewrite !orb_true_iff, !eqb_string_of_bytes. tauto.
Qed.

Lemma isslides_on_ascii_header_witness :
  let doc := encode ("---" +:+ nl +:+ "type: slide" +:+ nl +:+ "---" +:+ nl)
             ++ [xc3; xa9]%byte in
  ∃ slides : bool,
    _isslides doc = Ok slides
    ∧ (slides = true
       ↔ take 9 doc = encode ("---" +:+ nl +:+ "title")
         ∨ take 8 doc = encode ("---" +:+ nl +:+ "type")
         ∨ take 16 doc = encode ("---" +:+ nl +:+ "slideOptions")).
Proof.
  intros doc. apply (isslides_on_ascii_header doc).
  vm_compute. repeat constructor.
Defined.

(* ===================================================================== *)
(** ** Saving through the CodiMD adapter *)
(* ===================================================================== *)

(** X20: When the document cannot be fetched from the app — the connection
    fails, or the app answers with another status than [200] and a body that
    is UTF-8 — [savetostorage] answers [500] after that single call: storage
    is not contacted. *)
Theorem savetostorage_fetch_failure W cc wopisrc acctok isclose lk st :
  (requests W (length (trace st)) = Raise ConnectionError
   ∨ ∃ res, requests W (length (trace st)) = Ok res
            ∧ status_code res ≠ OK ∧ utf8_valid (content res) = true) →
  codimd_savetostorage W cc wopisrc acctok isclose lk st
  = (Ok (Resp (jsonify W "Could not save file, failed to fetch document from CodiMD")
              INTERNAL_SERVER_ERROR),
     State (openfiles st) (saveresponses st)
           (EvApp (AppGet (appurl cc +:+ lk_docid lk +:+ "/download")) :: trace st)).
Proof.
  intros Hfetch. apply wp_run_eq.
  unfold codimd_savetostorage, _fetchfromcodimd. wp_straight.
  destruct Hfetch as [Hres|(res & Hres & Hstatus & Hutf8)]; rewrite Hres; cbv beta iota.
  - by wp_straight.
  - apply Z.eqb_neq in Hstatus. rewrite Hstatus. wp_straight.
    unfold bytes_decode, decode. rewrite Hutf8. by wp_straight.
Qed.

Lemma savetostorage_fetch_failure_witness :
  let W := Scenario.app_down_world Scenario.notes_rw in
  codimd_savetostorage W Scenario.codimd_here Scenario.file1 Scenario.user1 true
                       Scenario.relock_lock Scenario.empty_state
  = (Ok (Resp "Could not save file, failed to fetch document from CodiMD"
              INTERNAL_SERVER_ERROR),
     State ∅ ∅ [EvApp (AppGet "http://codimd:3000/docid/download")]).
Proof.
  intros W.
  apply (savetostorage_fetch_failure W Scenario.codimd_here Scenario.file1 Scenario.user1
           true Scenario.relock_lock Scenario.empty_state).
  left. reflexivity.
Defined.

(** X21: When the app answers the download with another status than [200] and a
    body that is not UTF-8, the log line that decodes the body raises
    [UnicodeDecodeError]: [savetostorage] raises it instead of answering. *)
Theorem savetostorage_undecodable_error_body W cc wopisrc acctok isclose lk st res :
  requests W (length (trace st)) = Ok res →
  status_code res ≠ OK →
  utf8_valid (content res) = false →
  codimd_savetostorage W cc wopisrc acctok isclose lk st
  = (Raise UnicodeDecodeError,
     State (openfiles st) (saveresponses st)
           (EvApp (AppGet (appurl cc +:+ lk_docid lk +:+ "/download")) :: trace st)).
Proof.
  intros Hres Hstatus Hutf8. apply Z.eqb_neq in Hstatus.
  unfold codimd_savetostorage, _fetchfromcodimd, on_connection_error, bytes_decode, decode.
  unfold_monad. cbn [trace]. by rewrite Hres, Hstatus, Hutf8.
Qed.

Lemma savetostorage_undecodable_error_body_witness :
  let W := Scenario.still_world 1000 in
  let W' := World (time_time W) (random_raw W) (wopi_request W) (wopi_getlock W)
                  (wopi_relock W) (wopi_refreshlock W) (wopi_saveas W)
                  (wopi_handleputfile W) (wopi_jsonify W)
                  (λ _, Ok (Scenario.plain_response 502 [xff]%byte))
                  (zip_infolist W) (zip_bytes W) (upload_re_findall W) (quote_plus W) in
  codimd_savetostorage W' Scenario.codimd_here Scenario.file1 Scenario.user1 false
                       Scenario.relock_lock Scenario.empty_state
  = (Raise UnicodeDecodeError,
     State ∅ ∅ [EvApp (AppGet "http://codimd:3000/docid/download")]).
Proof.
  intros W W'.
  apply (savetostorage_undecodable_error_body W' Scenario.codimd_here Scenario.file1
           Scenario.user1 false Scenario.relock_lock Scenario.empty_state
           (Scenario.plain_response 502 [xff]%byte)).
  - reflexivity.
  - discriminate.
  - vm_compute; reflexivity.
Defined.

(** *** Writes to storage *)

Lemma calls_upto_nil p n tr : calls_upto p n tr tr.
Proof. exists []. split; [done|]. cbn. lia. Qed.

Lemma calls_upto_cons_other p n ev tr0 tr :
  p ev = false → calls_upto p n tr0 tr → calls_upto p n tr0 (ev :: tr).
Proof.
  intros Hev (evs & -> & Hn). exists (ev :: evs). split; [done|].
  by rewrite filter_cons_False by congruence.
Qed.

Lemma calls_upto_cons_any p n ev tr0 tr :
  calls_upto p n tr0 tr → calls_upto p (S n) tr0 (ev :: tr).
Proof.
  intros (evs & -> & Hn). exists (ev :: evs). split; [done|].
  destruct (p ev) eqn:Hev.
  - rewrite filter_cons_True by done. cbn. lia.
  - rewrite filter_cons_False by congruence. lia.
Qed.

Lemma calls_upto_count p n st st' :
  calls_upto p n (trace st) (trace st') → (count_calls p st st' ≤ n)%nat.
Proof.
  intros (evs & Htr & Hn). unfold count_calls. by rewrite (calls_between_app _ _ _ Htr).
Qed.

Lemma calls_upto_weaken p n tr0 tr : calls_upto p n tr0 tr → calls_upto p (S n) tr0 tr.
Proof. intros (evs & -> & Hn). exists evs. split; [done|lia]. Qed.

(** closing a goal [calls_upto p n (trace st) tr] whose trace is explicit up
    to a known prefix *)
Ltac solve_calls_upto :=
  state_simpl;
  repeat first
    [ eassumption
    | apply calls_upto_nil
    | apply calls_upto_cons_other; [reflexivity|]
    | apply calls_upto_cons_any
    | apply calls_upto_weaken; eassumption ].

(** the download of the attachments talks to the app only *)
Lemma fetch_attachments_app_only W cc (p : event → bool) n tr0 l : ∀ entries resp st,
  (∀ op, p (EvApp op) = false) →
  calls_upto p n tr0 (trace st) →
  wp (fetch_attachments W cc l entries resp)
     (λ _ st', calls_upto p n tr0 (trace st'))
     (λ _ st', calls_upto p n tr0 (trace st')) st.
Proof.
  induction l as [|attachment l IH]; intros entries resp st Hp Htr;
    cbn [fetch_attachments].
  - by apply wp_ret.
  - wp_steps; try (by apply calls_upto_cons_other);
      (apply IH; [done|]; by apply calls_upto_cons_other).
Qed.

Lemma savetostorage_storage_writes W cc wopisrc acctok isclose lk st :
  wp (codimd_savetostorage W cc wopisrc acctok isclose lk)
     (λ _ st', calls_upto is_storage_write 1 (trace st) (trace st'))
     (λ _ st', calls_upto is_storage_write 1 (trace st) (trace st')) st.
Proof.
  unfold codimd_savetostorage, _fetchfromcodimd, _getattachments, bytes_decode.
  wp_steps; try (solve_calls_upto; fail).
  all: eapply wp_mono;
    [apply (fetch_attachments_app_only W cc is_storage_write 0 (trace st));
       [done | solve_calls_upto] | |];
    cbn beta.
  all: try (intros [entries resp] st1 Hst1; wp_steps; solve_calls_upto).
  all: intros; solve_calls_upto.
Qed.

Lemma savetostorage_no_saveas W cc wopisrc acctok lk st :
  wp (codimd_savetostorage W cc wopisrc acctok false lk)
     (λ _ st', calls_upto is_saveas 0 (trace st) (trace st'))
     (λ _ st', calls_upto is_saveas 0 (trace st) (trace st')) st.
Proof.
  unfold codimd_savetostorage, _fetchfromcodimd, _getattachments, bytes_decode.
  cbn [andb negb]. 
  wp_steps; try (solve_calls_upto; fail).
  all: eapply wp_mono;
    [apply (fetch_attachments_app_only W cc is_saveas 0 (trace st));
       [done | solve_calls_upto] | |];
    cbn beta.
  all: try (intros [entries resp] st1 Hst1; wp_steps;
            try (solve_calls_upto; fail);
            match goal with
            | H : _ || true = false |- _ => by rewrite orb_true_r in H
            end).
  all: intros; solve_calls_upto.
Qed.

(** X22: One run of [savetostorage] writes the document to storage at most once:
    one PutFile or one save under a new name, never both. *)
Theorem savetostorage_writes_storage_once W cc wopisrc acctok isclose lk st :
  (count_calls is_storage_write st
     (codimd_savetostorage W cc wopisrc acctok isclose lk st).2 ≤ 1)%nat.
Proof.
  pose proof (savetostorage_storage_writes W cc wopisrc acctok isclose lk st) as Hwp.
  unfold wp in Hwp.
  destruct (codimd_savetostorage W cc wopisrc acctok isclose lk st) as [[resp|e] st'];
    by apply calls_upto_count.
Qed.

(** X23: A save that is not a close never stores the document under a new name:
    the switch between the plain file and the bundle is left to the save on
    close. *)
Theorem savetostorage_renames_only_on_close W cc wopisrc acctok lk st :
  count_calls is_saveas st (codimd_savetostorage W cc wopisrc acctok false lk st).2 = 0%nat.
Proof.
  pose proof (savetostorage_no_saveas W cc wopisrc acctok lk st) as Hwp.
  unfold wp in Hwp.
  destruct (codimd_savetostorage W cc wopisrc acctok false lk st) as [[resp|e] st'];
    apply calls_upto_count in Hwp; cbn [snd]; lia.
Qed.

(* ===================================================================== *)
(** ** Loading through the CodiMD adapter *)
(* ===================================================================== *)

(** the upload of the attachments talks to the app and draws random
    letters *)
Lemma unzip_entries_app_only W cc (P : event → Prop) tr0 l : ∀ mddoc st,
  (∀ op, P (EvApp op)) → (∀ lo hi, P (EvRandint lo hi)) →
  trace_extends P tr0 (trace st) →
  wp (unzip_entries W cc mddoc l)
     (λ _ st', trace_extends P tr0 (trace st'))
     (λ _ st', trace_extends P tr0 (trace st')) st.
Proof.
  induction l as [|zipinfo l IH]; intros mddoc st Happ Hrand Htr; cbn [unzip_entries].
  - by apply wp_ret.
  - apply wp_bind.
    assert (wp (unzip_entry W cc mddoc zipinfo)
              (λ _ st', trace_extends P tr0 (trace st'))
              (λ _ st', trace_extends P tr0 (trace st')) st) as Hentry.
    { unfold unzip_entry, mddoc_replace, content_length_int.
      wp_steps; repeat (apply trace_extends_cons; [done|]); done. }
    eapply wp_mono; [exact Hentry | | done]; cbn beta.
    intros mddoc' st1 Hst1. by apply IH.
Qed.

Lemma loadfromstorage_calls W cc md wopisrc acctok docid st :
  wp (codimd_loadfromstorage W cc md wopisrc acctok docid)
     (λ _ st', trace_extends (λ ev, is_storage_call ev = false)
                 (EvWopi wopisrc acctok GetFile :: trace st) (trace st'))
     (λ _ st', trace_extends (λ ev, is_storage_call ev = false)
                 (EvWopi wopisrc acctok GetFile :: trace st) (trace st')) st.
Proof.
  unfold codimd_loadfromstorage, _unzipattachments, next_last_segment, bytes_decode.
  wp_steps;
    try (repeat (apply trace_extends_cons; [done|]); apply trace_extends_nil).
  eapply wp_mono;
    [apply (unzip_entries_app_only W cc (λ ev, is_storage_call ev = false)
              (EvWopi wopisrc acctok GetFile :: trace st));
       [done | done | apply trace_extends_nil] | | done];
    cbn beta.
  intros mddoc st1 Hst1.
  wp_steps; repeat (apply trace_extends_cons; [done|]); done.
Qed.

(** X24: [loadfromstorage] reaches storage once, for the GetFile that opens it:
    every later call goes to the app (or draws a random letter), so that
    loading a document never writes to storage and never touches its lock. *)
Theorem loadfromstorage_reads_storage_once W cc md wopisrc acctok docid st :
  ∃ evs,
    trace (codimd_loadfromstorage W cc md wopisrc acctok docid st).2
    = evs ++ EvWopi wopisrc acctok GetFile :: trace st
    ∧ Forall (λ ev, is_storage_call ev = false) evs.
Proof.
  pose proof (loadfromstorage_calls W cc md wopisrc acctok docid st) as Hwp.
  unfold wp in Hwp.
  by destruct (codimd_loadfromstorage W cc md wopisrc acctok docid st) as [[l|e] st'].
Qed.

(** entries that are no markdown file leave the document as it is *)
Lemma unzip_entries_without_document W cc l : ∀ st,
  Forall (λ z, (splitext (ze_filename z)).2 ≠ ".md") l →
  wp (unzip_entries W cc None l) (λ mddoc _, mddoc = None) (λ _ _, True) st.
Proof.
  induction l as [|zipinfo l IH]; intros st Hl; cbn [unzip_entries].
  - by apply wp_ret.
  - apply Forall_cons_1 in Hl as [Hz Hl]. apply String.eqb_neq in Hz.
    apply wp_bind. unfold unzip_entry, mddoc_replace, content_length_int. rewrite Hz.
    wp_steps; try done; by apply IH.
Qed.

(** X25: A bundle that holds no markdown file cannot be loaded: once its
    attachments are pushed to the app, the digest of the missing document
    raises [TypeError], so that [loadfromstorage] ends with an exception
    whatever storage and the app answer. *)
Theorem loadfromstorage_bundle_without_document W cc md wopisrc acctok docid st res entries :
  wopi_request W (length (trace st)) = Ok res →
  (splitext (BaseFileName md)).2 = ".zmd" →
  zip_infolist W (content res) = Ok entries →
  Forall (λ z, (splitext (ze_filename z)).2 ≠ ".md") entries →
  (∃ e, (codimd_loadfromstorage W cc md wopisrc acctok docid st).1 = Raise e)
  ∧ (status_code res = OK → entries = [] →
     (codimd_loadfromstorage W cc md wopisrc acctok docid st).1 = Raise TypeError).
Proof.
  intros Hres Hext Hzip Hentries. split.
  - assert (wp (codimd_loadfromstorage W cc md wopisrc acctok docid)
              (λ _ _, False) (λ _ _, True) st) as Hwp.
    { unfold codimd_loadfromstorage, _unzipattachments. wp_straight. rewrite Hres.
      destruct (status_code res =? OK); [|by wp_straight].
      wp_straight. rewrite Hext, String.eqb_refl. wp_straight. rewrite Hzip.
      eapply wp_mono; [by apply unzip_entries_without_document | | done]; cbn beta.
      intros mddoc st1 ->. by wp_straight. }
    unfold wp in Hwp.
    destruct (codimd_loadfromstorage W cc md wopisrc acctok docid st) as [[l|e] st'];
      [done|eauto].
  - intros Hok ->. apply wp_raises.
    unfold codimd_loadfromstorage, _unzipattachments. wp_straight. rewrite Hres, Hok.
    rewrite Z.eqb_refl. wp_straight. rewrite Hext, String.eqb_refl. wp_straight.
    rewrite Hzip. cbn [unzip_entries]. by wp_straight.
Qed.

Lemma loadfromstorage_bundle_without_document_witness :
  let W := Scenario.serving_world Scenario.bundle_md in
  (codimd_loadfromstorage W Scenario.codimd_here Scenario.bundle_md Scenario.file1
     Scenario.user1 (Some "reserved") Scenario.empty_state).1 = Raise TypeError.
Proof.
  intros W.
  destruct (loadfromstorage_bundle_without_document W Scenario.codimd_here
              Scenario.bundle_md Scenario.file1 Scenario.user1 (Some "reserved")
              Scenario.empty_state (Scenario.metadata_response Scenario.bundle_md) [])
    as [_ Hempty].
  - reflexivity.
  - vm_compute; reflexivity.
  - reflexivity.
  - constructor.
  - apply Hempty; reflexivity.
Defined.

(* ===================================================================== *)
(** ** Digests and the sentinel of the lock *)
(* ===================================================================== *)

Lemma length_unchars (l : list ascii) : String.length (unchars l) = length l.
Proof. unfold unchars. induction l as [|c l IH]; cbn; congruence. Qed.

Lemma length_sha1 (msg : bytes) : length (sha1 msg) = 20%nat.
Proof. unfold sha1. rewrite length_fmap. apply length_sha1_Z. Qed.

Lemma length_hex (b : bytes) : String.length (hex b) = (2 * length b)%nat.
Proof.
  unfold hex. rewrite length_unchars.
  induction b as [|x b IH]; [done|]. cbn [flat_map length app]. rewrite IH. lia.
Qed.

(** X26: The digest that [loadfromstorage] puts in the lock and that
    [savetostorage] compares with it is a text of forty characters: it is
    never the sentinel ["dirty"] that marks a document as modified. *)
Theorem sha1_hexdigest_never_dirty (doc : bytes) :
  String.length (sha1_hexdigest doc) = 40%nat ∧ sha1_hexdigest doc ≠ "dirty".
Proof.
  assert (String.length (sha1_hexdigest doc) = 40%nat) as Hlen.
  { unfold sha1_hexdigest. by rewrite length_hex, length_sha1. }
  split; [done|]. intros Heq. by rewrite Heq in Hlen.
Qed.

(* ===================================================================== *)
(** ** Secrets and settings read at start-up *)
(* ===================================================================== *)

Lemma readline_no_newline (l : list ascii) :
  "010"%char ∉ l → readline l = l.
Proof.
  induction l as [|c l IH]; [done|]. intros [Hc Hl]%not_elem_of_cons.
  cbn [readline]. destruct (Ascii.eqb_spec c "010") as [->|_]; [done|].
  by rewrite IH.
Qed.

Lemma readline_newline (pre rest : list ascii) :
  "010"%char ∉ pre → readline (pre ++ "010"%char :: rest) = pre ++ ["010"%char].
Proof.
  induction pre as [|c pre IH]; [cbn; done|]. intros [Hc Hl]%not_elem_of_cons.
  cbn [readline app]. destruct (Ascii.eqb_spec c "010") as [->|_]; [done|].
  by rewrite IH.
Qed.

Lemma lstrip_char_head c (l : list ascii) :
  match l with [] => True | x :: _ => x ≠ c end → lstrip_char c l = l.
Proof.
  destruct l as [|x l]; [done|]. intros Hx. cbn [lstrip_char].
  by destruct (Ascii.eqb_spec x c).
Qed.

Lemma head_not_in c (l : list ascii) :
  c ∉ l → match l with [] => True | x :: _ => x ≠ c end.
Proof.
  destruct l as [|x l]; [done|]. intros Hc ->. apply Hc. by left.
Qed.

Lemma not_in_rev c (l : list ascii) : c ∉ l → c ∉ rev l.
Proof. intros Hc Hin. apply Hc. by rewrite list_elem_of_In, in_rev, <- list_elem_of_In. Qed.

Lemma strip_char_no_occurrence c (l : list ascii) : c ∉ l → strip_char c l = l.
Proof.
  intros Hc. unfold strip_char.
  rewrite (lstrip_char_head c l) by by apply head_not_in.
  rewrite (lstrip_char_head c (rev l)) by by apply head_not_in, not_in_rev.
  apply rev_involutive.
Qed.

Lemma strip_char_trailing c (l : list ascii) : c ∉ l → strip_char c (l ++ [c]) = l.
Proof.
  intros Hc. unfold strip_char.
  destruct l as [|x l']; [cbn; by rewrite Ascii.eqb_refl|].
  assert (lstrip_char c ((x :: l') ++ [c]) = (x :: l') ++ [c]) as ->.
  { apply lstrip_char_head. cbn. intros ->. apply Hc. by left. }
  rewrite rev_app_distr. change (rev [c]) with [c]. cbn [app lstrip_char].
  rewrite Ascii.eqb_refl.
  rewrite (lstrip_char_head c (rev (x :: l'))) by by apply head_not_in, not_in_rev.
  apply rev_involutive.
Qed.

(** the characters before the first newline *)
Lemma split_at_newline (l : list ascii) :
  ∃ pre, ("010"%char ∉ pre) ∧ (l = pre ∨ ∃ rest, l = pre ++ "010"%char :: rest).
Proof.
  induction l as [|c l (pre & Hpre & Hl)].
  - exists []. split; [apply not_elem_of_nil|by left].
  - destruct (Ascii.eqb_spec c "010") as [->|Hc].
    + exists []. split; [apply not_elem_of_nil|]. right. by exists l.
    + exists (c :: pre). split; [apply not_elem_of_cons; auto|].
      destruct Hl as [->|[rest ->]]; [by left|right; by exists rest].
Qed.

Lemma first_line_prefix (text : string) :
  ∃ pre, ("010"%char ∉ pre) ∧ first_line text = unchars pre
         ∧ (chars text = pre ∨ ∃ rest, chars text = pre ++ "010"%char :: rest).
Proof.
  destruct (split_at_newline (chars text)) as (pre & Hpre & Htext).
  exists pre. split_and!; [done| |done].
  unfold first_line. destruct Htext as [->|[rest ->]].
  - by rewrite readline_no_newline, strip_char_no_occurrence.
  - by rewrite readline_newline, strip_char_trailing.
Qed.

Lemma first_line_no_newline (text : string) : "010"%char ∉ chars (first_line text).
Proof.
  destruct (first_line_prefix text) as (pre & Hpre & -> & _). by rewrite chars_unchars.
Qed.

Lemma unchars_app (l1 l2 : list ascii) : unchars (l1 ++ l2) = unchars l1 +:+ unchars l2.
Proof.
  unfold unchars. induction l1 as [|c l1 IH]; [done|].
  cbn [app string_of_list_ascii].
  change (String c ?s1 +:+ ?s2) with (String c (s1 +:+ s2)). by rewrite IH.
Qed.

(** X27: The secret and the API key are the first line of their file without its
    newline: the text up to the first newline, which is left out with all
    that follows. A file that starts with an empty line gives the empty
    text. *)
Theorem first_line_stops_at_newline (text : string) :
  ("010"%char ∉ chars (first_line text))
  ∧ (text = first_line text
     ∨ ∃ rest, text = first_line text +:+ String "010" rest).
Proof.
  split; [apply first_line_no_newline|].
  destruct (first_line_prefix text) as (pre & Hpre & -> & Htext).
  destruct Htext as [Hl|[rest Hl]].
  - left. by rewrite <- Hl, unchars_chars.
  - right. exists (unchars rest).
    by rewrite <- (unchars_chars text), Hl, unchars_app.
Qed.

(** X28: After [init] of [codimd.py] has returned, the external URL of the app is
    the non-empty value of [CODIMD_EXT_URL]; the internal URL is the value of
    [CODIMD_URL], or the external URL when that variable is unset or empty,
    so it is not empty either; the API key holds no newline. *)
Theorem codimd_init_settings (env : environ) (apikey_file : option string)
    (cc : codimd_config) :
  codimd_init env apikey_file = Ok cc →
  env !! "CODIMD_EXT_URL" = Some (appexturl cc)
  ∧ appexturl cc ≠ ""
  ∧ appurl cc ≠ ""
  ∧ (env !! "CODIMD_URL" = Some (appurl cc)
     ∨ (appurl cc = appexturl cc
        ∧ (env !! "CODIMD_URL" = None ∨ env !! "CODIMD_URL" = Some "")))
  ∧ "010"%char ∉ chars (apikey cc).
Proof.
  unfold codimd_init.
  destruct (env !! "CODIMD_EXT_URL") as [ext|] eqn:Hext; cbn [from_option]; unfold id;
    [|done].
  destruct (String.eqb_spec ext "") as [->|Hne]; [done|].
  destruct apikey_file as [text|]; [|done].
  destruct (env !! "CODIMD_URL") as [url|] eqn:Hurl; cbn [from_option]; unfold id.
  - destruct (String.eqb_spec url "") as [->|Hu]; intros [= <-];
      cbn [appurl appexturl apikey]; split_and!; auto using first_line_no_newline.
  - cbn [String.eqb]. intros [= <-]. cbn [appurl appexturl apikey].
    split_and!; auto using first_line_no_newline.
Qed.

Lemma codimd_init_settings_witness :
  let env : environ := {[ "CODIMD_EXT_URL" := "https://codimd.example.org" ]} in
  let cc := CodimdConfig "https://codimd.example.org" "https://codimd.example.org" "key" in
  codimd_init env (Some ("key" +:+ nl +:+ "more")) = Ok cc
  ∧ appurl cc ≠ "" ∧ "010"%char ∉ chars (apikey cc).
Proof.
  intros env cc.
  assert (codimd_init env (Some ("key" +:+ nl +:+ "more")) = Ok cc) as Hinit
    by (vm_compute; reflexivity).
  split; [exact Hinit|].
  destruct (codimd_init_settings env _ cc Hinit) as (_ & _ & Hurl & _ & Hkey).
  by split.
Defined.

(* ===================================================================== *)
(** ** The list of open files *)
(* ===================================================================== *)

(** X29: [/list] hands the registry to the callers that give the secret, as a
    bearer token or as the [apikey] argument, and to no other: a call
    without credentials is refused whatever the secret is. The handler
    changes nothing and makes no call. *)
Theorem applist_requires_secret cfg (authorization apikey : option string) st :
  ∃ r,
    applist cfg authorization apikey st = (Ok r, st)
    ∧ (authorization = Some ("Bearer " +:+ hashsecret cfg) ∨ apikey = Some (hashsecret cfg)
       → r = Listing (openfiles st))
    ∧ (authorization ≠ Some ("Bearer " +:+ hashsecret cfg) ∧ apikey ≠ Some (hashsecret cfg)
       → r = Unauthorized (_guireturn "Client not authorized") UNAUTHORIZED)
    ∧ (authorization = None ∧ apikey = None
       → r = Unauthorized (_guireturn "Client not authorized") UNAUTHORIZED).
Proof.
  unfold applist.
  destruct (decide (authorization = Some ("Bearer " +:+ hashsecret cfg))) as [Ha|Ha];
    destruct (decide (apikey = Some (hashsecret cfg))) as [Hk|Hk];
    rewrite ?(bool_decide_eq_true_2 _ Ha), ?(bool_decide_eq_false_2 _ Ha),
      ?(bool_decide_eq_true_2 _ Hk), ?(bool_decide_eq_false_2 _ Hk);
    cbn [negb andb]; eexists; (split; [reflexivity|]); split_and!;
    try done; try (by intros [? ?]); try (by intros [?|?]);
    intros [-> ->]; done.
Qed.

(* ===================================================================== *)
(** ** The file types that [/open] accepts *)
(* ===================================================================== *)

Lemma rfind_from_spec c l : ∀ i found,
  let r := rfind_from c l i found in
  r = found ∨ (i ≤ r < i + Z.of_nat (length l) ∧ l !! Z.to_nat (r - i) = Some c).
Proof.
  induction l as [|x l IH]; intros i found; cbn [rfind_from]; [by left|].
  destruct (IH (i + 1) (if Ascii.eqb x c then i else found)) as [Hr|[Hr Hl]].
  - cbv zeta in Hr. rewrite Hr.
    destruct (Ascii.eqb_spec x c) as [->|_]; [|by left].
    right. cbn [length]. split; [lia|]. by rewrite Z.sub_diag.
  - right. cbn [length]. split; [lia|].
    replace (Z.to_nat (rfind_from c l (i + 1) (if Ascii.eqb x c then i else found) - i))
      with (S (Z.to_nat (rfind_from c l (i + 1) (if Ascii.eqb x c then i else found)
                         - (i + 1)))) by lia.
    exact Hl.
Qed.

(** what [os.path.splitext] returns when it finds an extension *)
Lemma splitext_parts (p : string) :
  (splitext p).2 = ""
  ∨ ∃ root ext, splitext p = (root, "." +:+ ext) ∧ p = root +:+ "." +:+ ext.
Proof.
  unfold splitext.
  destruct ((rfind "/" (chars p) <? rfind "." (chars p))
            && has_non_dot (chars p) 0 (rfind "/" (chars p) + 1) (rfind "." (chars p)))
    eqn:Hcond; [|by left].
  right. apply andb_true_iff in Hcond as [Hlt _]. apply Z.ltb_lt in Hlt.
  unfold rfind in *.
  destruct (rfind_from_spec "/" (chars p) 0 (-1)) as [Hs|[Hs _]];
    destruct (rfind_from_spec "." (chars p) 0 (-1)) as [Hd|[Hd Hdot]];
    cbv zeta in *; try lia.
  all: rewrite Z.sub_0_r in Hdot.
  all: exists (unchars (take (Z.to_nat (rfind_from "." (chars p) 0 (-1))) (chars p))),
         (unchars (drop (S (Z.to_nat (rfind_from "." (chars p) 0 (-1)))) (chars p))).
  all: rewrite (drop_S _ _ _ Hdot).
  all: change (unchars ("."%char :: ?l)) with ("." +:+ unchars l).
  all: split; [done|].
  all: change ("." +:+ unchars ?l) with (unchars ("."%char :: l)).
  all: by rewrite <- unchars_app, <- (drop_S _ _ _ Hdot), take_drop, unchars_chars.
Qed.

(** X30: [/open] hands a file to a plugin only when its base name ends with
    [.md], [.zmd], [.mds] or [.epd], in lower case and after a first part
    that is not made of dots only: the first three go to the CodiMD plugin,
    the last to the Etherpad plugin. *)
Theorem supported_file_names (name app : string) :
  BRIDGE_EXT_PLUGINS !! str_drop 1 (splitext name).2 = Some app →
  ∃ root ext,
    name = root +:+ "." +:+ ext
    ∧ splitext name = (root, "." +:+ ext)
    ∧ (((ext = "md" ∨ ext = "zmd" ∨ ext = "mds") ∧ app = "codimd")
       ∨ (ext = "epd" ∧ app = "etherpad")).
Proof.
  intros Happ.
  destruct (splitext_parts name) as [Hnone|(root & ext & Hsplit & Hname)].
  { rewrite Hnone in Happ. by vm_compute in Happ. }
  exists root, ext. split_and!; [done..|].
  rewrite Hsplit in Happ. cbn [snd] in Happ.
  assert (str_drop 1 ("." +:+ ext) = ext) as Hdrop.
  { unfold str_drop. change (chars ("." +:+ ext)) with ("."%char :: chars ext).
    cbn [drop]. by rewrite drop_0, unchars_chars. }
  rewrite Hdrop in Happ. unfold BRIDGE_EXT_PLUGINS in Happ.
  repeat (apply lookup_insert_Some in Happ as [[<- <-]|[_ Happ]]; [by auto|]).
  apply lookup_singleton_Some in Happ as [<- <-]. auto.
Qed.

Lemma supported_file_names_witness :
  ∃ root ext,
    "slides.v2.mds" = root +:+ "." +:+ ext
    ∧ splitext "slides.v2.mds" = (root, "." +:+ ext)
    ∧ (((ext = "md" ∨ ext = "zmd" ∨ ext = "mds") ∧ "codimd" = "codimd")
       ∨ (ext = "epd" ∧ "codimd" = "etherpad")).
Proof.
  apply (supported_file_names "slides.v2.mds" "codimd").
  vm_compute. reflexivity.
Defined.
